(** * RAG chat backend: session cache, embedding, generation, ingestion

    A shallow embedding of the JavaScript sources

      - services/redisService.js      (RedisService)
      - services/embeddingService.js  (EmbeddingService)
      - services/qdrantService.js     (QdrantService)
      - services/geminiService.js     (GeminiService)
      - scripts/ingestNews.js         (NewsIngestion)
      - server.js                     (the Express handlers)

    Asynchronous methods become computations in a state-and-exception
    monad over a [state] that holds the Redis keyspace, the Qdrant
    collections, the log of outbound calls and the ingestion counter.
    The HTTP providers (Jina, Gemini, the RSS parser, Qdrant's similarity
    search) are oracles of an [Env]: their answer may depend on everything
    that happened before, and any of them may fail. *)

From Stdlib Require Import ZArith Ascii String List Bool Lia PrimFloat Uint63.
From stdpp Require Import base option list strings pretty gmap fin_maps.

Open Scope Z_scope.

(** ** JavaScript strings *)

Module JsString.

(** Characters are code units below 256. *)
Definition strlen (s : string) : Z := Z.of_nat (String.length s).

(** White space in the sense of [String.prototype.trim] and of the
    regular expression class [\s]: TAB, LF, VT, FF, CR, SPACE, NBSP. *)
Definition is_white (a : ascii) : bool :=
  let n := N_of_ascii a in
  ((9 <=? n)%N && (n <=? 13)%N) || (n =? 32)%N || (n =? 160)%N.

Fixpoint trimStart (s : string) : string :=
  match s with
  | EmptyString => EmptyString
  | String a s' => if is_white a then trimStart s' else s
  end.

Definition trimEnd (s : string) : string :=
  String.rev (trimStart (String.rev s)).

Definition trim (s : string) : string := trimEnd (trimStart s).

(** [s.substring(0, n)] for [0 <= n]. *)
Definition substring0 (n : Z) (s : string) : string :=
  String.substring 0 (Z.to_nat n) s.

(** [parts.join(sep)] *)
Fixpoint join (sep : string) (parts : list string) : string :=
  match parts with
  | [] => ""
  | [p] => p
  | p :: rest => p +:+ sep +:+ join sep rest
  end.

(** A string is falsy exactly when it is empty. *)
Definition nonempty (s : string) : bool :=
  match s with EmptyString => false | String _ _ => true end.

(** [text && text.trim().length > 0] *)
Definition has_text (s : string) : bool :=
  nonempty s && (0 <? strlen (trim s)).

Definition LF2 : string := String "010"%char (String "010"%char "").

End JsString.
Import JsString.

(** ** JavaScript values as they arrive in a parsed JSON body *)

Inductive jsval :=
| JUndefined
| JNull
| JBool (b : bool)
| JNum (n : Z)               (* a safe integer: below 2^53 in magnitude *)
| JStr (s : string)
| JObject (shown : string).  (* an array or object, with its String() form *)

Definition truthy (v : jsval) : bool :=
  match v with
  | JUndefined | JNull => false
  | JBool b => b
  | JNum n => negb (n =? 0)
  | JStr s => nonempty s
  | JObject _ => true
  end.

(** Conversion of a number inside a template literal.  The decimal
    digits are what JavaScript prints for a safe integer; a number of
    greater magnitude is printed rounded, and from 1e21 on in exponent
    form, so such numbers are outside the model ([printable] below). *)
Definition js_show_Z (n : Z) : string := pretty n.

(** The values whose string form the model gives as the code does. *)
Definition printable (v : jsval) : Prop :=
  match v with
  | JNum n => Z.abs n < 2 ^ 53
  | _ => True
  end.

Definition js_to_string (v : jsval) : string :=
  match v with
  | JUndefined => "undefined"
  | JNull => "null"
  | JBool true => "true"
  | JBool false => "false"
  | JNum n => js_show_Z n
  | JStr s => s
  | JObject shown => shown
  end.

(** [a || b] on possibly missing strings. *)
Definition or_else (a : option string) (b : string) : string :=
  match a with
  | Some s => if nonempty s then s else b
  | None => b
  end.

Definition or_opt (a b : option string) : option string :=
  match a with
  | Some s => if nonempty s then Some s else b
  | None => b
  end.

(** ** Chat messages and their JSON text *)

(** The object the chat handler stores: [{ user, bot, timestamp }]. *)
Record Message := {
  user : string;
  bot : string;
  timestamp : string;
}.

Module Json.

Definition dquote : ascii := "034"%char.
Definition bslash : ascii := "092"%char.

Definition hex_digit (n : N) : ascii :=
  if (n <? 10)%N then ascii_of_N (48 + n) else ascii_of_N (87 + n).

Definition hex_value (a : ascii) : option N :=
  let n := N_of_ascii a in
  if ((48 <=? n) && (n <=? 57))%N then Some (n - 48)%N
  else if ((97 <=? n) && (n <=? 102))%N then Some (n - 87)%N
  else if ((65 <=? n) && (n <=? 70))%N then Some (n - 55)%N
  else None.

(** What [JSON.stringify] writes for one character of a string. *)
Definition escape_char (a : ascii) : string :=
  let n := N_of_ascii a in
  if (n =? 34)%N then String bslash (String dquote "")
  else if (n =? 92)%N then String bslash (String bslash "")
  else if (n =? 8)%N then String bslash "b"
  else if (n =? 12)%N then String bslash "f"
  else if (n =? 10)%N then String bslash "n"
  else if (n =? 13)%N then String bslash "r"
  else if (n =? 9)%N then String bslash "t"
  else if (n <? 32)%N then
    String bslash
      (String "u" (String "0" (String "0"
         (String (hex_digit (n / 16)) (String (hex_digit (n mod 16)) "")))))
  else String a "".

Fixpoint escape (s : string) : string :=
  match s with
  | EmptyString => EmptyString
  | String a s' => escape_char a +:+ escape s'
  end.

Definition quote (s : string) : string :=
  String dquote (escape s +:+ String dquote "").

(** [JSON.stringify(messageData)] *)
Definition stringify (m : Message) : string :=
  "{" +:+ quote "user" +:+ ":" +:+ quote (user m) +:+ ","
      +:+ quote "bot" +:+ ":" +:+ quote (bot m) +:+ ","
      +:+ quote "timestamp" +:+ ":" +:+ quote (timestamp m) +:+ "}".

Definition simple_escape (c : ascii) : option ascii :=
  let n := N_of_ascii c in
  if (n =? 34)%N then Some dquote
  else if (n =? 92)%N then Some bslash
  else if (n =? 47)%N then Some "/"%char
  else if (n =? 98)%N then Some "008"%char
  else if (n =? 102)%N then Some "012"%char
  else if (n =? 110)%N then Some "010"%char
  else if (n =? 114)%N then Some "013"%char
  else if (n =? 116)%N then Some "009"%char
  else None.

Definition unicode_escape (h1 h2 h3 h4 : ascii) : option ascii :=
  a ← hex_value h1; b ← hex_value h2; c ← hex_value h3; d ← hex_value h4;
  let n := (((a * 16 + b) * 16 + c) * 16 + d)%N in
  if (n <? 256)%N then Some (ascii_of_N n) else None.

Definition push (a : ascii) (r : option (string * string))
  : option (string * string) :=
  match r with
  | Some (body, rest) => Some (String a body, rest)
  | None => None
  end.

(** Reads the inside of a string literal up to its closing quote and
    returns the decoded string with the text after the quote. *)
Fixpoint read_string (s : string) : option (string * string) :=
  match s with
  | EmptyString => None
  | String a s' =>
      if (N_of_ascii a =? 34)%N then Some (EmptyString, s')
      else if (N_of_ascii a =? 92)%N then
        match s' with
        | EmptyString => None
        | String c s'' =>
            if (N_of_ascii c =? 117)%N then
              match s'' with
              | String h1 (String h2 (String h3 (String h4 t))) =>
                  match unicode_escape h1 h2 h3 h4 with
                  | Some d => push d (read_string t)
                  | None => None
                  end
              | _ => None
              end
            else
              match simple_escape c with
              | Some d => push d (read_string s'')
              | None => None
              end
        end
      else if (N_of_ascii a <? 32)%N then None
      else push a (read_string s')
  end.

Fixpoint expect (p s : string) : option string :=
  match p, s with
  | EmptyString, _ => Some s
  | String a p', String b s' => if Ascii.eqb a b then expect p' s' else None
  | String _ _, EmptyString => None
  end.

(** [JSON.parse(msg)], restricted to the texts [JSON.stringify] writes
    for a chat message, which are the entries the service stores.  On a
    text that is not JSON, [None] is the [SyntaxError].  Other valid
    JSON, which [JSON.parse] reads into values that are not chat
    messages, is outside the model: nothing is stated about a list that
    holds such an entry. *)
Definition parse (s : string) : option Message :=
  s ← expect ("{" +:+ quote "user" +:+ ":" +:+ String dquote "") s;
  '(u, s) ← read_string s;
  s ← expect ("," +:+ quote "bot" +:+ ":" +:+ String dquote "") s;
  '(b, s) ← read_string s;
  s ← expect ("," +:+ quote "timestamp" +:+ ":" +:+ String dquote "") s;
  '(t, s) ← read_string s;
  match s with
  | String "}" EmptyString => Some {| user := u; bot := b; timestamp := t |}
  | _ => None
  end.

End Json.

(** ** Data model *)

(** An embedding: a sequence of doubles, opaque to this program. *)
Definition vector : Type := list float.

(** The article [processArticle] returns. *)
Module Article.
Record t := {
  id : nat;
  title : string;
  description : string;
  content : string;
  link : string;
  pubDate : string;
  source : string;
}.
End Article.

(** The payload and the document [ingestArticles] builds.  [vector] is
    [None] when [embeddings[j]] is [undefined]. *)
Module Payload.
Record t := {
  title : string;
  description : string;
  content : string;
  link : string;
  pubDate : string;
  source : string;
  ingested_at : string;
}.
End Payload.

Module Document.
Record t := {
  id : nat;
  vector : option vector;
  payload : Payload.t;
}.
End Document.

(** An item of a parsed feed; a field is [None] when the property is
    [undefined]. *)
Module Item.
Record t := {
  title : option string;
  description : option string;
  summary : option string;
  content_encoded : option string;   (* item['content:encoded'] *)
  content : option string;
  link : option string;
  pubDate : option string;
  isoDate : option string;
}.
End Item.

(** A parsed feed: [items] may be missing. *)
Record Feed := { items : option (list Item.t) }.

(** One scored point of a search result.  [hit_content] is [None] when
    the point has no payload object, and otherwise the value of
    [payload.content]. *)
Record Hit := {
  hit_id : nat;
  hit_score : float;
  hit_content : option jsval;
}.

(** The body of a Gemini reply, as far as [generateResponse] reads it. *)
Record Part := { text : jsval }.
Record Content := { parts : option (list Part) }.
Record Candidate := { cand_content : option Content; finishReason : string }.
Record GeminiData := { candidates : option (list Candidate) }.

(** ** Redis: one keyspace of typed values with expiry *)

Module Redis.

Inductive value :=
| VString (s : string)
| VList (elems : list string).

(** [deadline] is the instant at which the key expires, if any. *)
Record entry := { held : value; deadline : option Z }.

Record t := { clock : Z; keyspace : gmap string entry }.

Definition empty : t := {| clock := 0; keyspace := ∅ |}.

Definition expired (now : Z) (e : entry) : bool :=
  match deadline e with
  | Some d => d <=? now
  | None => false
  end.

(** The entry a command sees: expired keys are gone. *)
Definition find (r : t) (k : string) : option entry :=
  match keyspace r !! k with
  | Some e => if expired (clock r) e then None else Some e
  | None => None
  end.

Definition put (k : string) (e : entry) (r : t) : t :=
  {| clock := clock r; keyspace := <[k := e]> (keyspace r) |}.

Definition remove (k : string) (r : t) : t :=
  {| clock := clock r; keyspace := delete k (keyspace r) |}.

(** Time passing: [d] seconds later. *)
Definition elapse (d : Z) (r : t) : t :=
  {| clock := clock r + d; keyspace := keyspace r |}.

Definition WRONGTYPE : string :=
  "WRONGTYPE Operation against a key holding the wrong kind of value".

(** A command either replies or is refused with an error text. *)
Definition result (A : Type) : Type := (string + A) * t.

(** LPUSH key elem: the new length. *)
Definition lPush (k elem : string) (r : t) : result Z :=
  match find r k with
  | None =>
      (inr 1, put k {| held := VList [elem]; deadline := None |} r)
  | Some {| held := VList l; deadline := d |} =>
      (inr (Z.of_nat (length l) + 1),
       put k {| held := VList (elem :: l); deadline := d |} r)
  | Some {| held := VString _ |} => (inl WRONGTYPE, r)
  end.

(** EXPIRE key seconds: whether a timeout was set. *)
Definition expire (k : string) (seconds : Z) (r : t) : result bool :=
  match find r k with
  | None => (inr false, r)
  | Some e =>
      if seconds <=? 0 then (inr true, remove k r)
      else (inr true,
            put k {| held := held e; deadline := Some (clock r + seconds) |} r)
  end.

(** SET key value EX seconds *)
Definition setEX (k v : string) (seconds : Z) (r : t) : result string :=
  if seconds <=? 0 then (inl "ERR invalid expire time in 'set' command", r)
  else (inr "OK",
        put k {| held := VString v; deadline := Some (clock r + seconds) |} r).

(** The elements from index [start] to index [stop], both included;
    a negative index counts from the end. *)
Definition range {A} (l : list A) (start stop : Z) : list A :=
  let n := Z.of_nat (length l) in
  let a := if start <? 0 then Z.max 0 (n + start) else start in
  let b := if stop <? 0 then n + stop else Z.min stop (n - 1) in
  if b <? a then [] else take (Z.to_nat (b - a + 1)) (drop (Z.to_nat a) l).

(** LRANGE key start stop *)
Definition lRange (k : string) (start stop : Z) (r : t) : result (list string) :=
  match find r k with
  | None => (inr [], r)
  | Some {| held := VList l |} => (inr (range l start stop), r)
  | Some {| held := VString _ |} => (inl WRONGTYPE, r)
  end.

(** DEL key...: how many keys were removed. *)
Fixpoint del (ks : list string) (r : t) : result Z :=
  match ks with
  | [] => (inr 0, r)
  | k :: ks' =>
      let n := match find r k with Some _ => 1 | None => 0 end in
      match del ks' (remove k r) with
      | (inr m, r') => (inr (n + m), r')
      | other => other
      end
  end.

(** EXISTS key *)
Definition exists_ (k : string) (r : t) : result Z :=
  (inr (match find r k with Some _ => 1 | None => 0 end), r).

(** GET key *)
Definition get (k : string) (r : t) : result (option string) :=
  match find r k with
  | None => (inr None, r)
  | Some {| held := VString s |} => (inr (Some s), r)
  | Some {| held := VList _ |} => (inl WRONGTYPE, r)
  end.

(** LLEN key *)
Definition lLen (k : string) (r : t) : result Z :=
  match find r k with
  | None => (inr 0, r)
  | Some {| held := VList l |} => (inr (Z.of_nat (length l)), r)
  | Some {| held := VString _ |} => (inl WRONGTYPE, r)
  end.

End Redis.

(** ** Qdrant: named collections of points *)

Module Qdrant.

Record collection := {
  size : Z;
  distance : string;
  points : gmap nat (option vector * Payload.t);
}.

Abbreviation t := (gmap string collection).

Definition result (A : Type) : Type := (string + A) * t.

(** GET /collections: the names. *)
Definition getCollections (q : t) : result (list string) :=
  (inr (map_to_list q).*1, q).

(** PUT /collections/{name} *)
Definition createCollection (name : string) (sz : Z) (dist : string) (q : t)
  : result bool :=
  match q !! name with
  | Some _ => (inl "Conflict", q)
  | None =>
      (inr true, <[name := {| size := sz; distance := dist; points := ∅ |}]> q)
  end.

Definition store (c : collection) (d : Document.t) : collection :=
  {| size := size c; distance := distance c;
     points := <[Document.id d := (Document.vector d, Document.payload d)]>
                 (points c) |}.

(** A point the collection accepts: it has a vector, and the vector
    has the size of the collection. *)
Definition fits (c : collection) (d : Document.t) : bool :=
  match Document.vector d with
  | Some v => Z.of_nat (length v) =? size c
  | None => false
  end.

(** PUT /collections/{name}/points: a point with a known id replaces
    the old one.  The request is refused as a whole when it has no
    point, or a point that the collection does not accept. *)
Definition upsert (name : string) (docs : list Document.t) (q : t)
  : result bool :=
  match q !! name with
  | None => (inl "Not Found", q)
  | Some c =>
      match docs with
      | [] => (inl "Bad Request", q)
      | _ =>
          if forallb (fits c) docs
          then (inr true, <[name := foldl store c docs]> q)
          else (inl "Bad Request", q)
      end
  end.

(** GET /collections/{name}: [points_count]. *)
Definition getCollection (name : string) (q : t) : result Z :=
  match q !! name with
  | None => (inl "Not Found", q)
  | Some c => (inr (Z.of_nat (base.size (points c))), q)
  end.

(** POST /collections/{name}/points/delete with an empty filter *)
Definition deleteAll (name : string) (q : t) : result bool :=
  match q !! name with
  | None => (inl "Not Found", q)
  | Some c =>
      (inr true,
       <[name := {| size := size c; distance := distance c; points := ∅ |}]> q)
  end.

End Qdrant.

(** ** Outbound calls, the environment and the state *)

Inductive redis_cmd :=
| LPUSH (key elem : string)
| EXPIRE (key : string) (seconds : Z)
| SET_EX (key value : string) (seconds : Z)
| LRANGE (key : string) (start stop : Z)
| DEL (keys : list string)
| EXISTS (key : string)
| GET (key : string)
| LLEN (key : string).

Inductive qdrant_cmd :=
| GetCollections
| CreateCollection (name : string) (size : Z) (distance : string)
| Upsert (name : string) (docs : list Document.t)
| SearchPoints (name : string) (query : option vector) (limit : Z) (threshold : float)
| GetCollection (name : string)
| DeleteAll (name : string).

(** Everything that leaves the process, and every timer it waits on. *)
Inductive event :=
| CallRedis (c : redis_cmd)
| CallQdrant (c : qdrant_cmd)
| CallJina (model : string) (input : list string)
| CallGemini (prompt : string)
| CallParseURL (url : string)
| Sleep (ms : Z).

(** The reply of a provider: the request is rejected (transport error,
    HTTP error status) with a message, or a body comes back. *)
Inductive reply (B : Type) :=
| Rejected (message : string)
| Replied (body : B).
Arguments Rejected {B} message.
Arguments Replied {B} body.

(** The providers, each as a function of the calls made so far and of the
    request; [cheerio_text] is the text of a document after the unwanted
    elements are removed, [date_now] is [new Date().toISOString()]. *)
Record Env := {
  rss_parseURL : list event → string → reply Feed;
  jina_post :
    list event → string → list string → reply (option (list (option vector)));
  gemini_post : list event → string → reply (option GeminiData);
  qdrant_search :
    list event → string → option vector → Z → float → reply (list Hit);
  cheerio_text : string → string;
  date_now : list event → string;
}.

(** [calls] lists the outbound calls, oldest first; [articleCounter] is
    the field of the NewsIngestion object. *)
Record state := {
  calls : list event;
  redis : Redis.t;
  qdrant : Qdrant.t;
  articleCounter : nat;
}.

Definition log (e : event) (s : state) : state :=
  {| calls := calls s ++ [e]; redis := redis s; qdrant := qdrant s;
     articleCounter := articleCounter s |}.

Definition with_redis (r : Redis.t) (s : state) : state :=
  {| calls := calls s; redis := r; qdrant := qdrant s;
     articleCounter := articleCounter s |}.

Definition with_qdrant (q : Qdrant.t) (s : state) : state :=
  {| calls := calls s; redis := redis s; qdrant := q;
     articleCounter := articleCounter s |}.

Definition with_counter (n : nat) (s : state) : state :=
  {| calls := calls s; redis := redis s; qdrant := qdrant s;
     articleCounter := n |}.

(** ** The monad of asynchronous methods *)

(** A thrown [Error]; [message] is [error.message]. *)
Inductive exn := Error (message : string).

Definition error_message (e : exn) : string := let 'Error m := e in m.

Inductive outcome (A : Type) :=
| Ok (a : A)
| Throw (e : exn).
Arguments Ok {A} a.
Arguments Throw {A} e.

Definition M (A : Type) : Type := state → outcome A * state.

Definition ret {A} (a : A) : M A := λ s, (Ok a, s).

Definition bind {A B} (m : M A) (k : A → M B) : M B :=
  λ s, match m s with
       | (Ok a, s') => k a s'
       | (Throw e, s') => (Throw e, s')
       end.

Definition throw {A} (msg : string) : M A := λ s, (Throw (Error msg), s).

(** [try { body } catch (error) { handler }] *)
Definition try_catch {A} (body : M A) (handler : exn → M A) : M A :=
  λ s, match body s with
       | (Ok a, s') => (Ok a, s')
       | (Throw e, s') => handler e s'
       end.

Declare Scope js_scope.
Delimit Scope js_scope with js.
Notation "'let*' x := m 'in' k" := (bind m (λ x, k))
  (at level 10, x name, m at level 100, k at level 200,
   format "'[v' 'let*'  x  :=  m  'in' '/' k ']'") : js_scope.
Notation "m ;; k" := (bind m (λ _, k))
  (at level 100, k at level 200, right associativity) : js_scope.
Open Scope js_scope.

(** [await new Promise(resolve => setTimeout(resolve, ms))] *)
Definition sleep (ms : Z) : M unit := λ s, (Ok tt, log (Sleep ms) s).

(** A command sent through the Redis client. *)
Definition redis_call {A} (c : redis_cmd) (run : Redis.t → Redis.result A) : M A :=
  λ s, let s1 := log (CallRedis c) s in
       match run (redis s) with
       | (inr a, r') => (Ok a, with_redis r' s1)
       | (inl msg, r') => (Throw (Error msg), with_redis r' s1)
       end.

(** A request sent through the Qdrant client. *)
Definition qdrant_call {A} (c : qdrant_cmd) (run : Qdrant.t → Qdrant.result A) : M A :=
  λ s, let s1 := log (CallQdrant c) s in
       match run (qdrant s) with
       | (inr a, q') => (Ok a, with_qdrant q' s1)
       | (inl msg, q') => (Throw (Error msg), with_qdrant q' s1)
       end.

(** A request to a provider of the environment. *)
Definition provider_call {B} (e : event) (answer : list event → reply B) : M B :=
  λ s, match answer (calls s) with
       | Replied b => (Ok b, log e s)
       | Rejected msg => (Throw (Error msg), log e s)
       end.

(** [await Promise.all([a, b])]: both requests are sent before either is
    awaited; the first rejection, if any, is what is thrown. *)
Definition promise_all2 {A B} (a : M A) (b : M B) : M (A * B) :=
  λ s, let (oa, s1) := a s in
       let (ob, s2) := b s1 in
       match oa, ob with
       | Ok x, Ok y => (Ok (x, y), s2)
       | Throw e, _ => (Throw e, s2)
       | Ok _, Throw e => (Throw e, s2)
       end.

Definition rethrow {A} (error : exn) : M A := λ s, (Throw error, s).

(** [new Date().toISOString()] *)
Definition toISOString (env : Env) : M string :=
  λ s, (Ok (date_now env (calls s)), s).

(** ** services/redisService.js *)

Module RedisService.

Record t := { sessionTTL : Z; historyTTL : Z }.

(** [parseInt(process.env.X) || dflt]; [None] is [NaN]. *)
Definition setting (parsed : option Z) (dflt : Z) : Z :=
  match parsed with
  | Some n => if n =? 0 then dflt else n
  | None => dflt
  end.

Definition new (SESSION_TTL CHAT_HISTORY_TTL : option Z) : t :=
  {| sessionTTL := setting SESSION_TTL 3600;
     historyTTL := setting CHAT_HISTORY_TTL 7200 |}.

Definition getSessionKey (sessionId : jsval) : string :=
  "session:" +:+ js_to_string sessionId.

Definition getHistoryKey (sessionId : jsval) : string :=
  "history:" +:+ js_to_string sessionId.

Definition addMessage (this : t) (env : Env)
    (sessionId : jsval) (messageData : Message) : M bool :=
  try_catch
    (let historyKey := getHistoryKey sessionId in
     let sessionKey := getSessionKey sessionId in
     let elem := Json.stringify messageData in
     redis_call (LPUSH historyKey elem) (Redis.lPush historyKey elem) ;;
     redis_call (EXPIRE historyKey (historyTTL this))
                (Redis.expire historyKey (historyTTL this)) ;;
     let* now := toISOString env in
     redis_call (SET_EX sessionKey now (sessionTTL this))
                (Redis.setEX sessionKey now (sessionTTL this)) ;;
     ret true)
    (λ error, rethrow error).

(** [messages.map(msg => JSON.parse(msg))] *)
Fixpoint parse_each (messages : list string) : M (list Message) :=
  match messages with
  | [] => ret []
  | msg :: rest =>
      match Json.parse msg with
      | Some m => let* ms := parse_each rest in ret (m :: ms)
      | None => throw "Unexpected token in JSON"
      end
  end.

Definition getHistory (this : t) (sessionId : jsval) : M (list Message) :=
  try_catch
    (let historyKey := getHistoryKey sessionId in
     let* messages :=
       redis_call (LRANGE historyKey 0 (-1)) (Redis.lRange historyKey 0 (-1)) in
     parse_each (reverse messages))
    (λ error, rethrow error).

Definition clearSession (this : t) (sessionId : jsval) : M bool :=
  try_catch
    (let historyKey := getHistoryKey sessionId in
     let sessionKey := getSessionKey sessionId in
     redis_call (DEL [historyKey; sessionKey])
                (Redis.del [historyKey; sessionKey]) ;;
     ret true)
    (λ error, rethrow error).

Definition sessionExists (this : t) (sessionId : jsval) : M bool :=
  try_catch
    (let sessionKey := getSessionKey sessionId in
     let* found :=
       redis_call (EXISTS sessionKey) (Redis.exists_ sessionKey) in
     ret (found =? 1))
    (λ error, ret false).

(** The object [getSessionInfo] returns; [lastActivity] is [None] for
    [null]. *)
Record SessionInfo := {
  info_sessionId : jsval;
  lastActivity : option string;
  messageCount : Z;
}.

(** [getSessionInfo(sessionId)]; [None] is [null]. *)
Definition getSessionInfo (this : t) (sessionId : jsval)
  : M (option SessionInfo) :=
  try_catch
    (let sessionKey := getSessionKey sessionId in
     let historyKey := getHistoryKey sessionId in
     let* both :=
       promise_all2
         (redis_call (GET sessionKey) (Redis.get sessionKey))
         (redis_call (LLEN historyKey) (Redis.lLen historyKey)) in
     ret (Some {| info_sessionId := sessionId;
                  lastActivity := both.1;
                  messageCount := both.2 |}))
    (λ error, ret None).

End RedisService.

(** ** services/embeddingService.js *)

Module EmbeddingService.

Definition model : string := "jina-embeddings-v2-base-en".

Definition post (env : Env) (input : list string)
  : M (option (list (option vector))) :=
  provider_call (CallJina model input) (λ cs, jina_post env cs model input).

(** [embedText(text)]; the result is [None] when the first item of the
    reply has no [embedding]. *)
Definition embedText (env : Env) (text : jsval) : M (option vector) :=
  try_catch
    (let* trimmed :=
       (if negb (truthy text) then throw "Text cannot be empty"
        else match text with
             | JStr s =>
                 if strlen (trim s) =? 0 then throw "Text cannot be empty"
                 else ret (trim s)
             | _ => throw "text.trim is not a function"
             end) in
     let* data := post env [trimmed] in
     match data with
     | Some (first :: _) => ret first
     | _ => throw "Invalid response format from Jina API"
     end)
    (λ error, throw ("Failed to generate embedding: " +:+ error_message error)).

(** [embedBatch(texts)]; [texts] is [None] for [null] or [undefined]. *)
Definition embedBatch (env : Env) (texts : option (list string))
  : M (list (option vector)) :=
  try_catch
    (match texts with
     | None | Some [] => throw "Texts array cannot be empty"
     | Some texts =>
         let validTexts := filter (λ text, Is_true (has_text text)) texts in
         if Z.of_nat (length validTexts) =? 0
         then throw "No valid texts to embed"
         else
           let* data := post env validTexts in
           match data with
           | Some embeddings => ret embeddings
           | None => throw "Invalid response format from Jina API"
           end
     end)
    (λ error,
       throw ("Failed to generate batch embeddings: " +:+ error_message error)).

Definition getEmbeddingDimensions (env : Env) : M Z :=
  try_catch
    (let* testEmbedding := embedText env (JStr "test") in
     match testEmbedding with
     | Some v => ret (Z.of_nat (length v))
     | None => throw "Cannot read properties of undefined (reading 'length')"
     end)
    (λ error, ret 768).

Definition validateApiKey (env : Env) : M bool :=
  try_catch
    (embedText env (JStr "test") ;; ret true)
    (λ error, ret false).

End EmbeddingService.

(** ** services/qdrantService.js *)

Module QdrantService.

Definition collectionName : string := "news_articles".
Definition vectorSize : Z := 768.

(** The default [threshold = 0.7] of [search], as the double it is. *)
Definition default_threshold : float := 0x1.6666666666666p-1%float.

Definition ensureCollection : M unit :=
  try_catch
    (let* collections :=
       qdrant_call GetCollections Qdrant.getCollections in
     let collectionExists :=
       existsb (λ name, String.eqb name collectionName) collections in
     if negb collectionExists then
       qdrant_call (CreateCollection collectionName vectorSize "Cosine")
         (Qdrant.createCollection collectionName vectorSize "Cosine") ;;
       ret tt
     else ret tt)
    (λ error, rethrow error).

Definition initialize : M unit :=
  try_catch ensureCollection (λ error, rethrow error).

Definition insertDocuments (documents : list Document.t) : M bool :=
  try_catch
    (qdrant_call (Upsert collectionName documents)
       (Qdrant.upsert collectionName documents) ;;
     ret true)
    (λ error, rethrow error).

Definition search (env : Env) (queryVector : option vector)
    (topK : Z) (threshold : float) : M (list Hit) :=
  try_catch
    (provider_call
       (CallQdrant (SearchPoints collectionName queryVector topK threshold))
       (λ cs, qdrant_search env cs collectionName queryVector topK threshold))
    (λ error, rethrow error).

Definition getCollectionInfo : M Z :=
  try_catch
    (qdrant_call (GetCollection collectionName)
       (Qdrant.getCollection collectionName))
    (λ error, rethrow error).

Definition getDocumentCount : M Z :=
  try_catch getCollectionInfo (λ _, ret 0).

Definition clearCollection : M bool :=
  try_catch
    (qdrant_call (DeleteAll collectionName) (Qdrant.deleteAll collectionName) ;;
     ret true)
    (λ error, rethrow error).

End QdrantService.

(** ** services/geminiService.js *)

Module GeminiService.

Definition fallback : string :=
  "I apologize, but I'm having trouble processing your request right now. Please try again or rephrase your question.".

Definition buildRAGPrompt (userQuery context : string) : string :=
  "You are a helpful news chatbot assistant. Answer the user's question based on the provided news context. If the context doesn't contain relevant information, politely say so and provide a general response if possible.

Context from recent news articles:
" +:+ context +:+ "

User Question: " +:+ userQuery +:+ "

Instructions:
- Base your answer primarily on the provided context
- Be concise and informative
- If the context doesn't contain relevant information, acknowledge this
- Maintain a friendly and professional tone
- Cite specific details from the articles when relevant

Response:".

(** [response.data?.candidates?.[0]?.content?.parts?.[0]?.text] *)
Definition first_text (data : option GeminiData) : jsval :=
  match data with
  | Some {| candidates := Some (c :: _) |} =>
      match cand_content c with
      | Some {| parts := Some (p :: _) |} => text p
      | _ => JUndefined
      end
  | _ => JUndefined
  end.

Definition generateResponse (env : Env) (userQuery context : string)
  : M string :=
  try_catch
    (let prompt := buildRAGPrompt userQuery context in
     let* data :=
       provider_call (CallGemini prompt) (λ cs, gemini_post env cs prompt) in
     let t := first_text data in
     if truthy t then
       match t with
       | JStr s => ret (trim s)
       | _ => throw "response.data.candidates[0].content.parts[0].text.trim is not a function"
       end
     else throw "Invalid response format from Gemini API")
    (λ error, ret fallback).

(** [generateSimpleResponse(text)]: the same request without the
    safety settings, the text itself being the prompt. *)
Definition generateSimpleResponse (env : Env) (text : string) : M string :=
  try_catch
    (let* data :=
       provider_call (CallGemini text) (λ cs, gemini_post env cs text) in
     let t := first_text data in
     if truthy t then
       match t with
       | JStr s => ret (trim s)
       | _ => throw "response.data.candidates[0].content.parts[0].text.trim is not a function"
       end
     else throw "Invalid response format from Gemini API")
    (λ error, rethrow error).

Definition validateApiKey (env : Env) : M bool :=
  try_catch
    (generateSimpleResponse env "Hello" ;; ret true)
    (λ error, ret false).

Definition summarizeText (env : Env) (text : string) (maxLength : Z)
  : M string :=
  try_catch
    (let prompt :=
       "Please summarize the following text in about "
       +:+ js_show_Z maxLength +:+ " words:" +:+ LF2 +:+ text in
     generateSimpleResponse env prompt)
    (λ error, ret (substring0 maxLength text +:+ "...")).

End GeminiService.

(** ** scripts/ingestNews.js *)

Module NewsIngestion.

(** The object: its feed list; [articleCounter] lives in the state. *)
Record t := { feeds : list string }.

Definition new : t :=
  {| feeds := [ "https://feeds.bbci.co.uk/news/rss.xml";
                "https://rss.cnn.com/rss/cnn_topstories.rss";
                "https://feeds.npr.org/1001/rss.xml";
                "https://rss.cnn.com/rss/cnn_world.rss";
                "https://feeds.bbci.co.uk/news/business/rss.xml" ] |}.

(** What one pass of the retry loop decides. *)
Inductive decision := Return (items : list Item.t) | Continue.

(** One pass of [for (attempt = 1; attempt <= retries; attempt++)]. *)
Definition attemptFeed (env : Env) (feedUrl : string) (retries attempt : Z)
  : M decision :=
  try_catch
    (let* feed :=
       provider_call (CallParseURL feedUrl) (λ cs, rss_parseURL env cs feedUrl) in
     ret (Return (default [] (items feed))))
    (λ error,
       if attempt =? retries then ret (Return [])
       else sleep (2000 * attempt) ;; ret Continue).

(** The loop, with [n] passes left to run from [attempt] on. *)
Fixpoint fetchFeed_from (env : Env) (feedUrl : string) (retries : Z)
    (n : nat) (attempt : Z) : M (list Item.t) :=
  match n with
  | O => ret []
  | S n' =>
      let* p := attemptFeed env feedUrl retries attempt in
      match p with
      | Return its => ret its
      | Continue => fetchFeed_from env feedUrl retries n' (attempt + 1)
      end
  end.

(** [fetchFeed(feedUrl, retries)]: the passes are those for
    [attempt = 1 .. retries]. *)
Definition fetchFeed (env : Env) (feedUrl : string) (retries : Z)
  : M (list Item.t) :=
  fetchFeed_from env feedUrl retries (Z.to_nat retries) 1.

Definition default_retries : Z := 2.

(** [s.replace(/p+/g, ' ')] for a class [p] of characters. *)
Fixpoint replace_runs (p : ascii → bool) (in_run : bool) (s : string) : string :=
  match s with
  | EmptyString => EmptyString
  | String a s' =>
      if p a
      then (if in_run then replace_runs p true s'
            else String " "%char (replace_runs p true s'))
      else String a (replace_runs p false s')
  end.

Definition is_LF (a : ascii) : bool := (N_of_ascii a =? 10)%N.

Definition cleanHtmlContent (env : Env) (html : string) : string :=
  if negb (nonempty html) then ""
  else
    trim (replace_runs is_LF false
            (replace_runs is_white false (cheerio_text env html))).

Definition combine (title cleanDescription cleanContent : string) : string :=
  let combinedText := title in
  let combinedText :=
    if nonempty cleanDescription
    then combinedText +:+ LF2 +:+ cleanDescription else combinedText in
  let combinedText :=
    if nonempty cleanContent && negb (String.eqb cleanContent cleanDescription)
    then combinedText +:+ LF2 +:+ cleanContent else combinedText in
  if 8000 <? strlen combinedText
  then substring0 8000 combinedText +:+ "..."
  else combinedText.

Definition processArticle (this : t) (env : Env)
    (item : Item.t) (feedIndex : nat) : M Article.t :=
  let title := or_else (Item.title item) "" in
  let description :=
    or_else (or_opt (Item.description item) (Item.summary item)) "" in
  let content :=
    or_else (or_opt (Item.content_encoded item) (Item.content item)) "" in
  let link := or_else (Item.link item) "" in
  let* pubDate :=
    match or_opt (Item.pubDate item) (Item.isoDate item) with
    | Some d => ret d
    | None => toISOString env
    end in
  let cleanDescription := cleanHtmlContent env description in
  let cleanContent := cleanHtmlContent env content in
  let combinedText := combine title cleanDescription cleanContent in
  λ s,
    (Ok {| Article.id := articleCounter s;
           Article.title := title;
           Article.description := cleanDescription;
           Article.content := combinedText;
           Article.link := link;
           Article.pubDate := pubDate;
           Article.source := or_else (feeds this !! feedIndex) "unknown" |},
     with_counter (S (articleCounter s)) s).

(** [items.map(item => this.processArticle(item, i))] *)
Fixpoint processItems (this : t) (env : Env)
    (its : list Item.t) (i : nat) : M (list Article.t) :=
  match its with
  | [] => ret []
  | item :: rest =>
      let* a := processArticle this env item i in
      let* others := processItems this env rest i in
      ret (a :: others)
  end.

(** The body of the loop over the feeds: what feed [i] contributes. *)
Definition fetchOne (this : t) (env : Env) (i : nat) (feedUrl : string)
  : M (list Article.t) :=
  let* its := fetchFeed env feedUrl default_retries in
  let* processedItems :=
    (if 0 <? Z.of_nat (length its)
     then processItems this env (take 10 its) i
     else ret []) in
  sleep 1000 ;;
  ret processedItems.

(** [for (let i = 0; i < this.feeds.length; i++)] from index [i] on,
    [rest] being the feeds not visited yet. *)
Fixpoint fetchAll_from (this : t) (env : Env) (i : nat) (rest : list string)
    (allArticles : list Article.t) : M (list Article.t) :=
  match rest with
  | [] => ret allArticles
  | feedUrl :: rest' =>
      let* processedItems := fetchOne this env i feedUrl in
      fetchAll_from this env (S i) rest' (allArticles ++ processedItems)
  end.

Definition fetchAllArticles (this : t) (env : Env) : M (list Article.t) :=
  let* allArticles := fetchAll_from this env 0 (feeds this) [] in
  ret (take 50 allArticles).

Definition batchSize : nat := 10.

(** The document pushed for [batch[j]] and [embeddings[j]]. *)
Definition makeDocument (env : Env) (article : Article.t)
    (embedding : option vector) : M Document.t :=
  let* now := toISOString env in
  ret {| Document.id := Article.id article;
         Document.vector := embedding;
         Document.payload :=
           {| Payload.title := Article.title article;
              Payload.description := Article.description article;
              Payload.content := substring0 1000 (Article.content article);
              Payload.link := Article.link article;
              Payload.pubDate := Article.pubDate article;
              Payload.source := Article.source article;
              Payload.ingested_at := now |} |}.

(** [for (let j = 0; j < batch.length; j++)] from index [j] on. *)
Fixpoint pairUp (env : Env) (rest : list Article.t)
    (embeddings : list (option vector)) (j : nat) : M (list Document.t) :=
  match rest with
  | [] => ret []
  | article :: rest' =>
      let embedding := mjoin (embeddings !! j) in
      let* d := makeDocument env article embedding in
      let* ds := pairUp env rest' embeddings (S j) in
      ret (d :: ds)
  end.

(** The [try] block of the batch loop: the documents of one batch. *)
Definition embedDocuments (env : Env) (batch : list Article.t)
  : M (list Document.t) :=
  let texts := Article.content <$> batch in
  let* embeddings := EmbeddingService.embedBatch env (Some texts) in
  pairUp env batch embeddings 0.

(** [for (let i = 0; i < articles.length; i += batchSize)], from index
    [i] on, for at most [n] passes. *)
Fixpoint ingest_from (env : Env) (articles : list Article.t)
    (n i : nat) (documents : list Document.t) : M (list Document.t) :=
  match n with
  | O => ret documents
  | S n' =>
      if Z.of_nat i <? Z.of_nat (length articles) then
        let batch := take batchSize (drop i articles) in
        let* pushed :=
          try_catch
            (let* ds := embedDocuments env batch in ret (Some ds))
            (λ error, ret None) in
        match pushed with
        | Some ds =>
            sleep 2000 ;;
            ingest_from env articles n' (i + batchSize) (documents ++ ds)
        | None =>                                         (* continue *)
            ingest_from env articles n' (i + batchSize) documents
        end
      else ret documents
  end.

Definition ingestArticles (this : t) (env : Env) : M unit :=
  try_catch
    (let* articles := fetchAllArticles this env in
     if Z.of_nat (length articles) =? 0 then ret tt
     else
       let* documents :=
         ingest_from env articles (length articles) 0 [] in
       if Z.of_nat (length documents) =? 0 then ret tt
       else
         QdrantService.insertDocuments documents ;;
         let* count := QdrantService.getDocumentCount in
         ret tt)
    (λ error, rethrow error).

Definition initialize : M unit := QdrantService.initialize.

Definition clearExistingData : M unit :=
  try_catch
    (QdrantService.clearCollection ;; ret tt)
    (λ error, rethrow error).

(** [main()] with [args = process.argv.slice(2)], on a new object; the
    result is the exit code of the process. *)
Definition main (env : Env) (args : list string) : M Z :=
  try_catch
    ((λ s, (Ok tt, with_counter 1 s)) ;;
     initialize ;;
     let shouldClear := existsb (String.eqb "--clear") args in
     (if shouldClear then clearExistingData else ret tt) ;;
     ingestArticles new env ;;
     ret 0)
    (λ error, ret 1).

End NewsIngestion.

(** ** server.js *)

Module Server.

(** [req.body], as far as the chat handler reads it. *)
Record Body := { sessionId : jsval; message : jsval }.

Inductive Json :=
| ChatJson (response : string) (sessionId : jsval)
| HistoryJson (history : list Message)
| ErrorJson (error : string).

Record Response := { status : Z; json : Json }.

Definition join_item (v : jsval) : string :=
  match v with
  | JUndefined | JNull => ""
  | _ => js_to_string v
  end.

(** [relevantDocs.map(doc => doc.payload.content)] *)
Fixpoint contents (docs : list Hit) : M (list jsval) :=
  match docs with
  | [] => ret []
  | doc :: rest =>
      match hit_content doc with
      | Some c => let* cs := contents rest in ret (c :: cs)
      | None => throw "Cannot read properties of undefined (reading 'content')"
      end
  end.

(** [app.post('/api/chat', ...)] *)
Definition chat (redisService : RedisService.t) (env : Env) (body : Body)
  : M Response :=
  try_catch
    (let sessionId := sessionId body in
     let message := message body in
     if negb (truthy sessionId) || negb (truthy message) then
       ret {| status := 400;
              json := ErrorJson "Session ID and message are required" |}
     else
       let* queryEmbedding := EmbeddingService.embedText env message in
       let* relevantDocs :=
         QdrantService.search env queryEmbedding 5
           QdrantService.default_threshold in
       let* cs := contents relevantDocs in
       let context := join LF2 (join_item <$> cs) in
       (* [embedText] returns for strings only *)
       let userText := js_to_string message in
       let* response :=
         GeminiService.generateResponse env userText context in
       let* now := toISOString env in
       RedisService.addMessage redisService env sessionId
         {| user := userText; bot := response; timestamp := now |} ;;
       ret {| status := 200; json := ChatJson response sessionId |})
    (λ error,
       ret {| status := 500; json := ErrorJson "Failed to process message" |}).

(** [app.get('/api/history/:sessionId', ...)] *)
Definition history (redisService : RedisService.t) (sessionId : string)
  : M Response :=
  try_catch
    (let* h := RedisService.getHistory redisService (JStr sessionId) in
     ret {| status := 200; json := HistoryJson h |})
    (λ error,
       ret {| status := 500; json := ErrorJson "Failed to retrieve history" |}).

(** [app.delete('/api/history/:sessionId', ...)]; the body is
    [{ success: true }] or [{ error }]. *)
Record Cleared := { cleared_status : Z; cleared_json : string + bool }.

Definition clearHistory (redisService : RedisService.t) (sessionId : string)
  : M Cleared :=
  try_catch
    (RedisService.clearSession redisService (JStr sessionId) ;;
     ret {| cleared_status := 200; cleared_json := inr true |})
    (λ error,
       ret {| cleared_status := 500;
              cleared_json := inl "Failed to clear session" |}).

End Server.

(** ** Specification vocabulary *)

(** [m] run from [s] returns a value and leaves a state that satisfy [post]. *)
Definition returns {A} (m : M A) (s : state) (post : A → state → Prop) : Prop :=
  match m s with
  | (Ok a, s') => post a s'
  | (Throw _, _) => False
  end.

(** [m] run from [s] throws an error and leaves a state that satisfy [post]. *)
Definition raises {A} (m : M A) (s : state) (post : exn → state → Prop) : Prop :=
  match m s with
  | (Ok _, _) => False
  | (Throw e, s') => post e s'
  end.

(** The calls [m] adds to the log when run from [s]. *)
Definition emitted {A} (m : M A) (s : state) : list event :=
  drop (length (calls s)) (calls (m s).2).

(** Every character of [s] is white space; the empty string is blank. *)
Fixpoint blank (s : string) : bool :=
  match s with
  | EmptyString => true
  | String a s' => is_white a && blank s'
  end.

(** [d] seconds pass. *)
Definition pass (d : Z) : M unit :=
  λ s, (Ok tt, with_redis (Redis.elapse d (redis s)) s).

(** The list a key holds, as LRANGE would show it. *)
Definition stored (r : Redis.t) (k : string) : list string :=
  match Redis.find r k with
  | Some {| Redis.held := Redis.VList l |} => l
  | _ => []
  end.

(** A conversation: each turn waits and then appends its message. *)
Fixpoint converse (this : RedisService.t) (env : Env) (sessionId : jsval)
    (turns : list (Z * Message)) : M unit :=
  match turns with
  | [] => ret tt
  | (d, m) :: rest =>
      pass d ;;
      RedisService.addMessage this env sessionId m ;;
      converse this env sessionId rest
  end.

(** The history key was never written, or was deleted. *)
Definition never_existed (r : Redis.t) (k : string) : Prop :=
  Redis.keyspace r !! k = None.

(** The timeout of the key has run out. *)
Definition has_expired (r : Redis.t) (k : string) : Prop :=
  ∃ e d, Redis.keyspace r !! k = Some e
         ∧ Redis.deadline e = Some d ∧ d ≤ Redis.clock r.

(** The creation calls among some outbound calls. *)
Definition is_creation (e : event) : bool :=
  match e with
  | CallQdrant (CreateCollection _ _ _) => true
  | _ => false
  end.

Definition creations (l : list event) : nat :=
  length (filter (λ e, Is_true (is_creation e)) l).

(** The text a Gemini reply offers, when it is a non-empty string. *)
Definition usable_text (r : reply (option GeminiData)) : option string :=
  match r with
  | Rejected _ => None
  | Replied data =>
      match GeminiService.first_text data with
      | JStr t => if nonempty t then Some t else None
      | _ => None
      end
  end.

(** The generation call fails: the request is rejected, or the reply has
    no usable text (no candidate, a candidate without content as after a
    safety block, a text that is empty or not a string). *)
Definition generation_fails (r : reply (option GeminiData)) : Prop :=
  usable_text r = None.

(** The calls of [k] attempts on a feed, the first one numbered
    [attempt]: after each attempt but the last comes a wait of 2000 ms
    times its number. *)
Fixpoint backoff_trace (url : string) (k : nat) (attempt : Z) : list event :=
  match k with
  | O => []
  | S k' =>
      CallParseURL url ::
      match k' with
      | O => []
      | S _ => Sleep (2000 * attempt) :: backoff_trace url k' (attempt + 1)
      end
  end.

(** A feed that fails on every attempt, and one that serves [its] on
    every attempt. *)
Definition always_fails (env : Env) (url : string) : Prop :=
  ∀ cs, ∃ msg, rss_parseURL env cs url = Rejected msg.

Definition always_serves (env : Env) (url : string) (its : list Item.t) : Prop :=
  ∀ cs, rss_parseURL env cs url = Replied {| items := Some its |}.

(** [served] tells, for each feed of the list, what it serves, or that
    it is down. *)
Definition stable (env : Env) (feeds : list string)
    (served : string → option (list Item.t)) : Prop :=
  ∀ url, url ∈ feeds →
    match served url with
    | Some its => always_serves env url its
    | None => always_fails env url
    end.

(** An article without its id and date, and what that is for the
    article made from [item] of feed [i]. *)
Definition digest (a : Article.t) : string * string * string * string * string :=
  (Article.title a, Article.description a, Article.content a,
   Article.link a, Article.source a).

Definition item_digest (this : NewsIngestion.t) (env : Env) (i : nat)
    (item : Item.t) : string * string * string * string * string :=
  let title := or_else (Item.title item) "" in
  let d :=
    NewsIngestion.cleanHtmlContent env
      (or_else (or_opt (Item.description item) (Item.summary item)) "") in
  let c :=
    NewsIngestion.cleanHtmlContent env
      (or_else (or_opt (Item.content_encoded item) (Item.content item)) "") in
  (title, d, NewsIngestion.combine title d c,
   or_else (Item.link item) "",
   or_else (NewsIngestion.feeds this !! i) "unknown").

(** What the feeds contribute, feed by feed from index [i] on: the first
    ten items of a feed that serves, nothing for a feed that is down. *)
Fixpoint contributions (this : NewsIngestion.t) (env : Env)
    (served : string → option (list Item.t)) (i : nat) (feeds : list string)
  : list (string * string * string * string * string) :=
  match feeds with
  | [] => []
  | url :: rest =>
      match served url with
      | Some its => item_digest this env i <$> take 10 its
      | None => []
      end ++ contributions this env served (S i) rest
  end.

(** The state after some more outbound calls and processed articles. *)
Definition advanced (s : state) (evs : list event) (n : nat) : state :=
  {| calls := calls s ++ evs; redis := redis s; qdrant := qdrant s;
     articleCounter := (articleCounter s + n)%nat |}.

(** What a key holds for the history: [l] when it is a live list, [[]]
    when the key is missing or has expired. *)
Definition holds (r : Redis.t) (k : string) (l : list string) : Prop :=
  (Redis.find r k = None ∧ l = [])
  ∨ ∃ d, Redis.find r k
         = Some {| Redis.held := Redis.VList l; Redis.deadline := d |}.

(** The history key before the first append or right after one: gone, or
    holding the encoded messages, most recent first, with a full timeout. *)
Definition fresh_or_just_written (this : RedisService.t) (sessionId : jsval)
    (r : Redis.t) (ms : list Message) : Prop :=
  (Redis.find r (RedisService.getHistoryKey sessionId) = None ∧ ms = [])
  ∨ Redis.find r (RedisService.getHistoryKey sessionId)
    = Some {| Redis.held := Redis.VList (Json.stringify <$> reverse ms);
              Redis.deadline :=
                Some (Redis.clock r + RedisService.historyTTL this) |}.

(** The input of embedBatch has nothing to embed: it is missing, empty,
    or holds only empty and white-space-only strings. *)
Definition nothing_to_embed (texts : option (list string)) : Prop :=
  Forall (λ t, blank t = true) (default [] texts).

(** A computation that leaves Redis alone. *)
Definition keeps_redis {A} (m : M A) : Prop :=
  ∀ s r s', m s = (r, s') → redis s' = redis s.

(** Qdrant after the collection was created. *)
Definition created (q : Qdrant.t) : Qdrant.t :=
  <[QdrantService.collectionName :=
      {| Qdrant.size := QdrantService.vectorSize;
         Qdrant.distance := "Cosine"; Qdrant.points := ∅ |}]> q.

(** The answer to a request without session id or message. *)
Definition rejected : Server.Response :=
  {| Server.status := 400;
     Server.json := Server.ErrorJson "Session ID and message are required" |}.

(** ** Sample inputs *)

Module Sample.

(** A string of [n] letters. *)
Fixpoint letters (n : nat) : string :=
  match n with
  | O => EmptyString
  | S n' => String "a"%char (letters n')
  end.

Definition blank_item : Item.t :=
  {| Item.title := None; Item.description := None; Item.summary := None;
     Item.content_encoded := None; Item.content := None; Item.link := None;
     Item.pubDate := None; Item.isoDate := None |}.

Definition titled (title : string) : Item.t :=
  {| Item.title := Some title; Item.description := None;
     Item.summary := None; Item.content_encoded := None;
     Item.content := None; Item.link := None;
     Item.pubDate := None; Item.isoDate := None |}.

(** A title of 8001 characters. *)
Definition long_item : Item.t := titled (letters (Z.to_nat 8001)).

(** An environment in which every provider is down. *)
Definition offline : Env :=
  {| rss_parseURL := λ _ _, Rejected "ETIMEDOUT";
     jina_post := λ _ _ _, Rejected "ECONNREFUSED";
     gemini_post := λ _ _, Rejected "ECONNREFUSED";
     qdrant_search := λ _ _ _ _ _, Rejected "ECONNREFUSED";
     cheerio_text := λ html, html;
     date_now := λ _, "2024-01-01T00:00:00.000Z" |}.

(** A provider that answers every text with a vector of its own. *)
Definition marker (t : string) : option vector :=
  Some [PrimFloat.of_uint63 (Uint63.of_Z (strlen t))].

Definition echoing : Env :=
  {| rss_parseURL := λ _ _, Rejected "ETIMEDOUT";
     jina_post := λ _ _ input, Replied (Some (marker <$> input));
     gemini_post := λ _ _, Rejected "ECONNREFUSED";
     qdrant_search := λ _ _ _ _ _, Replied [];
     cheerio_text := λ html, html;
     date_now := λ _, "2024-01-01T00:00:00.000Z" |}.

Definition article (id : nat) (content : string) : Article.t :=
  {| Article.id := id; Article.title := content; Article.description := "";
     Article.content := content; Article.link := "";
     Article.pubDate := ""; Article.source := "unknown" |}.

(** A batch whose first article has only white space for content. *)
Definition gapped_batch : list Article.t :=
  [article 1 "  "; article 2 "second"].

Definition start : state :=
  {| calls := []; redis := Redis.empty; qdrant := ∅; articleCounter := 1 |}.

(** A keyspace in which the history key of "s1" holds a plain string. *)
Definition clobbered : state :=
  with_redis
    (Redis.put "history:s1"
       {| Redis.held := Redis.VString "x"; Redis.deadline := None |}
       Redis.empty)
    start.

(** Qdrant with the collection in place. *)
Definition prepared : state := with_qdrant (created ∅) start.

(** The service with its default timeouts. *)
Definition service : RedisService.t := RedisService.new None None.

(** Embedding and search answer; the generation provider is down. *)
Definition market_hit : Hit :=
  {| hit_id := 1; hit_score := 0.875%float;
     hit_content := Some (JStr "Market rally continues amid rate cut hopes") |}.

Definition gemini_down : Env :=
  {| rss_parseURL := λ _ _, Rejected "ETIMEDOUT";
     jina_post := λ _ _ input, Replied (Some (marker <$> input));
     gemini_post := λ _ _, Rejected "ECONNRESET";
     qdrant_search := λ _ _ _ _ _, Replied [market_hit];
     cheerio_text := λ html, html;
     date_now := λ _, "2024-01-01T00:00:00.000Z" |}.

Definition question : Server.Body :=
  {| Server.sessionId := JStr "s1";
     Server.message := JStr "What's happening with rates?" |}.

Definition no_message : Server.Body :=
  {| Server.sessionId := JStr "s1"; Server.message := JStr "" |}.

Definition hello : Message :=
  {| user := "hello"; bot := "Hi, how can I help?";
     timestamp := "2024-01-01T00:00:00.000Z" |}.

Definition thanks : Message :=
  {| user := "thanks"; bot := "You are welcome.";
     timestamp := "2024-01-01T00:01:00.000Z" |}.

(** One append and then two hours of silence. *)
Definition lapsed : state :=
  ((RedisService.addMessage service offline (JStr "s1") hello ;;
    pass 7200) start).2.

(** Three feeds, the second of which is down on every attempt. *)
Definition three_feeds : NewsIngestion.t :=
  {| NewsIngestion.feeds :=
       [ "https://a.example/rss"; "https://down.example/rss";
         "https://c.example/rss" ] |}.

Definition served (url : string) : option (list Item.t) :=
  if String.eqb url "https://down.example/rss" then None
  else Some [titled ("News from " +:+ url)].

Definition one_feed_down : Env :=
  {| rss_parseURL :=
       λ _ url,
         match served url with
         | Some its => Replied {| items := Some its |}
         | None => Rejected "ETIMEDOUT"
         end;
     jina_post := λ _ _ input, Replied (Some (marker <$> input));
     gemini_post := λ _ _, Rejected "ECONNRESET";
     qdrant_search := λ _ _ _ _ _, Replied [];
     cheerio_text := λ html, html;
     date_now := λ _, "2024-01-01T00:00:00.000Z" |}.

(** A batch in which every content has text. *)
Definition full_batch : list Article.t :=
  [article 1 "first"; article 2 "second"].

End Sample.

(** ** More specification vocabulary *)

(** What Redis holds under the keys of a session right after an append
    made at the state [s]. *)
Definition after_append (this : RedisService.t) (env : Env) (sessionId : jsval)
    (m : Message) (l : list string) (d0 : option Z) (s : state) : state :=
  let hk := RedisService.getHistoryKey sessionId in
  let sk := RedisService.getSessionKey sessionId in
  let x := Json.stringify m in
  let c1 := CallRedis (LPUSH hk x) in
  let c2 := CallRedis (EXPIRE hk (RedisService.historyTTL this)) in
  let now := date_now env (calls (log c2 (log c1 s))) in
  let c3 := CallRedis (SET_EX sk now (RedisService.sessionTTL this)) in
  let r := redis s in
  with_redis
    (Redis.put sk
       {| Redis.held := Redis.VString now;
          Redis.deadline :=
            Some (Redis.clock r + RedisService.sessionTTL this) |}
       (Redis.put hk
          {| Redis.held := Redis.VList (x :: l);
             Redis.deadline :=
               Some (Redis.clock r + RedisService.historyTTL this) |}
          (Redis.put hk
             {| Redis.held := Redis.VList (x :: l); Redis.deadline := d0 |}
             r)))
    (log c3 (log c2 (log c1 s))).
Arguments after_append : simpl never.

(** The value a computation returns or the error it throws, without the
    state it leaves. *)
Definition verdict {A} (m : M A) (s : state) : outcome A := (m s).1.

(** A computation that leaves alone every Redis key outside [keys]. *)
Definition only_touches {A} (keys : list string) (m : M A) : Prop :=
  ∀ s k, k ∉ keys → Redis.find (redis (m s).2) k = Redis.find (redis s) k.

(** The key holds a live value of the other type than the one the
    service keeps there. *)
Definition holds_a_list (r : Redis.t) (k : string) : Prop :=
  ∃ l d, Redis.find r k
         = Some {| Redis.held := Redis.VList l; Redis.deadline := d |}.

Definition holds_a_string (r : Redis.t) (k : string) : Prop :=
  ∃ v d, Redis.find r k
         = Some {| Redis.held := Redis.VString v; Redis.deadline := d |}.

(** The document is the one the batch loop builds for the article: same
    id and fields, the content cut to its first 1000 characters. *)
Definition made_from (a : Article.t) (d : Document.t) : Prop :=
  Document.id d = Article.id a
  ∧ Payload.title (Document.payload d) = Article.title a
  ∧ Payload.description (Document.payload d) = Article.description a
  ∧ Payload.content (Document.payload d)
    = substring0 1000 (Article.content a)
  ∧ Payload.link (Document.payload d) = Article.link a
  ∧ Payload.pubDate (Document.payload d) = Article.pubDate a
  ∧ Payload.source (Document.payload d) = Article.source a.

(** The ids of the points of the news collection; none when the
    collection is missing. *)
Definition point_ids (q : Qdrant.t) : gset nat :=
  match q !! QdrantService.collectionName with
  | Some c => dom (Qdrant.points c)
  | None => ∅
  end.

(** White space in [s] is normalised: every white-space character is a
    space, and no white-space character follows another one;
    [after_white] tells whether the character before [s] is white space
    (at the start of a text, [true] rules out a leading space). *)
Fixpoint single_spaced (after_white : bool) (s : string) : bool :=
  match s with
  | EmptyString => true
  | String a s' =>
      if is_white a
      then Ascii.eqb a " " && negb after_white && single_spaced true s'
      else single_spaced false s'
  end.

(** The steps of a chat request before the generation call: the
    embedding of the message and the search. *)
Definition is_retrieval (e : event) : bool :=
  match e with
  | CallJina _ _ | CallQdrant (SearchPoints _ _ _ _) => true
  | _ => false
  end.

(** The retrieval for the message [t] asked at [s] fails: the embedding
    provider rejects the request or answers without an item, the search
    is rejected, or one of the points found has no payload. *)
Definition retrieval_fails (env : Env) (t : string) (s : state) : Prop :=
  let ask := CallJina EmbeddingService.model [trim t] in
  match jina_post env (calls s) EmbeddingService.model [trim t] with
  | Replied (Some (first :: _)) =>
      match qdrant_search env (calls (log ask s))
              QdrantService.collectionName first 5
              QdrantService.default_threshold with
      | Replied docs => ∃ doc, doc ∈ docs ∧ hit_content doc = None
      | Rejected _ => True
      end
  | _ => True
  end.

(** The answer of the chat handler's catch-all. *)
Definition failed_chat : Server.Response :=
  {| Server.status := 500;
     Server.json := Server.ErrorJson "Failed to process message" |}.

(** The embedding provider rejects every request. *)
Definition embedding_down (env : Env) : Prop :=
  ∀ cs input, ∃ msg,
    jina_post env cs EmbeddingService.model input = Rejected msg.

(** ** More sample inputs *)

Module Scenario.

(** A service whose session timeout was configured negative. *)
Definition hasty : RedisService.t :=
  {| RedisService.sessionTTL := -1; RedisService.historyTTL := 60 |}.

(** Every provider answers; the generation reply has blanks around
    its text. *)
Definition rates_reply : GeminiData :=
  {| candidates :=
       Some [ {| cand_content :=
                   Some {| parts := Some [ {| text := JStr " Rates fell. " |} ] |};
                 finishReason := "STOP" |} ] |}.

Definition answering : Env :=
  {| rss_parseURL := λ _ _, Rejected "ETIMEDOUT";
     jina_post := λ _ _ input, Replied (Some (Sample.marker <$> input));
     gemini_post := λ _ _, Replied (Some rates_reply);
     qdrant_search := λ _ _ _ _ _, Replied [Sample.market_hit];
     cheerio_text := λ html, html;
     date_now := λ _, "2024-01-01T00:00:00.000Z" |}.

(** The search finds a point that has no payload. *)
Definition bare_hit : Hit :=
  {| hit_id := 2; hit_score := 0.75%float; hit_content := None |}.

Definition bare : Env :=
  {| rss_parseURL := λ _ _, Rejected "ETIMEDOUT";
     jina_post := λ _ _ input, Replied (Some (Sample.marker <$> input));
     gemini_post := λ _ _, Replied (Some rates_reply);
     qdrant_search := λ _ _ _ _ _, Replied [Sample.market_hit; bare_hit];
     cheerio_text := λ html, html;
     date_now := λ _, "2024-01-01T00:00:00.000Z" |}.

(** A feed that fails on the first request made and serves afterwards. *)
Definition flaky : Env :=
  {| rss_parseURL :=
       λ cs _,
         match cs with
         | [] => Rejected "ETIMEDOUT"
         | _ => Replied {| items := Some [Sample.titled "Recovered"] |}
         end;
     jina_post := λ _ _ _, Rejected "ECONNREFUSED";
     gemini_post := λ _ _, Rejected "ECONNREFUSED";
     qdrant_search := λ _ _ _ _ _, Rejected "ECONNREFUSED";
     cheerio_text := λ html, html;
     date_now := λ _, "2024-01-01T00:00:00.000Z" |}.

(** A provider that answers every text with a vector of 768 numbers,
    the size of the collection. *)
Definition wide (t : string) : option vector :=
  Some (replicate 768 (PrimFloat.of_uint63 (Uint63.of_Z (strlen t)))).

(** The feeds of [Sample.one_feed_down], with that provider, and with
    an embedding provider that is down. *)
Definition feeding : Env :=
  {| rss_parseURL := rss_parseURL Sample.one_feed_down;
     jina_post := λ _ _ input, Replied (Some (wide <$> input));
     gemini_post := λ _ _, Rejected "ECONNRESET";
     qdrant_search := λ _ _ _ _ _, Replied [];
     cheerio_text := λ html, html;
     date_now := λ _, "2024-01-01T00:00:00.000Z" |}.

Definition mute : Env :=
  {| rss_parseURL := rss_parseURL Sample.one_feed_down;
     jina_post := λ _ _ _, Rejected "ECONNREFUSED";
     gemini_post := λ _ _, Rejected "ECONNRESET";
     qdrant_search := λ _ _ _ _ _, Replied [];
     cheerio_text := λ html, html;
     date_now := λ _, "2024-01-01T00:00:00.000Z" |}.

(** A collection that holds the point 7 already. *)
Definition document (id : nat) (title : string) : Document.t :=
  {| Document.id := id; Document.vector := wide title;
     Document.payload :=
       {| Payload.title := title; Payload.description := "";
          Payload.content := title; Payload.link := "";
          Payload.pubDate := ""; Payload.source := "unknown";
          Payload.ingested_at := "2024-01-01T00:00:00.000Z" |} |}.

Definition shelf : Qdrant.collection :=
  {| Qdrant.size := 768; Qdrant.distance := "Cosine";
     Qdrant.points :=
       {[ 7%nat := (Document.vector (document 7 "old"),
                    Document.payload (document 7 "old")) ]} |}.

Definition stocked : state :=
  with_qdrant {[ QdrantService.collectionName := shelf ]} Sample.start.

Definition delivery : list Document.t :=
  [document 7 "new"; document 8 "other"].

(** The session "s2" has one exchange; "s1" has none. *)
Definition two_sessions : state :=
  (RedisService.addMessage Sample.service Sample.offline (JStr "s2")
     Sample.thanks Sample.start).2.

(** Chat requests: one with blanks around the text, one of blanks only. *)
Definition padded : string := " What's new? ".

Definition spaces : Server.Body :=
  {| Server.sessionId := JStr "s1"; Server.message := JStr "   " |}.

End Scenario.

(** The combined text of an item before any cut: the title, then the
    cleaned description and the cleaned body, each after a blank line; an
    empty part is left out, and so is a body equal to the description. *)
Definition combined_text (env : Env) (item : Item.t) : string :=
  let title := or_else (Item.title item) "" in
  let description :=
    NewsIngestion.cleanHtmlContent env
      (or_else (or_opt (Item.description item) (Item.summary item)) "") in
  let body :=
    NewsIngestion.cleanHtmlContent env
      (or_else (or_opt (Item.content_encoded item) (Item.content item)) "") in
  title
  +:+ (if nonempty description then LF2 +:+ description else "")
  +:+ (if nonempty body && negb (String.eqb body description)
       then LF2 +:+ body else "").

(** * Properties *)

(** ** Strings *)

Section StringFacts.

Lemma app_empty s : "" +:+ s = s.
Proof. reflexivity. Qed.

Lemma app_String a s1 s2 : String a s1 +:+ s2 = String a (s1 +:+ s2).
Proof. reflexivity. Qed.

Lemma length_app_string s1 s2 :
  String.length (s1 +:+ s2) = (String.length s1 + String.length s2)%nat.
Proof.
  induction s1 as [|a s1 IH]; [reflexivity|].
  rewrite app_String. simpl. congruence.
Qed.

Lemma strlen_app s1 s2 : strlen (s1 +:+ s2) = strlen s1 + strlen s2.
Proof. unfold strlen. rewrite length_app_string. lia. Qed.

Lemma length_substring0 n s :
  String.length (String.substring 0 n s) = Nat.min n (String.length s).
Proof.
  revert s. induction n as [|n IH]; intros [|a s]; simpl; auto.
Qed.

Lemma strlen_substring0 n s :
  0 ≤ n → strlen (substring0 n s) = Z.min n (strlen s).
Proof.
  intros Hn. unfold substring0, strlen. rewrite length_substring0. lia.
Qed.

Lemma trimStart_blank s : blank s = true → trimStart s = "".
Proof.
  induction s as [|a s IH]; simpl; [done|].
  destruct (is_white a); simpl; [auto | discriminate].
Qed.

Lemma trimStart_not_blank s : blank s = false → blank (trimStart s) = false.
Proof.
  induction s as [|a s IH]; simpl; [done|].
  destruct (is_white a) eqn:E; simpl; [auto | by rewrite E].
Qed.

Lemma blank_rev_app s1 s2 :
  blank (String.rev_app s1 s2) = blank s1 && blank s2.
Proof.
  revert s2. induction s1 as [|a s1 IH]; intros s2; simpl; [done|].
  rewrite IH. simpl. destruct (is_white a), (blank s1), (blank s2); done.
Qed.

Lemma blank_rev s : blank (String.rev s) = blank s.
Proof. unfold String.rev. rewrite blank_rev_app. simpl. apply andb_true_r. Qed.

Lemma blank_trim s : blank (trim s) = blank s.
Proof.
  unfold trim, trimEnd. destruct (blank s) eqn:E.
  - rewrite (trimStart_blank s E). reflexivity.
  - rewrite blank_rev. apply trimStart_not_blank.
    rewrite blank_rev. by apply trimStart_not_blank.
Qed.

Lemma trim_blank s : blank s = true → trim s = "".
Proof. intros E. unfold trim. by rewrite (trimStart_blank s E). Qed.

(** [text && text.trim().length > 0] holds exactly for the strings that
    have a character other than white space. *)
Lemma has_text_blank s : has_text s = negb (blank s).
Proof.
  unfold has_text. destruct (blank s) eqn:E.
  - rewrite (trim_blank s E). simpl. apply andb_false_r.
  - assert (blank (trim s) = false) as Ht by (by rewrite blank_trim).
    destruct s as [|a s]; [discriminate|].
    destruct (trim (String a s)) as [|b t]; [discriminate|].
    cbn [nonempty negb andb]. apply Z.ltb_lt.
    unfold strlen. cbn [String.length]. lia.
Qed.

End StringFacts.

(** ** The monad *)

Section MonadFacts.

Context {A : Type}.

Lemma returns_intro (m : M A) s a s' (post : A → state → Prop) :
  m s = (Ok a, s') → post a s' → returns m s post.
Proof. unfold returns. intros ->. auto. Qed.

Lemma raises_intro (m : M A) s e s' (post : exn → state → Prop) :
  m s = (Throw e, s') → post e s' → raises m s post.
Proof. unfold raises. intros ->. auto. Qed.

Lemma returns_weaken (m : M A) s (P Q : A → state → Prop) :
  returns m s P → (∀ a s', P a s' → Q a s') → returns m s Q.
Proof.
  unfold returns. destruct (m s) as [[a|e] s']; [auto | tauto].
Qed.

End MonadFacts.

(** ** processArticle: the length of the combined text *)

Module ProcessArticleFacts.
Import NewsIngestion.

Lemma app_nothing s : s +:+ "" = s.
Proof.
  induction s as [|a s IH]; [reflexivity|]. by rewrite app_String, IH.
Qed.

Lemma app_string_assoc s1 s2 s3 : (s1 +:+ s2) +:+ s3 = s1 +:+ (s2 +:+ s3).
Proof.
  induction s1 as [|a s1 IH]; [reflexivity|]. by rewrite !app_String, IH.
Qed.

(** The content of the article is the combined text of the item, cut
    when it has more than 8000 characters. *)
Lemma processArticle_content this env item i s :
  ∃ a, processArticle this env item i s
       = (Ok a, with_counter (S (articleCounter s)) s)
     ∧ Article.content a
       = (if 8000 <? strlen (combined_text env item)
          then substring0 8000 (combined_text env item) +:+ "..."
          else combined_text env item).
Proof.
  assert (∀ title d c,
    combine title d c
    = (let full :=
         title +:+ (if nonempty d then LF2 +:+ d else "")
         +:+ (if nonempty c && negb (String.eqb c d) then LF2 +:+ c else "")
       in if 8000 <? strlen full
          then substring0 8000 full +:+ "..." else full)) as Hcombine.
  { intros title d c. unfold combine.
    destruct (nonempty d), (nonempty c && negb (String.eqb c d));
      cbv zeta; rewrite ?app_nothing, ?app_string_assoc; reflexivity. }
  unfold processArticle, bind, ret, toISOString.
  destruct (or_opt (Item.pubDate item) (Item.isoDate item));
    (eexists; split; [reflexivity|]; simpl; apply Hcombine).
Qed.

(** C4, as amended: the content of every processed article is at most
    8003 characters long; a combined text (title, description and body)
    of at most 8000 characters is kept whole, and a longer one is cut to
    its first 8000 characters with "..." appended, which makes 8003. *)
Theorem processArticle_content_at_most_8003 this env item i s :
  returns (processArticle this env item i) s
    (λ a _,
       strlen (Article.content a) ≤ 8003
       ∧ (strlen (combined_text env item) ≤ 8000 →
          Article.content a = combined_text env item)
       ∧ (8000 < strlen (combined_text env item) →
          Article.content a
          = substring0 8000 (combined_text env item) +:+ "..."
          ∧ strlen (Article.content a) = 8003)).
Proof.
  destruct (processArticle_content this env item i s) as (a & E & Hc).
  eapply returns_intro; [exact E|]. cbv beta. rewrite Hc.
  destruct (Z.ltb_spec 8000 (strlen (combined_text env item))) as [Hl|Hs].
  - assert (strlen (substring0 8000 (combined_text env item) +:+ "...")
            = 8003) as Hn.
    { rewrite strlen_app, strlen_substring0 by lia.
      change (strlen "...") with 3. lia. }
    split_and!; [lia|lia|done].
  - split_and!; [lia|done|lia].
Qed.

(** C4, as stated, fails: an item whose title has 8001 characters gives
    an article whose content has 8003. *)
Lemma processArticle_content_exceeds_8000 :
  returns (processArticle NewsIngestion.new Sample.offline Sample.long_item 0)
    Sample.start
    (λ a _, strlen (Article.content a) = 8003
            ∧ ¬ strlen (Article.content a) ≤ 8000).
Proof.
  eapply returns_intro; [vm_compute; reflexivity|].
  split; [vm_compute; reflexivity|].
  intros H. vm_compute in H. apply H. reflexivity.
Qed.

End ProcessArticleFacts.

(** ** embedBatch: the guard before the request *)

Module EmbeddingFacts.
Import EmbeddingService.

Lemma filter_all_blank (l : list string) :
  Forall (λ t, blank t = true) l →
  filter (λ text, Is_true (has_text text)) l = [].
Proof.
  induction 1 as [|t l Ht _ IH]; [done|].
  rewrite filter_cons_False; [done|].
  rewrite has_text_blank, Ht. simpl. tauto.
Qed.

Lemma filter_some_text (l : list string) :
  ¬ Forall (λ t, blank t = true) l →
  filter (λ text, Is_true (has_text text)) l ≠ [].
Proof.
  intros Hn Hnil. apply Hn. clear Hn.
  induction l as [|t l IH]; [constructor|].
  rewrite filter_cons in Hnil.
  destruct (decide (Is_true (has_text t))) as [Hy|Hno]; [discriminate|].
  constructor; [|auto].
  rewrite has_text_blank in Hno. destruct (blank t); [done|].
  exfalso. apply Hno. done.
Qed.

Lemma emitted_provider_call {B} e (answer : list event → reply B) s :
  emitted (provider_call e answer) s = [e].
Proof.
  unfold emitted, provider_call.
  destruct (answer (calls s)); simpl; by rewrite drop_app_length.
Qed.

Lemma emitted_post env input s : emitted (post env input) s = [CallJina model input].
Proof. apply emitted_provider_call. Qed.

(** When there is something to embed, the only call is the request with
    the filtered list. *)
Lemma embedBatch_sends_filtered env texts s :
  ¬ nothing_to_embed texts →
  emitted (embedBatch env texts) s
  = [CallJina model (filter (λ text, Is_true (has_text text)) (default [] texts))].
Proof.
  intros Hn.
  destruct texts as [[|t l]|]; try solve [exfalso; apply Hn; constructor].
  pose proof (filter_some_text (t :: l) Hn) as Hne.
  pose proof (emitted_post env (filter (λ text, Is_true (has_text text)) (t :: l)) s)
    as Hp.
  unfold emitted, embedBatch, try_catch, bind in *. cbv beta iota zeta.
  simpl default in *.
  destruct (filter _ (t :: l)) as [|v vs]; [done|].
  change (Z.of_nat (length (v :: vs)) =? 0) with false. cbv beta iota.
  destruct (post env (v :: vs) s) as [[[embs|]|e] s1]; exact Hp.
Qed.

(** C5: with nothing to embed, embedBatch throws an error that says so
    and the log of outbound calls is unchanged; otherwise the one request
    it sends carries the texts that are not empty or white space only. *)
Theorem embedBatch_rejects_before_any_call env texts s :
  (nothing_to_embed texts →
   raises (embedBatch env texts) s
     (λ e s',
        s' = s ∧
        (error_message e = "Failed to generate batch embeddings: Texts array cannot be empty"
         ∨ error_message e = "Failed to generate batch embeddings: No valid texts to embed")))
  ∧ (¬ nothing_to_embed texts →
     emitted (embedBatch env texts) s
     = [CallJina model
          (filter (λ text, blank text = false) (default [] texts))]).
Proof.
  split.
  - intros Hb. destruct texts as [[|t l]|].
    + eapply raises_intro; [reflexivity|]. auto.
    + pose proof (filter_all_blank (t :: l) Hb) as Hf.
      eapply raises_intro.
      * unfold embedBatch, try_catch. rewrite Hf. reflexivity.
      * auto.
    + eapply raises_intro; [reflexivity|]. auto.
  - intros Hn. rewrite (embedBatch_sends_filtered env texts s Hn).
    do 2 f_equal. apply list_filter_iff. intros t.
    rewrite has_text_blank. destruct (blank t); simpl; intuition congruence.
Qed.

End EmbeddingFacts.

(** ** JSON: parsing what was written *)

Module JsonFacts.
Import Json.

Lemma app_assoc_string s1 s2 s3 : (s1 +:+ s2) +:+ s3 = s1 +:+ (s2 +:+ s3).
Proof.
  induction s1 as [|a s1 IH]; [reflexivity|].
  rewrite !app_String. by rewrite IH.
Qed.

Lemma expect_app p s : expect p (p +:+ s) = Some s.
Proof.
  induction p as [|a p IH]; [by destruct s|].
  rewrite app_String. simpl. by rewrite Ascii.eqb_refl.
Qed.

(** Reading back one written character. *)
Lemma read_escape_char a t :
  read_string (escape_char a +:+ t) = push a (read_string t).
Proof.
  destruct a as [[] [] [] [] [] [] [] []]; reflexivity.
Qed.

Lemma read_escape s rest :
  read_string (escape s +:+ String dquote rest) = Some (s, rest).
Proof.
  induction s as [|a s IH]; [reflexivity|].
  simpl escape. rewrite app_assoc_string, read_escape_char, IH. reflexivity.
Qed.

Lemma quote_app s rest :
  quote s +:+ rest = String dquote (escape s +:+ String dquote rest).
Proof.
  unfold quote. rewrite app_String, app_assoc_string, app_String, app_empty.
  reflexivity.
Qed.

Lemma stringify_eq m :
  stringify m
  = ("{" +:+ quote "user" +:+ ":" +:+ String dquote "")
    +:+ (escape (user m) +:+ String dquote
    (("," +:+ quote "bot" +:+ ":" +:+ String dquote "")
    +:+ (escape (bot m) +:+ String dquote
    (("," +:+ quote "timestamp" +:+ ":" +:+ String dquote "")
    +:+ (escape (timestamp m) +:+ String dquote "}"))))).
Proof.
  unfold stringify.
  rewrite !app_assoc_string, !quote_app, !app_String, !app_empty.
  reflexivity.
Qed.

(** [JSON.parse(JSON.stringify(m))] gives [m] back. *)
Lemma parse_stringify m : parse (stringify m) = Some m.
Proof.
  rewrite stringify_eq. unfold parse.
  rewrite expect_app. cbv beta iota delta [mbind option_bind]. rewrite read_escape. cbv beta iota delta [mbind option_bind].
  rewrite expect_app. cbv beta iota delta [mbind option_bind]. rewrite read_escape. cbv beta iota delta [mbind option_bind].
  rewrite expect_app. cbv beta iota delta [mbind option_bind]. rewrite read_escape. cbv beta iota delta [mbind option_bind].
  by destruct m.
Qed.

End JsonFacts.

(** ** Redis commands *)

Module RedisFacts.
Import Redis.

Lemma find_Some r k e :
  find r k = Some e ↔ keyspace r !! k = Some e ∧ expired (clock r) e = false.
Proof.
  unfold find. destruct (keyspace r !! k) as [e'|].
  - destruct (expired (clock r) e') eqn:E; split.
    + discriminate.
    + intros [[= ->] H]. congruence.
    + intros [= ->]. auto.
    + intros [[= ->] _]. reflexivity.
  - split; [discriminate | intros [[=] _]].
Qed.

Lemma find_put_eq k e r :
  find (put k e r) k = if expired (clock r) e then None else Some e.
Proof. unfold find, put. simpl. by rewrite lookup_insert_eq. Qed.

Lemma find_put_ne k k' e r : k ≠ k' → find (put k e r) k' = find r k'.
Proof. intros Hne. unfold find, put. simpl. by rewrite lookup_insert_ne. Qed.

Lemma range_all {A} (l : list A) : range l 0 (-1) = l.
Proof.
  unfold range. change (0 <? 0) with false. change (-1 <? 0) with true.
  cbv iota. destruct l as [|x l]; [reflexivity|].
  destruct (Z.ltb_spec (Z.of_nat (length (x :: l)) + -1) 0) as [H|H];
    [simpl length in H; lia|].
  change (Z.to_nat 0) with 0%nat. rewrite drop_0.
  apply firstn_all2. lia.
Qed.

(** A key with a timeout survives any shorter wait. *)
Lemma find_elapse_before r k v d ttl :
  find r k = Some {| held := v; deadline := Some (clock r + ttl) |} →
  d < ttl →
  find (elapse d r) k = Some {| held := v; deadline := Some (clock r + ttl) |}.
Proof.
  intros [Hk _]%find_Some Hd. apply find_Some. split; [exact Hk|].
  unfold expired, elapse. simpl. apply Z.leb_gt. lia.
Qed.

(** A key with a timeout is gone once the timeout has passed. *)
Lemma find_elapse_after r k v d ttl :
  keyspace r !! k = Some {| held := v; deadline := Some (clock r + ttl) |} →
  ttl ≤ d →
  find (elapse d r) k = None.
Proof.
  intros Hk Hd. unfold find, elapse. simpl. rewrite Hk.
  unfold expired. simpl.
  destruct (Z.leb_spec (clock r + ttl) (clock r + d)); [done|lia].
Qed.

Lemma lPush_fresh r k x :
  find r k = None →
  lPush k x r = (inr 1, put k {| held := VList [x]; deadline := None |} r).
Proof. unfold lPush. by intros ->. Qed.

Lemma lPush_list r k x l d :
  find r k = Some {| held := VList l; deadline := d |} →
  lPush k x r
  = (inr (Z.of_nat (length l) + 1),
     put k {| held := VList (x :: l); deadline := d |} r).
Proof. unfold lPush. by intros ->. Qed.

Lemma expire_live r k e ttl :
  find r k = Some e → 0 < ttl →
  expire k ttl r
  = (inr true, put k {| held := held e; deadline := Some (clock r + ttl) |} r).
Proof.
  unfold expire. intros -> Ht.
  destruct (Z.leb_spec ttl 0); [lia|done].
Qed.

Lemma setEX_ok r k v ttl :
  0 < ttl →
  setEX k v ttl r
  = (inr "OK",
     put k {| held := VString v; deadline := Some (clock r + ttl) |} r).
Proof. unfold setEX. intros Ht. destruct (Z.leb_spec ttl 0); [lia|done]. Qed.

Lemma lRange_missing r k a b : find r k = None → lRange k a b r = (inr [], r).
Proof. unfold lRange. by intros ->. Qed.

Lemma lRange_list r k l d :
  find r k = Some {| held := VList l; deadline := d |} →
  lRange k 0 (-1) r = (inr l, r).
Proof. unfold lRange. intros ->. by rewrite range_all. Qed.

End RedisFacts.

(** ** RedisService: the history of a session *)

Module RedisServiceFacts.
Import Redis RedisFacts RedisService.

Lemma keys_differ a b : getHistoryKey a ≠ getSessionKey b.
Proof.
  unfold getHistoryKey, getSessionKey. rewrite !app_String. discriminate.
Qed.

(** One append: the element goes to the head and the timeout is reset. *)
Lemma addMessage_ok this env sid m s l :
  0 < sessionTTL this → 0 < historyTTL this →
  holds (redis s) (getHistoryKey sid) l →
  ∃ s',
    addMessage this env sid m s = (Ok true, s')
    ∧ find (redis s') (getHistoryKey sid)
      = Some {| held := VList (Json.stringify m :: l);
                deadline := Some (clock (redis s) + historyTTL this) |}
    ∧ clock (redis s') = clock (redis s).
Proof.
  intros Hs Hh Hl.
  set (hk := getHistoryKey sid). set (x := Json.stringify m).
  assert (∃ d r1,
    lPush hk x (redis s) = (inr d.1, r1)
    ∧ r1 = put hk {| held := VList (x :: l); deadline := d.2 |} (redis s)
    ∧ find r1 hk = Some {| held := VList (x :: l); deadline := d.2 |})
    as (d & r1 & Hpush & Hr1 & Hfind1).
  { destruct Hl as [[Hnone ->]|[d Hsome]].
    - exists (1, None). eexists. split; [by apply lPush_fresh|].
      split; [reflexivity|]. by rewrite find_put_eq.
    - exists (Z.of_nat (length l) + 1, d). eexists.
      split; [by apply lPush_list|]. split; [reflexivity|].
      rewrite find_put_eq. apply find_Some in Hsome as [_ He].
      unfold expired in *. simpl in *. by rewrite He. }
  assert (clock r1 = clock (redis s)) as Hc1 by (by rewrite Hr1).
  pose proof (expire_live r1 hk _ (historyTTL this) Hfind1 Hh) as Hexp.
  simpl held in Hexp. rewrite Hc1 in Hexp.
  eexists. split.
  - unfold addMessage, try_catch, bind, redis_call, toISOString, ret.
    fold hk. fold x. simpl redis. rewrite Hpush. simpl redis.
    rewrite Hexp. simpl redis.
    rewrite (setEX_ok _ _ _ _ Hs). reflexivity.
  - simpl redis. split.
    + rewrite find_put_ne by (apply not_eq_sym, keys_differ).
      rewrite find_put_eq. unfold expired. simpl. rewrite Hc1.
      destruct (Z.leb_spec (clock (redis s) + historyTTL this) (clock (redis s)));
        [lia|done].
    + simpl. exact Hc1.
Qed.

Lemma parse_each_stringify ms s :
  parse_each (Json.stringify <$> ms) s = (Ok ms, s).
Proof.
  revert s. induction ms as [|m ms IH]; intros s; [reflexivity|].
  simpl. rewrite JsonFacts.parse_stringify. unfold bind. by rewrite IH.
Qed.

(** Reading: the stored list, reversed and parsed. *)
Lemma getHistory_ok this sid s ms :
  holds (redis s) (getHistoryKey sid) (Json.stringify <$> reverse ms) →
  ∃ s', getHistory this sid s = (Ok ms, s') ∧ redis s' = redis s.
Proof.
  intros Hl. set (hk := getHistoryKey sid).
  assert (lRange hk 0 (-1) (redis s)
          = (inr (Json.stringify <$> reverse ms), redis s)) as Hr.
  { destruct Hl as [[Hnone ->]|[d Hsome]].
    - by apply lRange_missing.
    - by eapply lRange_list. }
  eexists. split.
  - unfold getHistory, try_catch, bind, redis_call. fold hk. rewrite Hr.
    rewrite <- fmap_reverse, reverse_involutive, parse_each_stringify.
    reflexivity.
  - by destruct s.
Qed.

Section Conversation.

Variables (this : RedisService.t) (env : Env) (sid : jsval).
Hypothesis session_ttl : 0 < sessionTTL this.
Hypothesis history_ttl : 0 < historyTTL this.

Let hk := getHistoryKey sid.
Let enc (ms : list Message) : list string := Json.stringify <$> reverse ms.

Lemma holds_after_wait r ms d :
  fresh_or_just_written this sid r ms → 0 ≤ d < historyTTL this →
  holds (elapse d r) hk (enc ms).
Proof.
  unfold hk, enc. intros [[Hnone ->]|Hsome] Hd.
  - left. split; [|reflexivity].
    unfold find in *. simpl.
    destruct (keyspace r !! getHistoryKey sid) as [e|]; [|done].
    unfold expired in *. destruct (deadline e) as [dl|]; [|done].
    destruct (Z.leb_spec dl (clock r)); [|done].
    destruct (Z.leb_spec dl (clock r + d)); [done|lia].
  - right. eexists. apply find_elapse_before; [exact Hsome|lia].
Qed.

Lemma converse_ok turns :
  ∀ s old,
    Forall (λ t, 0 ≤ t.1 < historyTTL this) turns →
    fresh_or_just_written this sid (redis s) old →
    ∃ s', converse this env sid turns s = (Ok tt, s')
          ∧ fresh_or_just_written this sid (redis s') (old ++ turns.*2).
Proof.
  induction turns as [|[d m] turns IH]; intros s old Hd Hinv.
  - exists s. split; [reflexivity|]. by rewrite app_nil_r.
  - apply Forall_cons in Hd as [Hd Hds]. simpl in Hd.
    pose proof (holds_after_wait _ _ d Hinv Hd) as Hh.
    destruct (addMessage_ok this env sid m
                (with_redis (elapse d (redis s)) s) (enc old)
                session_ttl history_ttl Hh) as (s1 & E1 & Hf1 & Hc1).
    destruct (IH s1 (old ++ [m]) Hds) as (s2 & E2 & Hinv2).
    { right. unfold hk, enc. rewrite Hf1, reverse_snoc, Hc1.
      reflexivity. }
    exists s2. split.
    + simpl. unfold bind, pass. rewrite E1. exact E2.
    + simpl. by rewrite <- app_assoc in Hinv2.
Qed.

End Conversation.

(** C2: in a session that starts without history, after any sequence
    of appends the list under the history key holds the encoded
    messages most recent first, and getHistory returns the messages in
    the order in which they were appended.  The waits before each
    append and before the read are shorter than the history timeout. *)
Theorem getHistory_is_chronological this env sid turns d s :
  0 < sessionTTL this → 0 < historyTTL this →
  find (redis s) (getHistoryKey sid) = None →
  Forall (λ t, 0 ≤ t.1 < historyTTL this) turns →
  0 ≤ d < historyTTL this →
  returns (converse this env sid turns) s
    (λ _ s1,
       stored (redis s1) (getHistoryKey sid)
       = (Json.stringify <$> reverse turns.*2)
       ∧ returns (pass d ;; getHistory this sid) s1
           (λ history _, history = turns.*2)).
Proof.
  intros Hs Hh Hnone Hturns Hd.
  destruct (converse_ok this env sid Hs Hh turns s [] Hturns)
    as (s1 & E & Hinv); [by left|].
  eapply returns_intro; [exact E|]. simpl in Hinv. split.
  - destruct Hinv as [[Hn ->]|Hsome]; unfold stored.
    + by rewrite Hn.
    + by rewrite Hsome.
  - pose proof (holds_after_wait this sid _ _ d Hinv Hd) as Hl.
    destruct (getHistory_ok this sid (with_redis (elapse d (redis s1)) s1)
                turns.*2 Hl) as (s2 & E2 & _).
    eapply returns_intro; [|reflexivity].
    unfold bind, pass. exact E2.
Qed.

End RedisServiceFacts.

Module HistoryFacts.
Import Redis RedisFacts RedisService RedisServiceFacts.

Lemma find_unknown r k : never_existed r k ∨ has_expired r k → find r k = None.
Proof.
  unfold find. intros [->|(e & d & -> & Hd & Hle)]; [done|].
  unfold expired. rewrite Hd. destruct (Z.leb_spec d (clock r)); [done|lia].
Qed.

(** C9, as amended: when the history of a session was never written,
    or its own timeout has run out, getHistory returns the empty list
    and throws nothing, and Redis is left as it was.  What decides is
    the history key, not the session key. *)
Theorem getHistory_unknown_session_is_empty this sid s :
  never_existed (redis s) (getHistoryKey sid)
  ∨ has_expired (redis s) (getHistoryKey sid) →
  returns (getHistory this sid) s
    (λ history s', history = [] ∧ redis s' = redis s).
Proof.
  intros Hk%find_unknown.
  destruct (getHistory_ok this sid s []) as (s' & E & Hr).
  - left. auto.
  - eapply returns_intro; [exact E|]. auto.
Qed.

(** C9, as stated, fails: with the default timeouts, 5400 seconds after
    an append the session has expired -- the timeout of its key has run
    out and sessionExists says no -- and getHistory still returns the
    message, not the empty list. *)
Lemma getHistory_outlives_the_session :
  returns (addMessage Sample.service Sample.offline (JStr "s1") Sample.hello ;;
           pass 5400) Sample.start
    (λ _ s1,
       has_expired (redis s1) (getSessionKey (JStr "s1"))
       ∧ returns (sessionExists Sample.service (JStr "s1")) s1
           (λ found _, found = false)
       ∧ returns (getHistory Sample.service (JStr "s1")) s1
           (λ history _, history = [Sample.hello])
       ∧ ¬ returns (getHistory Sample.service (JStr "s1")) s1
             (λ history _, history = [])).
Proof.
  eapply returns_intro; [vm_compute; reflexivity|]. split_and!.
  - eexists _, 3600. split_and!; [reflexivity|reflexivity|discriminate].
  - eapply returns_intro; [vm_compute; reflexivity|reflexivity].
  - eapply returns_intro; [vm_compute; reflexivity|reflexivity].
  - intros H. vm_compute in H. discriminate H.
Qed.

(** The history does expire: once the timeout has passed after the last
    append, the list is gone. *)
Lemma history_expires this env sid m s l d :
  0 < sessionTTL this → 0 < historyTTL this →
  holds (redis s) (getHistoryKey sid) l →
  historyTTL this ≤ d →
  returns (addMessage this env sid m ;; pass d ;; getHistory this sid) s
    (λ history _, history = []).
Proof.
  intros Hs Hh Hl Hd.
  destruct (addMessage_ok this env sid m s l Hs Hh Hl) as (s1 & E1 & Hf & Hc).
  apply find_Some in Hf as [Hk _]. rewrite <- Hc in Hk.
  pose proof (find_elapse_after _ _ _ d _ Hk Hd) as Hgone.
  destruct (getHistory_ok this sid (with_redis (elapse d (redis s1)) s1) [])
    as (s2 & E2 & _); [left; auto|].
  eapply returns_intro; [|reflexivity].
  unfold bind, pass. rewrite E1. exact E2.
Qed.

End HistoryFacts.

(** ** ensureCollection *)

Module QdrantFacts.
Import Qdrant QdrantService.

(** [collections.some(col => col.name === name)] tells whether the
    collection is there. *)
Lemma some_name_spec (q : Qdrant.t) name :
  existsb (λ n, String.eqb n name) (map_to_list q).*1
  = bool_decide (is_Some (q !! name)).
Proof.
  apply eq_true_iff_eq. rewrite existsb_exists, bool_decide_eq_true.
  split.
  - intros (n & Hin & ->%String.eqb_eq).
    apply list_elem_of_In, list_elem_of_fmap in Hin as ([n' c] & -> & Hin).
    apply elem_of_map_to_list in Hin. eauto.
  - intros [c Hc]. exists name. split; [|apply String.eqb_refl].
    apply list_elem_of_In, list_elem_of_fmap. exists (name, c).
    split; [done|]. by apply elem_of_map_to_list.
Qed.

Lemma ensureCollection_absent s :
  qdrant s !! collectionName = None →
  ensureCollection s
  = (Ok tt,
     with_qdrant (created (qdrant s))
       (log (CallQdrant (CreateCollection collectionName vectorSize "Cosine"))
          (log (CallQdrant GetCollections) s))).
Proof.
  intros Hq.
  unfold ensureCollection, try_catch, bind, qdrant_call, getCollections.
  rewrite some_name_spec, Hq. rewrite bool_decide_eq_false_2 by (by intros [? ?]).
  cbv beta iota delta [negb]. unfold createCollection. simpl qdrant.
  rewrite Hq. reflexivity.
Qed.

Lemma ensureCollection_present s :
  is_Some (qdrant s !! collectionName) →
  ensureCollection s = (Ok tt, log (CallQdrant GetCollections) s).
Proof.
  intros Hq.
  unfold ensureCollection, try_catch, bind, qdrant_call, getCollections.
  rewrite some_name_spec. rewrite bool_decide_eq_true_2 by done.
  cbv beta iota delta [negb]. by destruct s.
Qed.

Lemma emitted_two {A} (m : M A) s r e1 e2 q :
  m s = (r, with_qdrant q (log e2 (log e1 s))) → emitted m s = [e1; e2].
Proof.
  unfold emitted. intros ->. simpl. rewrite <- app_assoc.
  by rewrite drop_app_length.
Qed.

Lemma emitted_one {A} (m : M A) s r e1 :
  m s = (r, log e1 s) → emitted m s = [e1].
Proof. unfold emitted. intros ->. simpl. by rewrite drop_app_length. Qed.

(** C8: ensureCollection sends a creation call exactly when the
    collection is missing, and leaves the collection in place; run
    twice in a row, the second run sends none. *)
Theorem ensureCollection_creates_once s :
  returns ensureCollection s
    (λ _ s1,
       creations (emitted ensureCollection s)
       = (if bool_decide (qdrant s !! collectionName = None) then 1 else 0)%nat
       ∧ is_Some (qdrant s1 !! collectionName)
       ∧ returns ensureCollection s1
           (λ _ s2,
              creations (emitted ensureCollection s1) = 0%nat
              ∧ qdrant s2 = qdrant s1)).
Proof.
  assert (∀ s0, is_Some (qdrant s0 !! collectionName) →
            returns ensureCollection s0
              (λ _ s2, creations (emitted ensureCollection s0) = 0%nat
                       ∧ qdrant s2 = qdrant s0)) as Hsecond.
  { intros s0 Hq. pose proof (ensureCollection_present s0 Hq) as E.
    eapply returns_intro; [exact E|].
    rewrite (emitted_one _ _ _ _ E). split; reflexivity. }
  destruct (qdrant s !! collectionName) as [c|] eqn:Hq.
  - pose proof (ensureCollection_present s) as E.
    rewrite Hq in E. specialize (E (ex_intro _ c eq_refl)).
    eapply returns_intro; [exact E|].
    rewrite (emitted_one _ _ _ _ E).
    rewrite bool_decide_eq_false_2 by done.
    assert (is_Some (qdrant (log (CallQdrant GetCollections) s) !! collectionName))
      as Hin by (simpl; rewrite Hq; eauto).
    split; [reflexivity|]. split; [exact Hin|]. apply Hsecond. exact Hin.
  - pose proof (ensureCollection_absent s Hq) as E.
    eapply returns_intro; [exact E|].
    rewrite (emitted_two _ _ _ _ _ _ E).
    rewrite bool_decide_eq_true_2 by done.
    split; [reflexivity|].
    assert (is_Some (created (qdrant s) !! collectionName)) as Hin.
    { unfold created. rewrite lookup_insert_eq. eauto. }
    split; [exact Hin|]. apply Hsecond. exact Hin.
Qed.

End QdrantFacts.

(** ** generateResponse and the chat handler *)

Module ServerFacts.
Import Redis RedisFacts RedisService RedisServiceFacts.
Import EmbeddingService QdrantService GeminiService Server.

(** A failed generation call gives the apology, not an error. *)
Lemma generateResponse_fallback env userQuery context s :
  generation_fails
    (gemini_post env (calls s) (buildRAGPrompt userQuery context)) →
  generateResponse env userQuery context s
  = (Ok fallback, log (CallGemini (buildRAGPrompt userQuery context)) s).
Proof.
  unfold generation_fails, usable_text, generateResponse.
  unfold try_catch, bind, provider_call.
  destruct (gemini_post _ _ _) as [msg|data]; [reflexivity|].
  destruct (first_text data) as [| |[]|n|t|o]; try reflexivity.
  - simpl. destruct (n =? 0); reflexivity.
  - destruct t; [reflexivity|discriminate].
Qed.

(** generateResponse never throws. *)
Lemma generateResponse_total env userQuery context s :
  returns (generateResponse env userQuery context) s
    (λ _ s', s' = log (CallGemini (buildRAGPrompt userQuery context)) s).
Proof.
  unfold returns, generateResponse, try_catch, bind, provider_call.
  destruct (gemini_post _ _ _) as [msg|data]; [reflexivity|].
  destruct (truthy (first_text data)); [|reflexivity].
  destruct (first_text data); reflexivity.
Qed.

(** The three kinds of failure named by the specification. *)
Lemma transport_error_fails msg : generation_fails (Rejected msg).
Proof. reflexivity. Qed.

Lemma malformed_reply_fails : generation_fails (Replied None).
Proof. reflexivity. Qed.

Lemma safety_block_fails :
  generation_fails
    (Replied (Some {| candidates :=
                        Some [ {| cand_content := None;
                                  finishReason := "SAFETY" |} ] |})).
Proof. reflexivity. Qed.

(** embedText returns for non-empty strings only. *)
Lemma embedText_Ok env text s v s1 :
  embedText env text s = (Ok v, s1) → ∃ t, text = JStr t ∧ truthy text = true.
Proof.
  unfold embedText, try_catch, bind.
  destruct (truthy text) eqn:Ht; simpl negb; cbv iota; [|discriminate].
  destruct text; try discriminate. eauto.
Qed.

Lemma chat_rejects_falsy svc env body s :
  truthy (sessionId body) = false ∨ truthy (message body) = false →
  chat svc env body s = (Ok rejected, s).
Proof.
  unfold chat, try_catch. intros [->| ->]; [reflexivity|].
  rewrite orb_true_r. reflexivity.
Qed.

(** C10: a chat request whose message or session id is the empty
    string is answered with status 400, and nothing else happens: no
    outbound call is logged and no store changes. *)
Theorem chat_rejects_empty_string svc env body s :
  sessionId body = JStr "" ∨ message body = JStr "" →
  returns (chat svc env body) s
    (λ res s', status res = 400 ∧ s' = s ∧ emitted (chat svc env body) s = []).
Proof.
  intros H.
  assert (chat svc env body s = (Ok rejected, s)) as E.
  { apply chat_rejects_falsy. destruct H as [-> | ->]; auto. }
  eapply returns_intro; [exact E|].
  split; [reflexivity|]. split; [reflexivity|].
  unfold emitted. rewrite E. apply drop_all.
Qed.

(** The calls before the cache write leave Redis alone. *)
Lemma keeps_ret {A} (a : A) : keeps_redis (ret a).
Proof. by intros s r s' [= _ <-]. Qed.

Lemma keeps_throw {A} msg : keeps_redis (throw (A:=A) msg).
Proof. by intros s r s' [= _ <-]. Qed.

Lemma keeps_rethrow {A} e : keeps_redis (rethrow (A:=A) e).
Proof. by intros s r s' [= _ <-]. Qed.

Lemma keeps_bind {A B} (m : M A) (k : A → M B) :
  keeps_redis m → (∀ a, keeps_redis (k a)) → keeps_redis (bind m k).
Proof.
  intros Hm Hk s r s'. unfold bind.
  destruct (m s) as [[a|e] s1] eqn:E; apply Hm in E.
  - intros E2%Hk. congruence.
  - intros [= _ <-]. exact E.
Qed.

Lemma keeps_try_catch {A} (m : M A) (h : exn → M A) :
  keeps_redis m → (∀ e, keeps_redis (h e)) → keeps_redis (try_catch m h).
Proof.
  intros Hm Hh s r s'. unfold try_catch.
  destruct (m s) as [[a|e] s1] eqn:E; apply Hm in E.
  - intros [= _ <-]. exact E.
  - intros E2%Hh. congruence.
Qed.

Lemma keeps_provider_call {B} e (answer : list event → reply B) :
  keeps_redis (provider_call e answer).
Proof.
  intros s r s'. unfold provider_call.
  destruct (answer (calls s)); by intros [= _ <-].
Qed.

Ltac frame :=
  repeat first
    [ apply keeps_ret | apply keeps_throw | apply keeps_rethrow
    | apply keeps_provider_call
    | apply keeps_bind | apply keeps_try_catch
    | match goal with
      | |- ∀ _, _ => intro
      | |- keeps_redis (if ?b then _ else _) => destruct b
      | |- keeps_redis (match ?x with _ => _ end) => destruct x
      end ].

Lemma embedText_redis env text : keeps_redis (embedText env text).
Proof. unfold embedText, post. frame. Qed.

Lemma search_redis env v k th : keeps_redis (search env v k th).
Proof. unfold search. frame. Qed.

Lemma contents_state docs s r s' : contents docs s = (r, s') → s' = s.
Proof.
  revert r s'. induction docs as [|doc docs IH]; intros r s'; simpl.
  - by intros [= _ <-].
  - destruct (hit_content doc); [|by intros [= _ <-]].
    unfold bind. destruct (contents docs s) as [[cs|e] s1];
      specialize (IH _ _ eq_refl) as ->; by intros [= _ <-].
Qed.

(** C1: when the generation call of a chat request fails, for whatever
    reason, generateResponse returns the apology instead of throwing,
    the handler answers 200 with the apology, and the history of the
    session ends with the exchange whose bot text is the apology.  The
    request is one that reaches the generation call (embedding and
    search have answered), and Redis accepts the append: the timeouts
    are positive and the history key holds a list or nothing. *)
Theorem chat_survives_failed_generation
    svc env body s v s1 docs s2 cs s3 old :
  let userText := js_to_string (message body) in
  let context := join LF2 (join_item <$> cs) in
  let hk := getHistoryKey (sessionId body) in
  0 < sessionTTL svc → 0 < historyTTL svc →
  holds (redis s) hk (Json.stringify <$> reverse old) →
  truthy (sessionId body) = true →
  embedText env (message body) s = (Ok v, s1) →
  search env v 5 default_threshold s1 = (Ok docs, s2) →
  contents docs s2 = (Ok cs, s3) →
  generation_fails
    (gemini_post env (calls s3) (buildRAGPrompt userText context)) →
  returns (generateResponse env userText context) s3
    (λ response _, response = fallback)
  ∧ returns (chat svc env body) s
      (λ res s',
         res = {| status := 200; json := ChatJson fallback (sessionId body) |}
         ∧ returns (getHistory svc (sessionId body)) s'
             (λ history _,
                ∃ now, history
                       = old ++ [ {| user := userText; bot := fallback;
                                     timestamp := now |} ])).
Proof.
  intros userText context hk Hs Hh Hold Hsid Eembed Esearch Econt Hfail.
  pose proof (generateResponse_fallback env userText context s3 Hfail) as Egen.
  split; [eapply returns_intro; [exact Egen|reflexivity]|].
  destruct (embedText_Ok _ _ _ _ _ Eembed) as (t & Hmsg & Hmt).
  pose proof (embedText_redis _ _ _ _ _ Eembed) as R1.
  pose proof (search_redis _ _ _ _ _ _ _ Esearch) as R2.
  pose proof (contents_state _ _ _ _ Econt) as ->.
  set (s4 := log (CallGemini (buildRAGPrompt userText context)) s2) in *.
  set (now := date_now env (calls s4)).
  set (m := {| user := userText; bot := fallback; timestamp := now |}).
  assert (holds (redis s4) hk (Json.stringify <$> reverse old)) as Hold4.
  { unfold s4. simpl redis. by rewrite R2, R1. }
  destruct (addMessage_ok svc env (sessionId body) m s4 _ Hs Hh Hold4)
    as (s5 & Eadd & Hfind & _).
  eapply returns_intro.
  - unfold chat, try_catch, bind. rewrite Hsid, Hmt.
    change (negb true || negb true) with false. cbv beta iota.
    rewrite Eembed, Esearch, Econt. fold userText. fold context.
    rewrite Egen. unfold toISOString. fold s4. fold now. fold m.
    rewrite Eadd. reflexivity.
  - split; [reflexivity|].
    destruct (getHistory_ok svc (sessionId body) s5 (old ++ [m]))
      as (s6 & Eh & _).
    + right. eexists. rewrite Hfind, reverse_snoc. reflexivity.
    + eapply returns_intro; [exact Eh|]. by exists now.
Qed.

(** The handler's catch-all covers the cache write too: when Redis
    refuses the append, here because the history key holds a string,
    the answer is 500 whatever the generation call did. *)
Lemma chat_answers_500_when_the_append_is_refused :
  returns (chat Sample.service Sample.gemini_down Sample.question)
    Sample.clobbered
    (λ res _, res = {| status := 500;
                       json := ErrorJson "Failed to process message" |}).
Proof. eapply returns_intro; [vm_compute; reflexivity|]. reflexivity. Qed.

End ServerFacts.

(** ** fetchFeed and fetchAllArticles *)

Module FetchFacts.
Import NewsIngestion.

Lemma advanced_nil s : advanced s [] 0 = s.
Proof.
  destruct s. unfold advanced. simpl. by rewrite app_nil_r, Nat.add_0_r.
Qed.

Lemma advanced_advanced s e1 n1 e2 n2 :
  advanced (advanced s e1 n1) e2 n2 = advanced s (e1 ++ e2) (n1 + n2).
Proof. unfold advanced. simpl. by rewrite app_assoc, Nat.add_assoc. Qed.

Lemma log_advanced e s : log e s = advanced s [e] 0.
Proof. unfold log, advanced. by rewrite Nat.add_0_r. Qed.

(** The three ways one pass can go. *)
Lemma attemptFeed_served env url retries attempt s feed :
  rss_parseURL env (calls s) url = Replied feed →
  attemptFeed env url retries attempt s
  = (Ok (Return (default [] (items feed))), advanced s [CallParseURL url] 0).
Proof.
  intros E. unfold attemptFeed, try_catch, bind, provider_call.
  rewrite E. by rewrite log_advanced.
Qed.

Lemma attemptFeed_last env url retries s msg :
  rss_parseURL env (calls s) url = Rejected msg →
  attemptFeed env url retries retries s
  = (Ok (Return []), advanced s [CallParseURL url] 0).
Proof.
  intros E. unfold attemptFeed, try_catch, bind, provider_call.
  rewrite E, Z.eqb_refl. by rewrite log_advanced.
Qed.

Lemma attemptFeed_retry env url retries attempt s msg :
  rss_parseURL env (calls s) url = Rejected msg →
  attempt ≠ retries →
  attemptFeed env url retries attempt s
  = (Ok Continue,
     advanced s [CallParseURL url; Sleep (2000 * attempt)] 0).
Proof.
  intros E Hne. unfold attemptFeed, try_catch, bind, provider_call.
  rewrite E. destruct (Z.eqb_spec attempt retries) as [|_]; [done|].
  unfold sleep. by rewrite !log_advanced, advanced_advanced.
Qed.

(** The loop, when its last pass is the one numbered [retries]. *)
Lemma fetchFeed_from_spec env url retries n :
  ∀ attempt s,
    attempt + Z.of_nat n = retries + 1 →
    ∃ its k,
      fetchFeed_from env url retries n attempt s
      = (Ok its, advanced s (backoff_trace url k attempt) 0)
      ∧ (k ≤ n)%nat ∧ (n ≠ 0%nat → k ≠ 0%nat)
      ∧ (always_fails env url → its = [] ∧ k = n)
      ∧ (∀ served, always_serves env url served → n ≠ 0%nat →
           its = served ∧ k = 1%nat).
Proof.
  induction n as [|n IH]; intros attempt s Hlast.
  - exists [], 0%nat. simpl. rewrite advanced_nil.
    split_and!; [done|done|done|by intros|by intros].
  - simpl fetchFeed_from. unfold bind.
    destruct (rss_parseURL env (calls s) url) as [msg|feed] eqn:E.
    + destruct (decide (attempt = retries)) as [->|Hne].
      * assert (n = 0%nat) as -> by lia.
        rewrite (attemptFeed_last _ _ _ _ _ E).
        exists [], 1%nat. split_and!; auto.
        intros served Hs. specialize (Hs (calls s)). congruence.
      * rewrite (attemptFeed_retry _ _ _ _ _ _ E Hne).
        destruct (IH (attempt + 1)
                    (advanced s [CallParseURL url; Sleep (2000 * attempt)] 0))
          as (its & k & Eq & Hk & Hpos & Hfail & Hserve); [lia|].
        assert (n ≠ 0%nat) as Hn by lia. specialize (Hpos Hn).
        exists its, (S k). rewrite Eq, advanced_advanced.
        destruct k as [|k]; [done|]. split_and!; auto; try lia.
        -- intros Hf. destruct (Hfail Hf) as [-> ->]. auto.
        -- intros served Hs _. specialize (Hs (calls s)). congruence.
    + rewrite (attemptFeed_served _ _ _ _ _ _ E).
      exists (default [] (items feed)), 1%nat. split_and!; auto; try lia.
      * intros Hf. destruct (Hf (calls s)) as [msg Hm]. congruence.
      * intros served Hs _. specialize (Hs (calls s)).
        rewrite Hs in E. by injection E as <-.
Qed.

(** fetchFeed never throws; it makes at most [retries] attempts with
    the waits in between, and gives [[]] when they all fail. *)
Lemma fetchFeed_spec env url retries s :
  ∃ its k,
    fetchFeed env url retries s
    = (Ok its, advanced s (backoff_trace url k 1) 0)
    ∧ Z.of_nat k ≤ Z.max 0 retries
    ∧ (always_fails env url → its = [] ∧ k = Z.to_nat retries)
    ∧ (∀ served, always_serves env url served → 0 < retries →
         its = served ∧ k = 1%nat).
Proof.
  unfold fetchFeed. destruct (Z.to_nat retries) as [|n] eqn:En.
  - exists [], 0%nat. simpl. rewrite advanced_nil.
    split_and!; [done|lia|done|]. intros. lia.
  - destruct (fetchFeed_from_spec env url retries (S n) 1 s)
      as (its & k & E & Hk & _ & Hfail & Hserve); [lia|].
    exists its, k. split_and!; [done|lia|done|].
    intros served Hs _. by apply Hserve.
Qed.

Lemma processArticle_spec this env item i s :
  ∃ a, processArticle this env item i s = (Ok a, advanced s [] 1)
       ∧ Article.id a = articleCounter s
       ∧ digest a = item_digest this env i item.
Proof.
  assert (with_counter (S (articleCounter s)) s = advanced s [] 1) as <-.
  { unfold with_counter, advanced. by rewrite app_nil_r, Nat.add_1_r. }
  unfold processArticle, bind, ret, toISOString.
  destruct (or_opt (Item.pubDate item) (Item.isoDate item));
    (eexists; split; [reflexivity|]; split; reflexivity).
Qed.

Lemma processItems_spec this env i its :
  ∀ s, ∃ arts,
    processItems this env its i s = (Ok arts, advanced s [] (length its))
    ∧ digest <$> arts = item_digest this env i <$> its
    ∧ Article.id <$> arts = seq (articleCounter s) (length its).
Proof.
  induction its as [|item its IH]; intros s.
  - exists []. simpl. by rewrite advanced_nil.
  - destruct (processArticle_spec this env item i s) as (a & Ea & Hid & Ha).
    destruct (IH (advanced s [] 1)) as (arts & Es & Hs & Hids).
    exists (a :: arts). simpl. unfold bind. rewrite Ea, Es.
    rewrite advanced_advanced. split_and!.
    + reflexivity.
    + f_equal; [exact Ha|exact Hs].
    + f_equal; [exact Hid|]. etrans; [exact Hids|].
      simpl. by rewrite Nat.add_1_r.
Qed.

(** One feed: at most ten articles, made from its first ten items. *)
Lemma fetchOne_spec this env i url s :
  ∃ arts its k,
    fetchOne this env i url s
    = (Ok arts,
       advanced s (backoff_trace url k 1 ++ [Sleep 1000]) (length arts))
    ∧ (length arts ≤ 10)%nat
    ∧ Z.of_nat k ≤ 2
    ∧ digest <$> arts = item_digest this env i <$> take 10 its
    ∧ Article.id <$> arts = seq (articleCounter s) (length arts)
    ∧ (always_fails env url → its = [])
    ∧ (∀ served, always_serves env url served → its = served).
Proof.
  destruct (fetchFeed_spec env url default_retries s)
    as (its & k & E & Hk & Hfail & Hserve).
  set (s1 := advanced s (backoff_trace url k 1) 0) in *.
  assert (∃ arts,
    (if 0 <? Z.of_nat (length its)
     then processItems this env (take 10 its) i else ret []) s1
    = (Ok arts, advanced s1 [] (length arts))
    ∧ (length arts ≤ 10)%nat
    ∧ digest <$> arts = item_digest this env i <$> take 10 its
    ∧ Article.id <$> arts = seq (articleCounter s1) (length arts))
    as (arts & Ep & Hlen & Hd & Hids).
  { destruct (0 <? Z.of_nat (length its)) eqn:Hpos.
    - destruct (processItems_spec this env i (take 10 its) s1)
        as (arts & Ep & Hd & Hids).
      assert (length arts = length (take 10 its)) as Hl.
      { rewrite <- (length_fmap digest), Hd. by rewrite length_fmap. }
      exists arts. rewrite Hl. split_and!; auto.
      rewrite length_take. lia.
    - exists []. destruct its; [|done]. simpl.
      rewrite advanced_nil. split_and!; auto. lia. }
  exists arts, its, k. split_and!; auto.
  - unfold fetchOne, bind. rewrite E. fold s1. rewrite Ep.
    unfold sleep, ret. rewrite log_advanced. unfold s1.
    rewrite !advanced_advanced. simpl. by rewrite Nat.add_0_r.
  - unfold s1 in Hids. simpl in Hids. by rewrite Nat.add_0_r in Hids.
  - intros Hf. by destruct (Hfail Hf).
  - intros served Hs. by destruct (Hserve served Hs).
Qed.

(** The loop over the feeds: never throws, and collects what the
    feeds contribute. *)
Lemma fetchAll_from_spec this env rest :
  ∀ i acc s,
    ∃ chunks evs,
      fetchAll_from this env i rest acc s
      = (Ok (acc ++ concat chunks),
         advanced s evs (length (concat chunks)))
      ∧ Forall2 (λ (_ : string) chunk, (length chunk ≤ 10)%nat) rest chunks
      ∧ (∀ served, stable env rest served →
           digest <$> concat chunks = contributions this env served i rest).
Proof.
  induction rest as [|url rest IH]; intros i acc s.
  - exists [], []. simpl. rewrite advanced_nil, app_nil_r.
    split_and!; [done|constructor|done].
  - destruct (fetchOne_spec this env i url s)
      as (arts & its & k & E & Hlen & _ & Hd & _ & Hfail & Hserve).
    destruct (IH (S i) (acc ++ arts)
                (advanced s (backoff_trace url k 1 ++ [Sleep 1000]) (length arts)))
      as (chunks & evs & Er & Hchunks & Hcontrib).
    exists (arts :: chunks). eexists. split_and!.
    + simpl. unfold bind. rewrite E, Er, advanced_advanced.
      rewrite <- app_assoc, length_app. reflexivity.
    + by constructor.
    + intros served Hst. simpl. rewrite fmap_app, Hd.
      rewrite (Hcontrib served).
      2:{ intros u Hu. apply Hst. by right. }
      f_equal. specialize (Hst url (list_elem_of_here _ _)).
      destruct (served url) as [sv|].
      * by rewrite (Hserve sv Hst).
      * by rewrite (Hfail Hst).
Qed.

Lemma fetchAllArticles_spec this env s :
  ∃ chunks evs,
    fetchAllArticles this env s
    = (Ok (take 50 (concat chunks)),
       advanced s evs (length (concat chunks)))
    ∧ Forall2 (λ (_ : string) chunk, (length chunk ≤ 10)%nat)
        (feeds this) chunks
    ∧ (∀ served, stable env (feeds this) served →
         digest <$> concat chunks
         = contributions this env served 0 (feeds this)).
Proof.
  destruct (fetchAll_from_spec this env (feeds this) 0%nat [] s)
    as (chunks & evs & E & Hc & Hd).
  exists chunks, evs. split_and!; [|done|done].
  unfold fetchAllArticles, bind. by rewrite E.
Qed.

(** C6: fetchFeed throws nothing and makes at most [retries] attempts,
    with a wait of 2000 ms times the attempt number after each failed
    attempt but the last; when every attempt fails it returns the empty
    list.  So a run over feeds that each either serve their items or
    are down on every attempt collects the first ten items of every
    feed that serves (up to the cap of fifty), the feeds that are down
    adding nothing. *)
Theorem fetchFeed_retries_then_gives_up env feedUrl retries s :
  returns (fetchFeed env feedUrl retries) s
    (λ its s',
       ∃ k, Z.of_nat k ≤ Z.max 0 retries
            ∧ s' = advanced s (backoff_trace feedUrl k 1) 0
            ∧ (always_fails env feedUrl →
               its = [] ∧ Z.of_nat k = Z.max 0 retries))
  ∧ (∀ this served,
       stable env (feeds this) served →
       returns (fetchAllArticles this env) s
         (λ articles _,
            digest <$> articles
            = take 50 (contributions this env served 0 (feeds this)))).
Proof.
  split.
  - destruct (fetchFeed_spec env feedUrl retries s)
      as (its & k & E & Hk & Hfail & _).
    eapply returns_intro; [exact E|].
    exists k. split_and!; [done|done|].
    intros Hf. destruct (Hfail Hf) as [-> ->]. split; [done|lia].
  - intros this served Hst.
    destruct (fetchAllArticles_spec this env s) as (chunks & evs & E & _ & Hd).
    eapply returns_intro; [exact E|].
    simpl. by rewrite fmap_take, (Hd served Hst).
Qed.


End FetchFacts.

(** ** ingestArticles: pairing a batch with its embeddings *)

Module BatchFacts.
Import EmbeddingService EmbeddingFacts NewsIngestion.

Lemma filter_all_text (l : list string) :
  Forall (λ t, blank t = false) l →
  filter (λ text, Is_true (has_text text)) l = l.
Proof.
  induction 1 as [|t l Ht _ IH]; [done|].
  rewrite filter_cons_True; [by rewrite IH|].
  rewrite has_text_blank, Ht. done.
Qed.

Lemma embedBatch_replied env texts s embeddings :
  filter (λ text, Is_true (has_text text)) texts ≠ [] →
  jina_post env (calls s) model (filter (λ text, Is_true (has_text text)) texts)
  = Replied (Some embeddings) →
  embedBatch env (Some texts) s
  = (Ok embeddings,
     log (CallJina model (filter (λ text, Is_true (has_text text)) texts)) s).
Proof.
  intros Hne E. destruct texts as [|t l]; [done|].
  unfold embedBatch, try_catch, bind. cbv beta iota zeta.
  destruct (filter _ (t :: l)) as [|v vs]; [done|].
  change (Z.of_nat (length (v :: vs)) =? 0) with false. cbv beta iota.
  unfold post, provider_call. by rewrite E.
Qed.

(** The inner loop pairs [rest[j]] with [embeddings[j0 + j]]. *)
Lemma pairUp_spec env embeddings rest :
  ∀ j0 s,
    ∃ docs,
      pairUp env rest embeddings j0 s = (Ok docs, s)
      ∧ length docs = length rest
      ∧ ∀ j a, rest !! j = Some a →
          ∃ d, docs !! j = Some d
               ∧ Document.id d = Article.id a
               ∧ Document.vector d = mjoin (embeddings !! (j0 + j)%nat).
Proof.
  induction rest as [|a rest IH]; intros j0 s.
  - exists []. split_and!; [done|done|]. intros j a. by rewrite lookup_nil.
  - destruct (IH (S j0) s) as (docs & E & Hlen & Hdocs).
    eexists (_ :: docs). split_and!.
    + simpl. unfold bind, makeDocument, bind, toISOString, ret.
      rewrite E. reflexivity.
    + simpl. by rewrite Hlen.
    + intros [|j] a'; simpl.
      * intros [= <-]. eexists. split; [reflexivity|].
        simpl. by rewrite Nat.add_0_r.
      * intros Ha. destruct (Hdocs j a' Ha) as (d & Hd & Hid & Hv).
        exists d. split_and!; [done|done|].
        rewrite Hv. by rewrite Nat.add_succ_r.
Qed.

(** Whatever the batch, document [j] carries [embeddings[j]]. *)
Lemma embedDocuments_positional env batch s embeddings :
  filter (λ text, Is_true (has_text text)) (Article.content <$> batch) ≠ [] →
  jina_post env (calls s) model
    (filter (λ text, Is_true (has_text text)) (Article.content <$> batch))
  = Replied (Some embeddings) →
  ∃ docs s',
    embedDocuments env batch s = (Ok docs, s')
    ∧ length docs = length batch
    ∧ ∀ j a, batch !! j = Some a →
        ∃ d, docs !! j = Some d
             ∧ Document.id d = Article.id a
             ∧ Document.vector d = mjoin (embeddings !! j).
Proof.
  intros Hne E.
  pose proof (embedBatch_replied env _ s embeddings Hne E) as Eb.
  destruct (pairUp_spec env embeddings batch 0%nat
              (log (CallJina model
                      (filter (λ text, Is_true (has_text text))
                         (Article.content <$> batch))) s))
    as (docs & Ep & Hlen & Hdocs).
  exists docs. eexists. split_and!; [|done|done].
  unfold embedDocuments, bind. rewrite Eb. exact Ep.
Qed.

(** With a blank content in the batch the pairing goes wrong: the
    first document gets the vector of the second article and the second
    document gets none. *)
Lemma embedDocuments_misaligned :
  returns (embedDocuments Sample.echoing Sample.gapped_batch) Sample.start
    (λ docs _,
       Document.vector <$> docs = [Sample.marker "second"; None]
       ∧ Document.vector <$> docs
         ≠ (λ a, Sample.marker (Article.content a)) <$> Sample.gapped_batch).
Proof.
  eapply returns_intro; [vm_compute; reflexivity|].
  split; [reflexivity|]. simpl. intros [= _ H]. 
Qed.

(** C3: when every content of a batch has text, and the provider
    answers with one embedding per text in the order sent, the document
    built for the j-th article carries the j-th embedding that
    embedBatch returns, which is the embedding of that article's own
    content.  Without the precondition this fails, as the batch
    [gapped_batch] shows: embedBatch drops the blank text and the
    documents are still paired by position. *)
Theorem embedDocuments_aligned env batch s embedding_of :
  (batch ≠ [] →
   Forall (λ a, blank (Article.content a) = false) batch →
   jina_post env (calls s) model (Article.content <$> batch)
   = Replied (Some (embedding_of <$> (Article.content <$> batch))) →
   returns (embedBatch env (Some (Article.content <$> batch))) s
     (λ embeddings _,
        returns (embedDocuments env batch) s
          (λ docs _,
             length docs = length batch
             ∧ ∀ j a, batch !! j = Some a →
                 ∃ d, docs !! j = Some d
                      ∧ Document.id d = Article.id a
                      ∧ Document.vector d = mjoin (embeddings !! j)
                      ∧ Document.vector d
                        = embedding_of (Article.content a))))
  ∧ returns (embedDocuments Sample.echoing Sample.gapped_batch) Sample.start
      (λ docs _,
         Document.vector <$> docs
         ≠ (λ a, Sample.marker (Article.content a)) <$> Sample.gapped_batch).
Proof.
  split.
  - intros Hne Hall E.
    assert (filter (λ text, Is_true (has_text text)) (Article.content <$> batch)
            = Article.content <$> batch) as Hf.
    { apply filter_all_text. by apply Forall_fmap. }
    assert (Article.content <$> batch ≠ []) as Hne' by (by destruct batch).
    rewrite <- Hf in E at 1. rewrite <- Hf in Hne'.
    pose proof (embedBatch_replied env _ s _ Hne' E) as Eb.
    destruct (embedDocuments_positional env batch s _ Hne' E)
      as (docs & s' & Ed & Hlen & Hdocs).
    eapply returns_intro; [exact Eb|].
    eapply returns_intro; [exact Ed|]. split; [exact Hlen|].
    intros j a Ha. destruct (Hdocs j a Ha) as (d & Hd & Hid & Hv).
    exists d. split_and!; [done|done|done|].
    rewrite Hv, !list_lookup_fmap, Ha. reflexivity.
  - eapply returns_weaken; [exact embedDocuments_misaligned|].
    by intros docs _ [_ H].
Qed.

Lemma ingest_from_S env articles n i documents :
  ingest_from env articles (S n) i documents
  = (if Z.of_nat i <? Z.of_nat (length articles)
     then
       let batch := take batchSize (drop i articles) in
       let* pushed :=
         try_catch
           (let* ds := embedDocuments env batch in ret (Some ds))
           (λ error, ret None) in
       match pushed with
       | Some ds =>
           sleep 2000 ;;
           ingest_from env articles n (i + batchSize) (documents ++ ds)
       | None => ingest_from env articles n (i + batchSize) documents
       end
     else ret documents).
Proof. reflexivity. Qed.

(** The bound on the passes of the batch loop is never what ends it. *)
Lemma ingest_from_enough env articles n :
  ∀ i documents s,
    (length articles ≤ i + batchSize * n)%nat →
    ingest_from env articles (S n) i documents s
    = ingest_from env articles n i documents s.
Proof.
  induction n as [|n IH]; intros i documents s Hlen.
  - simpl. destruct (Z.ltb_spec (Z.of_nat i) (Z.of_nat (length articles)));
      [unfold batchSize in *; lia|done].
  - rewrite (ingest_from_S env articles (S n) i documents).
    rewrite (ingest_from_S env articles n i documents).
    destruct (Z.of_nat i <? Z.of_nat (length articles)); [|done].
    cbv zeta. unfold bind.
    destruct (try_catch _ _ s) as [[[ds|]|e] s1]; [| |done].
    + unfold sleep. apply IH. unfold batchSize in *. lia.
    + apply IH. unfold batchSize in *. lia.
Qed.

End BatchFacts.

(** ** RedisService: the other methods *)

Module SessionFacts.
Import Redis RedisFacts RedisService RedisServiceFacts.

Lemma find_remove k k' r :
  find (remove k r) k' = if decide (k = k') then None else find r k'.
Proof.
  unfold find, remove. simpl. rewrite lookup_delete.
  destruct (decide (k = k')); reflexivity.
Qed.

Lemma find_put k k' e r :
  find (put k e r) k'
  = if decide (k = k')
    then (if expired (clock r) e then None else Some e)
    else find r k'.
Proof.
  destruct (decide (k = k')) as [->|Hne].
  - apply find_put_eq.
  - by apply find_put_ne.
Qed.

Lemma find_elapse d r k :
  find (elapse d r) k
  = match keyspace r !! k with
    | Some e => if expired (clock r + d) e then None else Some e
    | None => None
    end.
Proof. reflexivity. Qed.

Lemma redis_with_redis r s : redis (with_redis r s) = r.
Proof. reflexivity. Qed.

Lemma session_keys_differ a b : getSessionKey a ≠ getHistoryKey b.
Proof. apply not_eq_sym, keys_differ. Qed.

Lemma history_key_inj a b :
  getHistoryKey a = getHistoryKey b → js_to_string a = js_to_string b.
Proof. unfold getHistoryKey. apply String.app_inj. Qed.

Lemma session_key_inj a b :
  getSessionKey a = getSessionKey b → js_to_string a = js_to_string b.
Proof. unfold getSessionKey. apply String.app_inj. Qed.

(** The state an append leaves, in full. *)
Lemma addMessage_run this env sid m s l :
  0 < sessionTTL this → 0 < historyTTL this →
  holds (redis s) (getHistoryKey sid) l →
  ∃ d0, addMessage this env sid m s
        = (Ok true, after_append this env sid m l d0 s).
Proof.
  intros Hs Hh Hl.
  set (hk := getHistoryKey sid). set (x := Json.stringify m).
  assert (∃ d r1,
    lPush hk x (redis s) = (inr d.1, r1)
    ∧ r1 = put hk {| held := VList (x :: l); deadline := d.2 |} (redis s)
    ∧ find r1 hk = Some {| held := VList (x :: l); deadline := d.2 |})
    as (d & r1 & Hpush & Hr1 & Hfind1).
  { destruct Hl as [[Hnone ->]|[d Hsome]].
    - exists (1, None). eexists. split; [by apply lPush_fresh|].
      split; [reflexivity|]. by rewrite find_put_eq.
    - exists (Z.of_nat (length l) + 1, d). eexists.
      split; [by apply lPush_list|]. split; [reflexivity|].
      rewrite find_put_eq. apply find_Some in Hsome as [_ He].
      unfold expired in *. simpl in *. by rewrite He. }
  assert (clock r1 = clock (redis s)) as Hc1 by (by rewrite Hr1).
  pose proof (expire_live r1 hk _ (historyTTL this) Hfind1 Hh) as Hexp.
  simpl held in Hexp. rewrite Hc1 in Hexp.
  exists d.2.
  unfold addMessage, try_catch, bind, redis_call, toISOString, ret.
  fold hk. fold x. simpl redis. rewrite Hpush. simpl redis.
  rewrite Hexp. simpl redis.
  rewrite (setEX_ok _ _ _ _ Hs). rewrite Hr1. reflexivity.
Qed.

Lemma after_append_history this env sid m l d0 s :
  0 < historyTTL this →
  find (redis (after_append this env sid m l d0 s)) (getHistoryKey sid)
  = Some {| held := VList (Json.stringify m :: l);
            deadline := Some (clock (redis s) + historyTTL this) |}.
Proof.
  intros Hh. unfold after_append. simpl redis.
  rewrite find_put_ne by apply session_keys_differ.
  rewrite find_put_eq. unfold expired. simpl.
  destruct (Z.leb_spec (clock (redis s) + historyTTL this) (clock (redis s)));
    [lia|done].
Qed.

Lemma after_append_session this env sid m l d0 s :
  ∃ now,
    keyspace (redis (after_append this env sid m l d0 s)) !! getSessionKey sid
    = Some {| held := VString now;
              deadline := Some (clock (redis s) + sessionTTL this) |}.
Proof.
  eexists. unfold after_append. simpl. by rewrite lookup_insert_eq.
Qed.

Lemma after_append_history_key this env sid m l d0 s :
  keyspace (redis (after_append this env sid m l d0 s)) !! getHistoryKey sid
  = Some {| held := VList (Json.stringify m :: l);
            deadline := Some (clock (redis s) + historyTTL this) |}.
Proof.
  unfold after_append. simpl.
  rewrite lookup_insert_ne by apply session_keys_differ.
  by rewrite lookup_insert_eq.
Qed.

Lemma after_append_clock this env sid m l d0 s :
  clock (redis (after_append this env sid m l d0 s)) = clock (redis s).
Proof. reflexivity. Qed.

Lemma clearSession_run this sid s :
  clearSession this sid s
  = (Ok true,
     with_redis (remove (getSessionKey sid) (remove (getHistoryKey sid) (redis s)))
       (log (CallRedis (DEL [getHistoryKey sid; getSessionKey sid])) s)).
Proof.
  unfold clearSession, try_catch, bind, redis_call. simpl.
  reflexivity.
Qed.

Lemma sessionExists_run this sid s :
  sessionExists this sid s
  = (Ok (bool_decide (is_Some (find (redis s) (getSessionKey sid)))),
     log (CallRedis (EXISTS (getSessionKey sid))) s).
Proof.
  unfold sessionExists, try_catch, bind, redis_call, exists_, ret.
  destruct (find (redis s) (getSessionKey sid)) as [e|].
  - rewrite bool_decide_eq_true_2 by eauto. by destruct s.
  - rewrite bool_decide_eq_false_2 by (by intros [? ?]). by destruct s.
Qed.

(** Both commands are sent; the answer is [null] unless both reply. *)
Lemma getSessionInfo_run this sid s :
  getSessionInfo this sid s
  = (Ok (match (get (getSessionKey sid) (redis s)).1,
               (lLen (getHistoryKey sid) (redis s)).1 with
         | inr ts, inr n =>
             Some {| info_sessionId := sid; lastActivity := ts;
                     messageCount := n |}
         | _, _ => None
         end),
     log (CallRedis (LLEN (getHistoryKey sid)))
       (log (CallRedis (GET (getSessionKey sid))) s)).
Proof.
  unfold getSessionInfo, try_catch, bind, promise_all2, redis_call, get, lLen.
  destruct (find (redis s) (getSessionKey sid)) as [[[v|l] d]|];
    simpl redis;
    destruct (find (redis s) (getHistoryKey sid)) as [[[v'|l'] d']|];
    by destruct s.
Qed.

Lemma getSessionInfo_unknown this sid s :
  find (redis s) (getSessionKey sid) = None →
  find (redis s) (getHistoryKey sid) = None →
  getSessionInfo this sid s
  = (Ok (Some {| info_sessionId := sid; lastActivity := None;
                 messageCount := 0 |}),
     log (CallRedis (LLEN (getHistoryKey sid)))
       (log (CallRedis (GET (getSessionKey sid))) s)).
Proof.
  intros Hs Hh. rewrite getSessionInfo_run. unfold get, lLen.
  by rewrite Hs, Hh.
Qed.

(** X1: clearSession always succeeds and forgets the session: right
    after it getHistory returns the empty list, sessionExists says no,
    getSessionInfo shows no activity and no message, and clearing again
    succeeds as well. *)
Theorem clearSession_forgets_the_session this sid s :
  returns (clearSession this sid) s
    (λ ok s1,
       ok = true
       ∧ returns (getHistory this sid) s1 (λ history _, history = [])
       ∧ returns (sessionExists this sid) s1 (λ found _, found = false)
       ∧ returns (getSessionInfo this sid) s1
           (λ info _,
              info = Some {| info_sessionId := sid; lastActivity := None;
                             messageCount := 0 |})
       ∧ returns (clearSession this sid) s1 (λ again _, again = true)).
Proof.
  eapply returns_intro; [apply clearSession_run|].
  set (s1 := with_redis _ _).
  assert (find (redis s1) (getHistoryKey sid) = None) as Hh.
  { unfold s1. simpl redis. rewrite !find_remove.
    destruct (decide (getSessionKey sid = getHistoryKey sid)); [done|].
    by rewrite decide_True. }
  assert (find (redis s1) (getSessionKey sid) = None) as Hs.
  { unfold s1. simpl redis. rewrite find_remove. by rewrite decide_True. }
  split_and!.
  - reflexivity.
  - destruct (getHistory_ok this sid s1 []) as (s2 & E & _); [by left|].
    eapply returns_intro; [exact E|reflexivity].
  - eapply returns_intro; [apply sessionExists_run|].
    rewrite Hs. apply bool_decide_eq_false_2. by intros [? ?].
  - eapply returns_intro; [by apply getSessionInfo_unknown|reflexivity].
  - eapply returns_intro; [apply clearSession_run|reflexivity].
Qed.

(** X2: a session that was never written does not exist; after an
    append it exists for as long as the wait since then is shorter than
    the session timeout, and no longer. *)
Theorem sessionExists_until_the_session_timeout this env sid m s l d :
  (never_existed (redis s) (getSessionKey sid) →
   returns (sessionExists this sid) s (λ found _, found = false))
  ∧ (0 < sessionTTL this → 0 < historyTTL this →
     holds (redis s) (getHistoryKey sid) l →
     returns (addMessage this env sid m ;; pass d ;; sessionExists this sid) s
       (λ found _, found = bool_decide (d < sessionTTL this))).
Proof.
  split.
  - intros Hn. eapply returns_intro; [apply sessionExists_run|].
    unfold find. rewrite Hn. apply bool_decide_eq_false_2. by intros [? ?].
  - intros Hs Hh Hl.
    destruct (addMessage_run this env sid m s l Hs Hh Hl) as (d0 & E).
    destruct (after_append_session this env sid m l d0 s) as (now & Hk).
    eapply returns_intro.
    + unfold bind, pass. rewrite E. apply sessionExists_run.
    + rewrite redis_with_redis, find_elapse, Hk, after_append_clock.
      unfold expired. simpl.
      destruct (Z.leb_spec (clock (redis s) + sessionTTL this)
                  (clock (redis s) + d)).
      * rewrite bool_decide_eq_false_2 by (by intros [? ?]).
        symmetry. apply bool_decide_eq_false_2. lia.
      * rewrite bool_decide_eq_true_2 by eauto.
        symmetry. apply bool_decide_eq_true_2. lia.
Qed.

Lemma after_append_session_key this env sid m l d0 s :
  keyspace (redis (after_append this env sid m l d0 s)) !! getSessionKey sid
  = Some {| held :=
              VString
                (date_now env
                   (calls s
                    ++ [ CallRedis (LPUSH (getHistoryKey sid) (Json.stringify m));
                         CallRedis (EXPIRE (getHistoryKey sid)
                                      (historyTTL this)) ]));
            deadline := Some (clock (redis s) + sessionTTL this) |}.
Proof.
  unfold after_append. simpl. rewrite lookup_insert_eq.
  by rewrite <- app_assoc.
Qed.

(** X3: after an append and a wait, getSessionInfo reports as last
    activity the date the append wrote -- the one read after its LPUSH
    and EXPIRE -- for as long as the session timeout has not passed,
    and the number of stored messages for as long as the history
    timeout has not passed: the two run out independently. *)
Theorem getSessionInfo_after_an_append this env sid m s l d :
  0 < sessionTTL this → 0 < historyTTL this →
  holds (redis s) (getHistoryKey sid) l →
  returns (addMessage this env sid m ;; pass d ;; getSessionInfo this sid) s
    (λ info _,
       info = Some {| info_sessionId := sid;
                      lastActivity :=
                        if bool_decide (d < sessionTTL this)
                        then Some
                               (date_now env
                                  (calls s
                                   ++ [ CallRedis
                                          (LPUSH (getHistoryKey sid)
                                             (Json.stringify m));
                                        CallRedis
                                          (EXPIRE (getHistoryKey sid)
                                             (historyTTL this)) ]))
                        else None;
                      messageCount :=
                        if bool_decide (d < historyTTL this)
                        then Z.of_nat (S (length l)) else 0 |}).
Proof.
  intros Hs Hh Hl.
  destruct (addMessage_run this env sid m s l Hs Hh Hl) as (d0 & E).
  pose proof (after_append_session_key this env sid m l d0 s) as Hk.
  pose proof (after_append_history_key this env sid m l d0 s) as Hhk.
  unfold returns, bind, pass. rewrite E, getSessionInfo_run.
  unfold get, lLen.
  rewrite !redis_with_redis, !find_elapse, Hk, Hhk, after_append_clock.
  unfold expired. simpl deadline. cbv beta iota.
  repeat match goal with
         | |- context [?a <=? ?b] => destruct (Z.leb_spec a b)
         end;
    simpl; repeat case_bool_decide; try lia; reflexivity.
Qed.

Lemma emitted_two_logs {A} (m : M A) s o e1 e2 :
  m s = (o, log e2 (log e1 s)) → emitted m s = [e1; e2].
Proof.
  unfold emitted. intros ->. simpl. rewrite <- app_assoc.
  by rewrite drop_app_length.
Qed.

(** X4: getSessionInfo throws nothing and always sends both of its
    commands; it answers null exactly when Redis refuses one of them,
    which is when the session key holds a list or the history key holds
    a string. *)
Theorem getSessionInfo_is_null_on_a_refusal this sid s :
  returns (getSessionInfo this sid) s
    (λ info s',
       emitted (getSessionInfo this sid) s
       = [ CallRedis (GET (getSessionKey sid));
           CallRedis (LLEN (getHistoryKey sid)) ]
       ∧ redis s' = redis s
       ∧ (info = None
          ↔ holds_a_list (redis s) (getSessionKey sid)
            ∨ holds_a_string (redis s) (getHistoryKey sid))).
Proof.
  eapply returns_intro; [apply getSessionInfo_run|].
  split_and!.
  - eapply emitted_two_logs. apply getSessionInfo_run.
  - reflexivity.
  - unfold get, lLen, holds_a_list, holds_a_string.
    destruct (find (redis s) (getSessionKey sid)) as [[[v|l] d]|];
      destruct (find (redis s) (getHistoryKey sid)) as [[[v'|l'] d']|];
      simpl; split; try done; try (intros _; eauto; fail).
    all: intros [(? & ? & [=])|(? & ? & [=])].
Qed.

(** *** Which keys a method touches *)

Lemma only_ret {A} keys (a : A) : only_touches keys (ret a).
Proof. by intros s k _. Qed.

Lemma only_rethrow {A} keys e : only_touches keys (rethrow (A:=A) e).
Proof. by intros s k _. Qed.

Lemma only_toISOString keys env : only_touches keys (toISOString env).
Proof. by intros s k _. Qed.

Lemma only_bind {A B} keys (m : M A) (f : A → M B) :
  only_touches keys m → (∀ a, only_touches keys (f a)) →
  only_touches keys (bind m f).
Proof.
  intros Hm Hf s k Hk. unfold bind. specialize (Hm s k Hk).
  destruct (m s) as [[a|e] s1]; simpl in *; [|done].
  by rewrite (Hf a s1 k Hk).
Qed.

Lemma only_try_catch {A} keys (m : M A) (h : exn → M A) :
  only_touches keys m → (∀ e, only_touches keys (h e)) →
  only_touches keys (try_catch m h).
Proof.
  intros Hm Hh s k Hk. unfold try_catch. specialize (Hm s k Hk).
  destruct (m s) as [[a|e] s1]; simpl in *; [done|].
  by rewrite (Hh e s1 k Hk).
Qed.

Lemma only_redis_call {A} keys c (run : Redis.t → Redis.result A) :
  (∀ r k, k ∉ keys → find (run r).2 k = find r k) →
  only_touches keys (redis_call c run).
Proof.
  intros Hrun s k Hk. unfold redis_call. specialize (Hrun (redis s) k Hk).
  by destruct (run (redis s)) as [[msg|a] r'].
Qed.

Lemma lPush_only key x r k : k ≠ key → find (lPush key x r).2 k = find r k.
Proof.
  intros Hk. unfold lPush.
  destruct (find r key) as [[[v|l] d]|]; simpl; [done| |];
    by rewrite find_put_ne.
Qed.

Lemma expire_only key ttl r k : k ≠ key → find (expire key ttl r).2 k = find r k.
Proof.
  intros Hk. unfold expire. destruct (find r key) as [e|]; [|done].
  destruct (ttl <=? 0); simpl.
  - rewrite find_remove. by rewrite decide_False.
  - by rewrite find_put_ne.
Qed.

Lemma setEX_only key v ttl r k : k ≠ key → find (setEX key v ttl r).2 k = find r k.
Proof.
  intros Hk. unfold setEX. destruct (ttl <=? 0); simpl; [done|].
  by rewrite find_put_ne.
Qed.

Lemma addMessage_only this env sid m :
  only_touches [getHistoryKey sid; getSessionKey sid]
    (addMessage this env sid m).
Proof.
  unfold addMessage.
  repeat first
    [ apply only_try_catch | apply only_bind | apply only_ret
    | apply only_rethrow | apply only_toISOString
    | match goal with |- ∀ _, _ => intro end ].
  - apply only_redis_call. intros r k Hk. apply lPush_only. set_solver.
  - apply only_redis_call. intros r k Hk. apply expire_only. set_solver.
  - apply only_redis_call. intros r k Hk. apply setEX_only. set_solver.
Qed.

Lemma clearSession_only this sid :
  only_touches [getHistoryKey sid; getSessionKey sid] (clearSession this sid).
Proof.
  intros s k Hk. rewrite clearSession_run. simpl redis.
  rewrite !find_remove.
  rewrite decide_False by set_solver. rewrite decide_False by set_solver.
  reflexivity.
Qed.

(** What getHistory and sessionExists answer depends on their own key
    only. *)
Lemma parse_each_pure l : ∃ o, ∀ s, parse_each l s = (o, s).
Proof.
  induction l as [|x l [o IH]]; [by exists (Ok [])|]. simpl.
  destruct (Json.parse x) as [m|]; [|by eexists].
  unfold bind. destruct o as [ms|e]; eexists; intros s; by rewrite IH.
Qed.

Lemma getHistory_verdict this sid s1 s2 :
  find (redis s1) (getHistoryKey sid) = find (redis s2) (getHistoryKey sid) →
  verdict (getHistory this sid) s1 = verdict (getHistory this sid) s2.
Proof.
  intros Hf. unfold verdict, getHistory, try_catch, bind, redis_call, lRange.
  rewrite Hf.
  destruct (find (redis s2) (getHistoryKey sid)) as [[[v|l] d]|]; simpl;
    try reflexivity.
  - destruct (parse_each_pure (reverse (range l 0 (-1)))) as [o Ho].
    rewrite !Ho. by destruct o.
Qed.

Lemma sessionExists_verdict this sid s1 s2 :
  find (redis s1) (getSessionKey sid) = find (redis s2) (getSessionKey sid) →
  verdict (sessionExists this sid) s1 = verdict (sessionExists this sid) s2.
Proof.
  intros Hf. unfold verdict. rewrite !sessionExists_run.
  cbn [fst]. by rewrite Hf.
Qed.

(** X5: sessions do not interfere.  For two session ids that print
    differently (numbers being safe integers, which print in plain
    decimal), appending to one or clearing it, whether that succeeds
    or not, changes neither the history getHistory returns for the
    other nor whether the other exists. *)
Theorem sessions_do_not_interfere this env a b m s :
  printable a → printable b →
  js_to_string a ≠ js_to_string b →
  verdict (getHistory this b) (addMessage this env a m s).2
  = verdict (getHistory this b) s
  ∧ verdict (sessionExists this b) (addMessage this env a m s).2
    = verdict (sessionExists this b) s
  ∧ verdict (getHistory this b) (clearSession this a s).2
    = verdict (getHistory this b) s
  ∧ verdict (sessionExists this b) (clearSession this a s).2
    = verdict (sessionExists this b) s.
Proof.
  intros _ _ Hab.
  assert (getHistoryKey b ∉ [getHistoryKey a; getSessionKey a]) as Hh.
  { intros [E|[E|E]%elem_of_cons]%elem_of_cons.
    - apply Hab. symmetry. by apply history_key_inj.
    - by apply keys_differ in E.
    - by apply elem_of_nil in E. }
  assert (getSessionKey b ∉ [getHistoryKey a; getSessionKey a]) as Hs.
  { intros [E|[E|E]%elem_of_cons]%elem_of_cons.
    - by apply session_keys_differ in E.
    - apply Hab. symmetry. by apply session_key_inj.
    - by apply elem_of_nil in E. }
  split_and!.
  - apply getHistory_verdict. by apply addMessage_only.
  - apply sessionExists_verdict. by apply addMessage_only.
  - apply getHistory_verdict. by apply clearSession_only.
  - apply sessionExists_verdict. by apply clearSession_only.
Qed.

(** X6: the two writes of an append are not atomic.  When the session
    timeout is not positive Redis refuses the SET, addMessage throws,
    and the message is in the history all the same. *)
Theorem addMessage_fails_after_the_push this env sid m s l :
  sessionTTL this ≤ 0 → 0 < historyTTL this →
  holds (redis s) (getHistoryKey sid) l →
  raises (addMessage this env sid m) s
    (λ _ s', stored (redis s') (getHistoryKey sid) = Json.stringify m :: l).
Proof.
  intros Hs Hh Hl.
  set (hk := getHistoryKey sid). set (x := Json.stringify m).
  assert (∃ d r1,
    lPush hk x (redis s) = (inr d.1, r1)
    ∧ clock r1 = clock (redis s)
    ∧ find r1 hk = Some {| held := VList (x :: l); deadline := d.2 |})
    as (d & r1 & Hpush & Hc1 & Hfind1).
  { destruct Hl as [[Hnone ->]|[d Hsome]].
    - exists (1, None). eexists. split; [by apply lPush_fresh|].
      split; [reflexivity|]. by rewrite find_put_eq.
    - exists (Z.of_nat (length l) + 1, d). eexists.
      split; [by apply lPush_list|]. split; [reflexivity|].
      rewrite find_put_eq. apply find_Some in Hsome as [_ He].
      unfold expired in *. simpl in *. by rewrite He. }
  pose proof (expire_live r1 hk _ (historyTTL this) Hfind1 Hh) as Hexp.
  simpl held in Hexp.
  eapply raises_intro.
  - unfold addMessage, try_catch, bind, redis_call, toISOString, ret.
    fold hk. fold x. simpl redis. rewrite Hpush. simpl redis.
    rewrite Hexp. simpl redis. unfold setEX.
    destruct (Z.leb_spec (sessionTTL this) 0); [|lia]. reflexivity.
  - unfold stored. simpl redis.
    rewrite find_put_eq. unfold expired. simpl.
    destruct (Z.leb_spec (clock r1 + historyTTL this) (clock r1)); [lia|done].
Qed.

End SessionFacts.

(** ** EmbeddingService and GeminiService: the other methods *)

Module ProviderFacts.
Import EmbeddingService GeminiService.

Lemma text_is_truthy t : blank t = false → truthy (JStr t) = true.
Proof.
  intros Hb. pose proof (has_text_blank t) as H. rewrite Hb in H.
  unfold has_text in H. simpl in *. by apply andb_true_iff in H as [? _].
Qed.

Lemma text_has_length t : blank t = false → (strlen (trim t) =? 0) = false.
Proof.
  intros Hb. pose proof (has_text_blank t) as H. rewrite Hb in H.
  unfold has_text in H. apply andb_true_iff in H as [_ H].
  apply Z.ltb_lt in H. apply Z.eqb_neq. lia.
Qed.

(** embedText on a string with text: one request, with the trimmed
    text, and the first item of the reply. *)
Lemma embedText_run env t s :
  blank t = false →
  embedText env (JStr t) s
  = (match jina_post env (calls s) model [trim t] with
     | Replied (Some (first :: _)) => Ok first
     | Replied _ =>
         Throw (Error ("Failed to generate embedding: "
                       +:+ "Invalid response format from Jina API"))
     | Rejected msg =>
         Throw (Error ("Failed to generate embedding: " +:+ msg))
     end,
     log (CallJina model [trim t]) s).
Proof.
  intros Hb. unfold embedText, try_catch, bind, post, provider_call.
  rewrite (text_is_truthy t Hb). cbn [negb]. rewrite (text_has_length t Hb).
  unfold ret.
  destruct (jina_post env (calls s) model [trim t]) as [msg|[[|first rest]|]];
    reflexivity.
Qed.

(** embedText stops before the request for anything but a string with
    text. *)
Lemma embedText_refuses env text s :
  match text with JStr t => blank t = true | _ => True end →
  ∃ why,
    embedText env text s
    = (Throw (Error ("Failed to generate embedding: " +:+ why)), s).
Proof.
  intros Hbad. unfold embedText, try_catch, bind.
  destruct text as [| |[]|n|t|o]; try (by eexists).
  - simpl. destruct (n =? 0); by eexists.
  - destruct (truthy (JStr t)) eqn:Ht; cbn [negb]; [|by eexists].
    rewrite (trim_blank t Hbad). by eexists.
Qed.

(** X7: embedText refuses, before any request, a value that is not a
    string and a string that is empty or white space only; for a string
    with text its one request carries the trimmed text, and it returns
    the first embedding of the reply. *)
Theorem embedText_trims_and_guards env text s :
  (match text with JStr t => blank t = true | _ => True end →
   raises (embedText env text) s
     (λ e s',
        s' = s
        ∧ ∃ why, error_message e = "Failed to generate embedding: " +:+ why))
  ∧ (∀ t, text = JStr t → blank t = false →
       emitted (embedText env text) s = [CallJina model [trim t]]
       ∧ ∀ first rest,
           jina_post env (calls s) model [trim t]
           = Replied (Some (first :: rest)) →
           returns (embedText env text) s (λ v _, v = first)).
Proof.
  split.
  - intros Hbad. destruct (embedText_refuses env text s Hbad) as [why E].
    eapply raises_intro; [exact E|]. split; [reflexivity|by exists why].
  - intros t -> Hb. pose proof (embedText_run env t s Hb) as E. split.
    + unfold emitted. rewrite E. simpl. by rewrite drop_app_length.
    + intros first rest Hr. rewrite Hr in E.
      eapply returns_intro; [exact E|reflexivity].
Qed.

(** X8: getEmbeddingDimensions and validateApiKey throw nothing and
    send one request for the text "test": the first gives the length
    of the first embedding, and 768 when the request fails, the reply
    is empty or its first item has no embedding; the second tells
    whether the reply has an item at all. *)
Theorem embedding_probes_never_throw env s :
  returns (getEmbeddingDimensions env) s
    (λ n s',
       s' = log (CallJina model ["test"]) s
       ∧ n = match jina_post env (calls s) model ["test"] with
             | Replied (Some (Some v :: _)) => Z.of_nat (length v)
             | _ => 768
             end)
  ∧ returns (EmbeddingService.validateApiKey env) s
      (λ ok s',
         s' = log (CallJina model ["test"]) s
         ∧ ok = match jina_post env (calls s) model ["test"] with
                | Replied (Some (_ :: _)) => true
                | _ => false
                end).
Proof.
  pose proof (embedText_run env "test" s eq_refl) as E.
  change (trim "test") with "test" in E.
  split.
  - unfold returns, getEmbeddingDimensions, try_catch, bind. rewrite E.
    destruct (jina_post env (calls s) model ["test"])
      as [msg|[[|[v|] rest]|]]; by split.
  - unfold returns, EmbeddingService.validateApiKey, try_catch, bind.
    rewrite E.
    destruct (jina_post env (calls s) model ["test"])
      as [msg|[[|first rest]|]]; by split.
Qed.

(** What generateResponse and generateSimpleResponse do with the reply. *)
Lemma generateResponse_run env userQuery context s :
  generateResponse env userQuery context s
  = (Ok match usable_text
                (gemini_post env (calls s) (buildRAGPrompt userQuery context))
        with
        | Some t => trim t
        | None => fallback
        end,
     log (CallGemini (buildRAGPrompt userQuery context)) s).
Proof.
  unfold usable_text, generateResponse, try_catch, bind, provider_call.
  destruct (gemini_post _ _ _) as [msg|data]; [reflexivity|].
  destruct (first_text data) as [| |[]|n|t|o]; try reflexivity.
  - simpl. destruct (n =? 0); reflexivity.
  - by destruct t.
Qed.

Lemma generateSimpleResponse_run env text s :
  ∃ o,
    generateSimpleResponse env text s = (o, log (CallGemini text) s)
    ∧ match usable_text (gemini_post env (calls s) text) with
      | Some t => o = Ok (trim t)
      | None => ∃ e, o = Throw e
      end.
Proof.
  unfold usable_text, generateSimpleResponse, try_catch, bind, provider_call.
  destruct (gemini_post _ _ _) as [msg|data];
    [by eexists; split; [reflexivity|eexists]|].
  destruct (first_text data) as [| |[]|n|t|o];
    try (by eexists; split; [reflexivity|eexists]).
  - simpl. destruct (n =? 0); by eexists; split; [reflexivity|eexists].
  - destruct t; eexists; (split; [reflexivity|]); [by eexists|reflexivity].
Qed.

(** X9: generateResponse throws nothing and sends exactly one request,
    whose prompt is the one buildRAGPrompt makes; it returns the text of
    the reply, trimmed, when that is a non-empty string, and the apology
    otherwise. *)
Theorem generateResponse_answers_or_apologizes env userQuery context s :
  returns (generateResponse env userQuery context) s
    (λ response s',
       emitted (generateResponse env userQuery context) s
       = [CallGemini (buildRAGPrompt userQuery context)]
       ∧ s' = log (CallGemini (buildRAGPrompt userQuery context)) s
       ∧ response
         = match usable_text
                   (gemini_post env (calls s)
                      (buildRAGPrompt userQuery context))
           with
           | Some t => trim t
           | None => fallback
           end).
Proof.
  eapply returns_intro; [apply generateResponse_run|].
  split_and!; [|reflexivity|reflexivity].
  unfold emitted. rewrite generateResponse_run. simpl.
  by rewrite drop_app_length.
Qed.

(** X10: generateSimpleResponse sends one request with the text as
    the prompt; it returns the text of the reply, trimmed, when that is
    a non-empty string, and throws where generateResponse would
    apologize.  validateApiKey throws nothing: it tells whether the
    reply to the prompt "Hello" has such a text. *)
Theorem generateSimpleResponse_throws_on_a_failed_generation env text s :
  emitted (generateSimpleResponse env text) s = [CallGemini text]
  ∧ match usable_text (gemini_post env (calls s) text) with
    | Some t =>
        returns (generateSimpleResponse env text) s (λ r _, r = trim t)
    | None => raises (generateSimpleResponse env text) s (λ _ _, True)
    end
  ∧ returns (GeminiService.validateApiKey env) s
      (λ ok _,
         ok = bool_decide
                (is_Some (usable_text (gemini_post env (calls s) "Hello")))).
Proof.
  split_and!.
  - destruct (generateSimpleResponse_run env text s) as (o & E & _).
    unfold emitted. rewrite E. simpl. by rewrite drop_app_length.
  - destruct (generateSimpleResponse_run env text s) as (o & E & Ho).
    destruct (usable_text _) as [t|].
    + eapply returns_intro; [rewrite E, Ho; reflexivity|reflexivity].
    + destruct Ho as [e ->]. by eapply raises_intro; [exact E|].
  - unfold returns, GeminiService.validateApiKey, try_catch, bind.
    destruct (generateSimpleResponse_run env "Hello" s) as (o & -> & Ho).
    destruct (usable_text _) as [t|].
    + rewrite Ho. symmetry. apply bool_decide_eq_true_2. eauto.
    + destruct Ho as [e ->]. symmetry. apply bool_decide_eq_false_2.
      by intros [? ?].
Qed.

Lemma strlen_substring0_any n s :
  strlen (substring0 n s) = Z.min (Z.max 0 n) (strlen s).
Proof. unfold substring0, strlen. rewrite length_substring0. lia. Qed.

(** X11: summarizeText throws nothing: it returns the generated text,
    and when the generation fails the first [maxLength] characters of
    the text followed by "...", so at most [maxLength + 3] characters. *)
Theorem summarizeText_falls_back_to_a_prefix env text maxLength s :
  returns (summarizeText env text maxLength) s
    (λ summary _,
       let prompt :=
         "Please summarize the following text in about "
         +:+ js_show_Z maxLength +:+ " words:" +:+ LF2 +:+ text in
       match usable_text (gemini_post env (calls s) prompt) with
       | Some t => summary = trim t
       | None =>
           summary = substring0 maxLength text +:+ "..."
           ∧ strlen summary ≤ Z.max 0 maxLength + 3
       end).
Proof.
  unfold returns, summarizeText, try_catch.
  destruct (generateSimpleResponse_run env
              ("Please summarize the following text in about "
               +:+ js_show_Z maxLength +:+ " words:" +:+ LF2 +:+ text) s)
    as (o & -> & Ho).
  cbv zeta. destruct (usable_text _) as [t|].
  - by rewrite Ho.
  - destruct Ho as [e ->]. split; [reflexivity|].
    rewrite strlen_app, strlen_substring0_any.
    change (strlen "...") with 3. lia.
Qed.

End ProviderFacts.

(** ** QdrantService: inserting, counting, clearing *)

Module CollectionFacts.
Import Qdrant QdrantService QdrantFacts.

Lemma store_keeps c d :
  size (store c d) = size c ∧ distance (store c d) = distance c.
Proof. done. Qed.

Lemma dom_stored docs :
  ∀ c, dom (points (foldl store c docs))
       = dom (points c) ∪ list_to_set (Document.id <$> docs).
Proof.
  induction docs as [|d docs IH]; intros c; simpl.
  - by rewrite (right_id_L ∅ (∪)).
  - rewrite IH. simpl. rewrite dom_insert_L.
    rewrite (comm_L (∪) {[Document.id d]}). by rewrite (assoc_L (∪)).
Qed.

Lemma stored_elsewhere docs i :
  ∀ c, i ∉ Document.id <$> docs →
       points (foldl store c docs) !! i = points c !! i.
Proof.
  induction docs as [|d docs IH]; intros c Hi; simpl; [done|].
  rewrite fmap_cons in Hi. apply not_elem_of_cons in Hi as [Hne Hi].
  rewrite (IH _ Hi). simpl. by rewrite lookup_insert_ne.
Qed.

Lemma stored_last_wins docs :
  ∀ c d, NoDup (Document.id <$> docs) → d ∈ docs →
         points (foldl store c docs) !! Document.id d
         = Some (Document.vector d, Document.payload d).
Proof.
  induction docs as [|d0 docs IH]; intros c d Hnd Hd; simpl.
  - by apply elem_of_nil in Hd.
  - rewrite fmap_cons in Hnd. apply NoDup_cons in Hnd as [Hnew Hnd].
    apply elem_of_cons in Hd as [->|Hd].
    + rewrite (stored_elsewhere _ _ _ Hnew). simpl.
      by rewrite lookup_insert_eq.
    + by apply IH.
Qed.

Lemma insertDocuments_run docs s c :
  qdrant s !! collectionName = Some c →
  docs ≠ [] →
  Forall (λ d, fits c d = true) docs →
  insertDocuments docs s
  = (Ok true,
     with_qdrant (<[collectionName := foldl store c docs]> (qdrant s))
       (log (CallQdrant (Upsert collectionName docs)) s)).
Proof.
  intros Hc Hne Hfit.
  unfold insertDocuments, try_catch, bind, qdrant_call, upsert.
  rewrite Hc. destruct docs as [|d docs]; [done|].
  rewrite (proj2 (forallb_forall _ _)); [done|].
  intros x Hx%list_elem_of_In. by eapply Forall_forall in Hfit.
Qed.

(** A refused insert: the error is passed on and the store is as it was. *)
Lemma insertDocuments_refused docs s c :
  qdrant s !! collectionName = Some c →
  docs = [] ∨ Exists (λ d, fits c d = false) docs →
  ∃ e, insertDocuments docs s
       = (Throw e,
          with_qdrant (qdrant s)
            (log (CallQdrant (Upsert collectionName docs)) s)).
Proof.
  intros Hc Hbad.
  unfold insertDocuments, try_catch, bind, qdrant_call, upsert.
  rewrite Hc. destruct docs as [|d docs]; [by eexists|].
  destruct Hbad as [?|Hbad]; [done|].
  destruct (forallb (fits c) (d :: docs)) eqn:Hall; [|by eexists].
  apply Exists_exists in Hbad as (x & Hx & Hno).
  rewrite forallb_forall in Hall.
  apply list_elem_of_In in Hx. rewrite (Hall x Hx) in Hno. discriminate.
Qed.

Lemma insertDocuments_cases docs s c :
  qdrant s !! collectionName = Some c →
  (docs ≠ [] ∧ Forall (λ d, fits c d = true) docs)
  ∨ (docs = [] ∨ Exists (λ d, fits c d = false) docs).
Proof.
  intros _. destruct docs as [|d docs]; [right; by left|].
  destruct (decide (Forall (λ d, fits c d = true) (d :: docs))) as [Hf|Hn].
  - left. by split.
  - right. right. apply not_Forall_Exists in Hn; [|apply _].
    eapply Exists_impl; [exact Hn|]. intros x Hx. simpl in Hx.
    by apply not_true_is_false.
Qed.

Lemma getDocumentCount_run s :
  getDocumentCount s
  = (Ok match qdrant s !! collectionName with
        | Some c => Z.of_nat (base.size (points c))
        | None => 0
        end,
     with_qdrant (qdrant s)
       (log (CallQdrant (GetCollection collectionName)) s)).
Proof.
  unfold getDocumentCount, getCollectionInfo, try_catch, qdrant_call,
    getCollection.
  by destruct (qdrant s !! collectionName).
Qed.

Lemma clearCollection_run s c :
  qdrant s !! collectionName = Some c →
  clearCollection s
  = (Ok true,
     with_qdrant
       (<[collectionName :=
            {| size := size c; distance := distance c; points := ∅ |}]>
          (qdrant s))
       (log (CallQdrant (DeleteAll collectionName)) s)).
Proof.
  intros Hc. unfold clearCollection, try_catch, bind, qdrant_call, deleteAll.
  by rewrite Hc.
Qed.

(** X12: insertDocuments sends the documents as one upsert.  When
    each of them has a vector of the size of the collection, it returns
    true and a document replaces the point that had its id: the ids
    afterwards are the old ones and those of the documents,
    getDocumentCount gives their number, the points with other ids are
    untouched and, the ids of the documents being distinct, each
    document is stored as it was given.  When one of them has no vector,
    or one of another size, it throws. *)
Theorem insertDocuments_replaces_by_id docs s c :
  qdrant s !! collectionName = Some c →
  docs ≠ [] →
  emitted (insertDocuments docs) s
  = [CallQdrant (Upsert collectionName docs)]
  ∧ (Forall (λ d, fits c d = true) docs →
     returns (insertDocuments docs) s
       (λ ok s1,
          ok = true
          ∧ ∃ c1,
              qdrant s1 !! collectionName = Some c1
              ∧ dom (points c1)
                = dom (points c) ∪ list_to_set (Document.id <$> docs)
              ∧ (∀ i, i ∉ Document.id <$> docs →
                   points c1 !! i = points c !! i)
              ∧ (NoDup (Document.id <$> docs) →
                 ∀ d, d ∈ docs →
                   points c1 !! Document.id d
                   = Some (Document.vector d, Document.payload d))
              ∧ returns getDocumentCount s1
                  (λ count _,
                     count
                     = Z.of_nat
                         (base.size
                            (dom (points c)
                             ∪ list_to_set (Document.id <$> docs)
                             : gset nat)))))
  ∧ (Exists (λ d, fits c d = false) docs →
     raises (insertDocuments docs) s (λ _ _, True)).
Proof.
  intros Hc Hne. split_and!.
  - destruct (insertDocuments_cases docs s c Hc) as [[_ Hfit]|Hbad].
    + unfold emitted. rewrite (insertDocuments_run docs s c Hc Hne Hfit).
      simpl. by rewrite drop_app_length.
    + destruct (insertDocuments_refused docs s c Hc Hbad) as [e E].
      unfold emitted. rewrite E. simpl. by rewrite drop_app_length.
  - intros Hfit.
    eapply returns_intro; [by apply insertDocuments_run|].
    split; [done|]. exists (foldl store c docs). split_and!.
    + simpl. by rewrite lookup_insert_eq.
    + apply dom_stored.
    + intros i Hi. by apply stored_elsewhere.
    + intros Hnd d Hd. by apply stored_last_wins.
    + eapply returns_intro; [apply getDocumentCount_run|].
      simpl. rewrite lookup_insert_eq. by rewrite <- dom_stored, size_dom.
  - intros Hbad.
    destruct (insertDocuments_refused docs s c Hc (or_intror Hbad)) as [e E].
    by eapply raises_intro; [exact E|].
Qed.

(** X13: clearCollection on the existing collection returns true and
    removes every point but not the collection: its size and distance
    are kept, the other collections are untouched, getDocumentCount
    gives 0 and a later ensureCollection creates nothing. *)
Theorem clearCollection_keeps_the_collection s c :
  qdrant s !! collectionName = Some c →
  returns clearCollection s
    (λ ok s1,
       ok = true
       ∧ qdrant s1 !! collectionName
         = Some {| size := size c; distance := distance c; points := ∅ |}
       ∧ (∀ name, name ≠ collectionName →
            qdrant s1 !! name = qdrant s !! name)
       ∧ returns getDocumentCount s1 (λ count _, count = 0)
       ∧ creations (emitted ensureCollection s1) = 0%nat).
Proof.
  intros Hc. eapply returns_intro; [by apply clearCollection_run|].
  split_and!.
  - done.
  - simpl. by rewrite lookup_insert_eq.
  - intros name Hne. simpl. by rewrite lookup_insert_ne.
  - eapply returns_intro; [apply getDocumentCount_run|].
    simpl. rewrite lookup_insert_eq. simpl. by rewrite map_size_empty.
  - match goal with
    | |- creations (emitted _ ?s1) = _ =>
        assert (is_Some (qdrant s1 !! collectionName)) as Hs
    end.
    { simpl. rewrite lookup_insert_eq. eauto. }
    by rewrite (emitted_one _ _ _ _ (ensureCollection_present _ Hs)).
Qed.

(** X14: while the collection is missing, insertDocuments,
    clearCollection and getCollectionInfo throw and change nothing in
    the store, and getDocumentCount hides the failure: it returns 0. *)
Theorem missing_collection_is_reported_except_by_the_count docs s :
  qdrant s !! collectionName = None →
  raises (insertDocuments docs) s (λ _ s1, qdrant s1 = qdrant s)
  ∧ raises clearCollection s (λ _ s1, qdrant s1 = qdrant s)
  ∧ raises getCollectionInfo s (λ _ s1, qdrant s1 = qdrant s)
  ∧ returns getDocumentCount s
      (λ count s1, count = 0 ∧ qdrant s1 = qdrant s).
Proof.
  intros Hc. split_and!.
  - unfold raises, insertDocuments, try_catch, bind, qdrant_call, upsert.
    by rewrite Hc.
  - unfold raises, clearCollection, try_catch, bind, qdrant_call, deleteAll.
    by rewrite Hc.
  - unfold raises, getCollectionInfo, try_catch, qdrant_call, getCollection.
    by rewrite Hc.
  - eapply returns_intro; [apply getDocumentCount_run|]. by rewrite Hc.
Qed.

End CollectionFacts.

(** ** ingestNews.js: numbering, batches, the whole run *)

Module IngestFacts.
Import Qdrant QdrantService QdrantFacts CollectionFacts.
Import EmbeddingService NewsIngestion FetchFacts BatchFacts.

(** The loop over the feeds numbers what it adds consecutively. *)
Lemma fetchAll_from_ids this env rest :
  ∀ i acc s,
    ∃ new evs,
      fetchAll_from this env i rest acc s
      = (Ok (acc ++ new), advanced s evs (length new))
      ∧ Article.id <$> new = seq (articleCounter s) (length new).
Proof.
  induction rest as [|url rest IH]; intros i acc s.
  - exists [], []. simpl. by rewrite advanced_nil, app_nil_r.
  - destruct (fetchOne_spec this env i url s)
      as (arts & its & k & E & _ & _ & _ & Hids & _).
    destruct (IH (S i) (acc ++ arts)
                (advanced s (backoff_trace url k 1 ++ [Sleep 1000]) (length arts)))
      as (new & evs & Er & Hnew).
    exists (arts ++ new). eexists. split.
    + simpl. unfold bind. rewrite E, Er, advanced_advanced.
      rewrite <- app_assoc, length_app. reflexivity.
    + rewrite fmap_app, Hids, Hnew, length_app. simpl.
      by rewrite seq_app.
Qed.

Lemma fetchAllArticles_ids this env s :
  ∃ articles evs n,
    fetchAllArticles this env s = (Ok articles, advanced s evs n)
    ∧ (length articles ≤ 50)%nat
    ∧ (length articles ≤ n)%nat
    ∧ Article.id <$> articles = seq (articleCounter s) (length articles).
Proof.
  destruct (fetchAll_from_ids this env (feeds this) 0%nat [] s)
    as (new & evs & E & Hids).
  exists (take 50 new), evs, (length new). split_and!.
  - unfold fetchAllArticles, bind. by rewrite E.
  - rewrite length_take. lia.
  - rewrite length_take. lia.
  - by rewrite fmap_take, Hids, take_seq, length_take.
Qed.

(** X15: fetchAllArticles throws nothing and numbers the articles it
    returns consecutively from the counter on, in the order returned, so
    their ids are distinct; the counter ends past the last id (further
    when articles were cut off by the cap), and the stores are left
    alone. *)
Theorem fetchAllArticles_numbers_consecutively this env s :
  returns (fetchAllArticles this env) s
    (λ articles s',
       Article.id <$> articles = seq (articleCounter s) (length articles)
       ∧ NoDup (Article.id <$> articles)
       ∧ (articleCounter s + length articles ≤ articleCounter s')%nat
       ∧ redis s' = redis s ∧ qdrant s' = qdrant s).
Proof.
  destruct (fetchAllArticles_ids this env s)
    as (articles & evs & n & E & _ & Hn & Hids).
  eapply returns_intro; [exact E|]. split_and!; try done.
  - rewrite Hids. apply NoDup_seq.
  - simpl. lia.
Qed.

(** X16: when the first attempt on a feed fails and the second one,
    made after the wait of 2000 ms, is served, fetchFeed with at least
    two attempts allowed returns the items of that second reply (none
    for a feed without items) after exactly these three steps. *)
Theorem fetchFeed_recovers_on_the_second_attempt
    env feedUrl retries s msg feed :
  2 ≤ retries →
  rss_parseURL env (calls s) feedUrl = Rejected msg →
  rss_parseURL env (calls s ++ [CallParseURL feedUrl; Sleep 2000]) feedUrl
  = Replied feed →
  returns (fetchFeed env feedUrl retries) s
    (λ its s',
       its = default [] (items feed)
       ∧ s' = advanced s
                [CallParseURL feedUrl; Sleep 2000; CallParseURL feedUrl] 0).
Proof.
  intros Hr E1 E2. unfold returns, fetchFeed.
  destruct (Z.to_nat retries) as [|[|n]] eqn:En; [lia|lia|].
  simpl fetchFeed_from. unfold bind.
  rewrite (attemptFeed_retry _ _ _ _ _ _ E1) by lia.
  rewrite (attemptFeed_served _ _ _ _ _ feed) by exact E2.
  by rewrite advanced_advanced.
Qed.

(** embedBatch adds calls and nothing else. *)
Lemma embedBatch_advanced env texts s :
  ∃ o evs, embedBatch env texts s = (o, advanced s evs 0).
Proof.
  unfold embedBatch, try_catch, bind, throw.
  destruct texts as [[|t l]|];
    try (eexists _, []; by rewrite advanced_nil).
  cbv beta iota zeta.
  destruct (Z.of_nat _ =? 0);
    [eexists _, []; by rewrite advanced_nil|].
  unfold post, provider_call.
  destruct (jina_post _ _ _ _) as [msg|[embs|]];
    eexists _, [_]; by rewrite <- log_advanced.
Qed.

Lemma pairUp_made env embeddings rest :
  ∀ j0 s, ∃ docs,
    pairUp env rest embeddings j0 s = (Ok docs, s)
    ∧ Forall2 made_from rest docs.
Proof.
  induction rest as [|a rest IH]; intros j0 s.
  - exists []. by split.
  - destruct (IH (S j0) s) as (docs & E & Hdocs).
    eexists (_ :: docs). split.
    + simpl. unfold bind, makeDocument, bind, toISOString, ret.
      rewrite E. reflexivity.
    + constructor; [|exact Hdocs]. by repeat split.
Qed.

Lemma embedDocuments_made env batch s :
  ∃ evs,
    (∃ docs, embedDocuments env batch s = (Ok docs, advanced s evs 0)
             ∧ Forall2 made_from batch docs)
    ∨ (∃ e, embedDocuments env batch s = (Throw e, advanced s evs 0)).
Proof.
  destruct (embedBatch_advanced env (Some (Article.content <$> batch)) s)
    as ([embs|e] & evs & E); exists evs.
  - left.
    destruct (pairUp_made env embs batch 0%nat (advanced s evs 0))
      as (docs & Ep & Hdocs).
    exists docs. split; [|done].
    unfold embedDocuments, bind. by rewrite E.
  - right. exists e. unfold embedDocuments, bind. by rewrite E.
Qed.

Lemma made_from_ids batch docs :
  Forall2 made_from batch docs →
  Document.id <$> docs = Article.id <$> batch.
Proof.
  induction 1 as [|a d batch docs [Hid _] _ IH]; [done|].
  by rewrite !fmap_cons, Hid, IH.
Qed.

Lemma made_from_some articles batch docs :
  batch ⊆ articles →
  Forall2 made_from batch docs →
  Forall (λ d, ∃ a, a ∈ articles ∧ made_from a d) docs.
Proof.
  intros Hsub H. induction H as [|a d batch docs Had _ IH]; [done|].
  constructor.
  - exists a. split; [|done]. apply Hsub. by left.
  - apply IH. intros x Hx. apply Hsub. by right.
Qed.

Lemma drop_batch {A} (l : list A) i :
  take batchSize (drop i l) ++ drop (i + batchSize) l = drop i l.
Proof. rewrite <- drop_drop. apply take_drop. Qed.

Lemma ids_split articles i :
  Article.id <$> drop i articles
  = (Article.id <$> take batchSize (drop i articles))
    ++ (Article.id <$> drop (i + batchSize) articles).
Proof. by rewrite <- fmap_app, drop_batch. Qed.

(** The batch loop: it throws nothing, and what it adds comes from
    articles at index [i] or later, in their order. *)
Lemma ingest_from_spec env articles n :
  ∀ i documents s,
    ∃ new evs,
      ingest_from env articles n i documents s
      = (Ok (documents ++ new), advanced s evs 0)
      ∧ Forall (λ d, ∃ a, a ∈ articles ∧ made_from a d) new
      ∧ (Document.id <$> new) `sublist_of` (Article.id <$> drop i articles).
Proof.
  induction n as [|n IH]; intros i documents s.
  - exists [], []. simpl. rewrite advanced_nil, app_nil_r.
    split_and!; [done|done|apply sublist_nil_l].
  - rewrite ingest_from_S.
    destruct (Z.of_nat i <? Z.of_nat (length articles)).
    2:{ exists [], []. unfold ret. rewrite advanced_nil, app_nil_r.
        split_and!; [done|done|apply sublist_nil_l]. }
    cbv zeta. unfold bind at 1. unfold try_catch, bind at 1.
    destruct (embedDocuments_made env (take batchSize (drop i articles)) s)
      as (evs & [(ds & -> & Hds)|(e & ->)]).
    + unfold ret at 1. cbv beta iota. unfold bind, sleep.
      destruct (IH (i + batchSize)%nat (documents ++ ds)
                  (log (Sleep 2000) (advanced s evs 0)))
        as (new & evs' & -> & Hnew & Hsub).
      exists (ds ++ new). eexists. split_and!.
      * rewrite log_advanced, !advanced_advanced.
        rewrite <- (app_assoc documents). reflexivity.
      * apply Forall_app. split; [|done].
        eapply made_from_some; [|exact Hds].
        intros x Hx. by eapply subseteq_drop, subseteq_take.
      * rewrite (ids_split articles i), fmap_app, (made_from_ids _ _ Hds).
        apply sublist_app; [reflexivity|exact Hsub].
    + unfold ret. cbv beta iota.
      destruct (IH (i + batchSize)%nat documents (advanced s evs 0))
        as (new & evs' & -> & Hnew & Hsub).
      exists new. eexists. split_and!.
      * rewrite advanced_advanced. reflexivity.
      * done.
      * rewrite (ids_split articles i). by apply sublist_inserts_l.
Qed.

Lemma made_from_short a d :
  made_from a d → strlen (Payload.content (Document.payload d)) ≤ 1000.
Proof.
  intros (_ & _ & _ & -> & _). rewrite strlen_substring0 by lia. lia.
Qed.

(** X17: the batch loop of ingestArticles throws nothing, whatever the
    embedding provider does: a batch whose embedding fails is skipped.
    Every document it builds is made from one of the articles, with the
    content cut to 1000 characters, and the documents keep the order of
    the articles; the stores and the counter are left alone. *)
Theorem batch_loop_skips_failed_batches env articles s :
  returns (ingest_from env articles (length articles) 0 []) s
    (λ documents s',
       Forall (λ d, ∃ a, a ∈ articles ∧ made_from a d) documents
       ∧ Forall (λ d, strlen (Payload.content (Document.payload d)) ≤ 1000)
           documents
       ∧ (Document.id <$> documents) `sublist_of` (Article.id <$> articles)
       ∧ redis s' = redis s ∧ qdrant s' = qdrant s
       ∧ articleCounter s' = articleCounter s).
Proof.
  destruct (ingest_from_spec env articles (length articles) 0%nat [] s)
    as (new & evs & E & Hnew & Hsub).
  eapply returns_intro; [exact E|]. simpl. split_and!; try done.
  eapply Forall_impl; [exact Hnew|].
  intros d (a & _ & Had). by eapply made_from_short.
Qed.

Lemma backoff_quiet url k : ∀ attempt,
  Forall (λ e, ∀ c, e ≠ CallQdrant c) (backoff_trace url k attempt).
Proof.
  induction k as [|k IH]; intros attempt; [constructor|].
  simpl. constructor; [done|]. destruct k; [constructor|].
  constructor; [done|]. apply IH.
Qed.

Lemma fetchAll_quiet this env rest :
  ∀ i acc s,
    ∃ all evs n,
      fetchAll_from this env i rest acc s = (Ok all, advanced s evs n)
      ∧ Forall (λ e, ∀ c, e ≠ CallQdrant c) evs.
Proof.
  induction rest as [|url rest IH]; intros i acc s.
  - exists acc, [], 0%nat. simpl. by rewrite advanced_nil.
  - destruct (fetchOne_spec this env i url s)
      as (arts & its & k & E & _).
    destruct (IH (S i) (acc ++ arts)
                (advanced s (backoff_trace url k 1 ++ [Sleep 1000]) (length arts)))
      as (all & evs & n & Er & Hq).
    exists all. eexists _, _. split.
    + simpl. unfold bind. rewrite E, Er, advanced_advanced. reflexivity.
    + rewrite !Forall_app. split_and!; [apply backoff_quiet| |done].
      by repeat constructor.
Qed.

Lemma embedDocuments_rejected env batch s :
  embedding_down env →
  ∃ e evs, embedDocuments env batch s = (Throw e, advanced s evs 0)
           ∧ Forall (λ e, ∀ c, e ≠ CallQdrant c) evs.
Proof.
  intros Hdown. unfold embedDocuments, bind, embedBatch, try_catch, bind, throw.
  destruct (Article.content <$> batch) as [|t l];
    [eexists _, []; by rewrite advanced_nil|].
  cbv beta iota zeta.
  destruct (Z.of_nat _ =? 0);
    [eexists _, []; by rewrite advanced_nil|].
  unfold post, provider_call.
  destruct (Hdown (calls s)
              (filter (λ text, Is_true (has_text text)) (t :: l)))
    as [msg ->].
  eexists _, [CallJina model
                (filter (λ text, Is_true (has_text text)) (t :: l))].
  split; [by rewrite <- log_advanced|by repeat constructor].
Qed.

Lemma ingest_from_quiet env articles n :
  embedding_down env →
  ∀ i documents s,
    ∃ evs, ingest_from env articles n i documents s
           = (Ok documents, advanced s evs 0)
           ∧ Forall (λ e, ∀ c, e ≠ CallQdrant c) evs.
Proof.
  intros Hdown. induction n as [|n IH]; intros i documents s.
  - exists []. simpl. by rewrite advanced_nil.
  - rewrite ingest_from_S.
    destruct (Z.of_nat i <? Z.of_nat (length articles)).
    2:{ exists []. unfold ret. by rewrite advanced_nil. }
    cbv zeta. unfold bind at 1. unfold try_catch, bind at 1.
    destruct (embedDocuments_rejected env
                (take batchSize (drop i articles)) s Hdown)
      as (e & evs & -> & Hq).
    unfold ret. cbv beta iota.
    destruct (IH (i + batchSize)%nat documents (advanced s evs 0))
      as (evs' & -> & Hq').
    eexists. rewrite advanced_advanced. split; [done|].
    by apply Forall_app.
Qed.

(** With the embedding provider down no document is built, and
    ingestArticles returns before the insert. *)
Lemma ingestArticles_quiet this env s :
  embedding_down env →
  ∃ evs n, ingestArticles this env s = (Ok tt, advanced s evs n)
           ∧ Forall (λ e, ∀ c, e ≠ CallQdrant c) evs.
Proof.
  intros Hdown.
  destruct (fetchAll_quiet this env (feeds this) 0%nat [] s)
    as (all & evs & n & E & Hq).
  unfold ingestArticles, try_catch, bind at 1, fetchAllArticles, bind at 1.
  rewrite E. unfold ret at 1. cbv beta iota.
  destruct (Z.of_nat (length (take 50 all)) =? 0); [by exists evs, n|].
  unfold bind.
  destruct (ingest_from_quiet env (take 50 all) (length (take 50 all))
              Hdown 0%nat [] (advanced s evs n))
    as (evs2 & -> & Hq2).
  change (Z.of_nat (length (@nil Document.t)) =? 0) with true.
  cbv beta iota. unfold ret. exists (evs ++ evs2), n.
  rewrite advanced_advanced, Nat.add_0_r.
  split; [done|]. by apply Forall_app.
Qed.

(** X24: while the embedding provider rejects every request,
    ingestArticles returns normally and stores nothing: every batch is
    skipped, no document is built and the insert is not attempted, so
    the collection is not even required to exist. *)
Theorem ingestArticles_stores_nothing_without_embeddings this env s :
  embedding_down env →
  returns (ingestArticles this env) s
    (λ _ s', qdrant s' = qdrant s ∧ redis s' = redis s
             ∧ Forall (λ e, ∀ c, e ≠ CallQdrant c)
                 (emitted (ingestArticles this env) s)).
Proof.
  intros Hdown.
  destruct (ingestArticles_quiet this env s Hdown) as (evs & n & Ei & Hevs).
  eapply returns_intro; [exact Ei|]. split_and!; [done|done|].
  unfold emitted. rewrite Ei. simpl. by rewrite drop_app_length.
Qed.

(** ingestArticles on an existing collection: whether the insert is
    accepted or refused, Redis is left alone and the points are the old
    ones and some numbered from the counter on.  It throws only after
    an insert that has a point the collection does not accept. *)
Lemma ingestArticles_run this env s c :
  qdrant s !! collectionName = Some c →
  ∃ o s', ingestArticles this env s = (o, s')
          ∧ redis s' = redis s
          ∧ (∃ c', qdrant s' !! collectionName = Some c'
                   ∧ ∀ i, i ∈ dom (points c') →
                       i ∈ dom (points c)
                       ∨ (articleCounter s ≤ i < articleCounter s + 50)%nat)
          ∧ match o with
            | Ok _ => True
            | Throw _ =>
                qdrant s' = qdrant s
                ∧ ∃ docs,
                    last (calls s')
                    = Some (CallQdrant (Upsert collectionName docs))
                    ∧ Exists (λ d, fits c d = false) docs
            end.
Proof.
  intros Hc.
  destruct (fetchAllArticles_ids this env s)
    as (articles & evs & n & E & H50 & _ & Hids).
  unfold ingestArticles, try_catch, bind. rewrite E.
  destruct (Z.of_nat (length articles) =? 0).
  { eexists _, _. split; [reflexivity|]. split; [done|]. split; [|done].
    exists c. split; [done|]. auto. }
  destruct (ingest_from_spec env articles (length articles) 0%nat []
              (advanced s evs n)) as (docs & evs' & -> & _ & Hsub).
  rewrite app_nil_l.
  destruct (Z.of_nat (length docs) =? 0) eqn:Hlen.
  { eexists _, _. split; [reflexivity|]. split; [done|]. split; [|done].
    exists c. split; [done|]. auto. }
  assert (docs ≠ []) as Hne by (by intros ->).
  destruct (insertDocuments_cases docs
              (advanced (advanced s evs n) evs' 0) c Hc) as [[_ Hfit]|Hbad].
  - rewrite (insertDocuments_run docs _ c) by done.
    rewrite getDocumentCount_run.
    eexists _, _. split; [reflexivity|]. split; [done|]. split; [|done].
    exists (foldl store c docs). split.
    + simpl. by rewrite lookup_insert_eq.
    + intros i. rewrite dom_stored, elem_of_union, elem_of_list_to_set.
      intros [Hi|Hi]; [by left|right].
      apply sublist_submseteq in Hsub.
      apply (elem_of_submseteq _ _ _ Hi) in Hsub.
      rewrite drop_0, Hids in Hsub. apply elem_of_seq in Hsub. lia.
  - destruct (insertDocuments_refused docs
                (advanced (advanced s evs n) evs' 0) c Hc Hbad) as [e ->].
    eexists _, _. split; [reflexivity|]. split; [done|]. split.
    + exists c. split; [done|]. auto.
    + split; [done|]. exists docs. split.
      * simpl. apply last_snoc.
      * by destruct Hbad.
Qed.

Lemma initialize_run s :
  ∃ s1 c, QdrantService.initialize s = (Ok tt, s1)
          ∧ redis s1 = redis s
          ∧ articleCounter s1 = articleCounter s
          ∧ qdrant s1 !! collectionName = Some c
          ∧ dom (points c) = point_ids (qdrant s).
Proof.
  unfold QdrantService.initialize, try_catch, point_ids.
  destruct (qdrant s !! collectionName) as [c|] eqn:Hq.
  - rewrite ensureCollection_present by eauto.
    eexists _, c. by split_and!.
  - rewrite ensureCollection_absent by done.
    eexists _, _. split_and!; [reflexivity|done|done| |].
    + unfold created. simpl. by rewrite lookup_insert_eq.
    + simpl. by rewrite dom_empty_L.
Qed.

(** X18: with a Qdrant that answers, main never throws: it ends with
    exit code 0 or 1.  It ends with 1 only after an insert that has a
    point the collection does not accept (no vector, or one of another
    size), which was the last request of the run; with the embedding
    provider down it ends with 0.  In every case Redis is left alone,
    the collection exists afterwards, and each of its points has an id
    from 1 to 50 or, when --clear was not given, was there before the
    run. *)
Theorem main_ends_with_an_exit_code env args s :
  returns (main env args) s
    (λ code s',
       (code = 0 ∨ code = 1)
       ∧ (code = 1 →
          ∃ c docs,
            qdrant s' !! collectionName = Some c
            ∧ last (calls s') = Some (CallQdrant (Upsert collectionName docs))
            ∧ Exists (λ d, fits c d = false) docs)
       ∧ (embedding_down env → code = 0)
       ∧ redis s' = redis s
       ∧ is_Some (qdrant s' !! collectionName)
       ∧ ∀ i, i ∈ point_ids (qdrant s') →
           (1 ≤ i ≤ 50)%nat
           ∨ (existsb (String.eqb "--clear") args = false
              ∧ i ∈ point_ids (qdrant s))).
Proof.
  unfold returns, main, try_catch, bind, NewsIngestion.initialize.
  destruct (initialize_run (with_counter 1 s))
    as (s1 & c & -> & Hr1 & Hn1 & Hq1 & Hd1).
  assert (∀ s2 c2 (clear : bool),
    qdrant s2 !! collectionName = Some c2 →
    redis s2 = redis s → articleCounter s2 = 1%nat →
    (∀ i, i ∈ dom (points c2) → clear = false ∧ i ∈ point_ids (qdrant s)) →
    let (o, s') :=
      match
        (let (o, s') := ingestArticles new env s2 in
         match o with
         | Ok _ => ret 0 s'
         | Throw e => (Throw e, s')
         end)
      with
      | (Ok a, s') => (Ok a, s')
      | (Throw _, s') => ret 1 s'
      end in
    match o with
    | Ok code =>
        (code = 0 ∨ code = 1)
        ∧ (code = 1 →
           ∃ c docs,
             qdrant s' !! collectionName = Some c
             ∧ last (calls s')
               = Some (CallQdrant (Upsert collectionName docs))
             ∧ Exists (λ d, fits c d = false) docs)
        ∧ (embedding_down env → code = 0)
        ∧ redis s' = redis s
        ∧ is_Some (qdrant s' !! collectionName)
        ∧ ∀ i, i ∈ point_ids (qdrant s') →
            (1 ≤ i ≤ 50)%nat
            ∨ (clear = false ∧ i ∈ point_ids (qdrant s))
    | Throw _ => False
    end) as Hrun.
  { intros s2 c2 clear Hq2 Hr2 Hn2 Hold.
    destruct (ingestArticles_run new env s2 c2 Hq2)
      as (o & s3 & E3 & Hr3 & (c3 & Hq3 & Hd3) & Hthrow).
    assert (embedding_down env → o = Ok tt) as Hquiet.
    { intros Hdown.
      destruct (ingestArticles_quiet new env s2 Hdown) as (? & ? & Eq & _).
      congruence. }
    rewrite E3.
    assert (∀ i, i ∈ point_ids (qdrant s3) →
              (1 ≤ i ≤ 50)%nat ∨ (clear = false ∧ i ∈ point_ids (qdrant s)))
      as Hids.
    { unfold point_ids at 1. rewrite Hq3. intros i Hi.
      destruct (Hd3 i Hi) as [Hin|Hin].
      - right. by apply Hold.
      - left. rewrite Hn2 in Hin. lia. }
    destruct o as [[]|e]; unfold ret.
    - split_and!; [by left|done|done|by rewrite Hr3|eauto|done].
    - destruct Hthrow as (Hsame & docs & Hlast & Hbad).
      split_and!; [by right| | |by rewrite Hr3|eauto|done].
      + intros _. exists c2, docs. by rewrite Hsame, Hq2.
      + intros Hdown. by specialize (Hquiet Hdown). }
  destruct (existsb (String.eqb "--clear") args).
  - unfold clearExistingData, try_catch, bind.
    rewrite (clearCollection_run _ _ Hq1).
    unfold ret at 1. cbv beta iota.
    eapply (Hrun _ {| size := size c; distance := distance c; points := ∅ |}
              true).
    + simpl. by rewrite lookup_insert_eq.
    + done.
    + done.
    + intros i Hi. simpl in Hi. by rewrite dom_empty_L in Hi.
  - unfold ret at 1. apply (Hrun s1 c false Hq1 Hr1 Hn1).
    intros i Hi. split; [done|]. rewrite Hd1 in Hi. exact Hi.
Qed.

End IngestFacts.

(** ** cleanHtmlContent: the normal form of the cleaned text *)

Module CleanFacts.
Import NewsIngestion.

Lemma app_empty_r s : s +:+ "" = s.
Proof.
  induction s as [|a s IH]; [done|]. by rewrite app_String, IH.
Qed.

Lemma rev_app_app s1 : ∀ s2 s3,
  String.rev_app s1 s2 +:+ s3 = String.rev_app s1 (s2 +:+ s3).
Proof.
  induction s1 as [|a s1 IH]; intros s2 s3; simpl; [done|].
  by rewrite IH, app_String.
Qed.

Lemma rev_app_rev_app s1 : ∀ s2 s3,
  String.rev_app (String.rev_app s1 s2) s3 = String.rev_app s2 (s1 +:+ s3).
Proof.
  induction s1 as [|a s1 IH]; intros s2 s3; simpl; [done|].
  rewrite IH. simpl. by rewrite app_String.
Qed.

Lemma rev_rev s : String.rev (String.rev s) = s.
Proof.
  unfold String.rev. rewrite rev_app_rev_app. simpl. apply app_empty_r.
Qed.

Lemma rev_app_append s1 : ∀ s2 s3,
  String.rev_app (s1 +:+ s2) s3 = String.rev_app s2 (String.rev_app s1 s3).
Proof.
  induction s1 as [|a s1 IH]; intros s2 s3; [done|].
  rewrite app_String. simpl. by rewrite IH.
Qed.

Lemma rev_append s1 s2 :
  String.rev (s1 +:+ s2) = String.rev s2 +:+ String.rev s1.
Proof.
  unfold String.rev. by rewrite rev_app_append, rev_app_app, app_empty.
Qed.

Lemma trimStart_idem s : trimStart (trimStart s) = trimStart s.
Proof.
  induction s as [|a s IH]; simpl; [done|].
  destruct (is_white a) eqn:E; [done|]. simpl. by rewrite E.
Qed.

Lemma trimStart_suffix s : ∃ w, s = w +:+ trimStart s.
Proof.
  induction s as [|a s [w IH]]; simpl; [by exists ""|].
  destruct (is_white a).
  - exists (String a w). by rewrite app_String, <- IH.
  - by exists "".
Qed.

Lemma trimEnd_prefix s : ∃ w, s = trimEnd s +:+ w.
Proof.
  destruct (trimStart_suffix (String.rev s)) as [w Hw].
  exists (String.rev w). unfold trimEnd.
  by rewrite <- rev_append, <- Hw, rev_rev.
Qed.

Lemma trimEnd_idem s : trimEnd (trimEnd s) = trimEnd s.
Proof. unfold trimEnd. by rewrite rev_rev, trimStart_idem. Qed.

Lemma single_spaced_prefix s1 : ∀ b s2,
  single_spaced b (s1 +:+ s2) = true → single_spaced b s1 = true.
Proof.
  induction s1 as [|a s1 IH]; intros b s2; [done|].
  rewrite app_String. simpl. destruct (is_white a).
  - intros [H1 H2]%andb_true_iff. rewrite H1. simpl. by eapply IH.
  - apply IH.
Qed.

Lemma single_spaced_weaken s : ∀ b,
  single_spaced b s = true → single_spaced false s = true.
Proof.
  destruct s as [|a s]; intros b; simpl; [done|].
  destruct (is_white a); [|done].
  intros [[H1 _]%andb_true_iff H2]%andb_true_iff. by rewrite H1, H2.
Qed.

Lemma single_spaced_trimStart s : ∀ b,
  single_spaced b s = true → single_spaced true (trimStart s) = true.
Proof.
  induction s as [|a s IH]; intros b; simpl; [done|].
  destruct (is_white a) eqn:E.
  - intros [_ H]%andb_true_iff. by eapply IH.
  - simpl. by rewrite E.
Qed.

Lemma trimStart_fixed s : single_spaced true s = true → trimStart s = s.
Proof.
  destruct s as [|a s]; simpl; [done|].
  destruct (is_white a); [|done].
  rewrite andb_false_r. discriminate.
Qed.

(** [replace(/\s+/g, ' ')] leaves single spaces as the only white space. *)
Lemma single_spaced_replace s : ∀ b,
  single_spaced b (replace_runs is_white b s) = true.
Proof.
  induction s as [|a s IH]; intros b; simpl; [done|].
  destruct (is_white a) eqn:E.
  - destruct b; [apply IH|]. simpl. apply IH.
  - simpl. rewrite E. apply IH.
Qed.

Lemma LF_is_white a :
  is_LF a = true → is_white a = true ∧ Ascii.eqb a " " = false.
Proof.
  unfold is_LF. intros H%N.eqb_eq.
  rewrite <- (ascii_N_embedding a), H. by split.
Qed.

(** After that, [replace(/\n+/g, ' ')] finds nothing to replace. *)
Lemma no_LF_left s : ∀ b b',
  single_spaced b s = true → replace_runs is_LF b' s = s.
Proof.
  induction s as [|a s IH]; intros b b'; simpl; [done|].
  destruct (is_LF a) eqn:E.
  - destruct (LF_is_white a E) as [-> ->]. discriminate.
  - destruct (is_white a).
    + intros [_ H]%andb_true_iff. by rewrite (IH true false H).
    + intros H. by rewrite (IH false false H).
Qed.

(** X19: the text cleanHtmlContent returns has its white space
    normalised: every white-space character in it is a space, no two of
    them are adjacent, and none is at the start or at the end (trimming
    it again changes nothing).  The second replacement of the chain
    never finds a line feed, and a text of white space only gives the
    empty string. *)
Theorem cleanHtmlContent_normalizes_white_space env html :
  single_spaced true (cleanHtmlContent env html) = true
  ∧ trim (cleanHtmlContent env html) = cleanHtmlContent env html
  ∧ cleanHtmlContent env html
    = (if nonempty html
       then trim (replace_runs is_white false (cheerio_text env html))
       else "")
  ∧ (blank (cheerio_text env html) = true → cleanHtmlContent env html = "").
Proof.
  unfold cleanHtmlContent. destruct (nonempty html); simpl negb; cbv iota.
  2:{ by split_and!. }
  pose proof (single_spaced_replace (cheerio_text env html) false) as Hs.
  rewrite (no_LF_left _ false false Hs).
  set (t := replace_runs is_white false (cheerio_text env html)) in *.
  assert (single_spaced true (trim t) = true) as Ht.
  { unfold trim. destruct (trimEnd_prefix (trimStart t)) as [w Hw].
    apply (single_spaced_prefix _ true w). rewrite <- Hw.
    by eapply single_spaced_trimStart. }
  split_and!.
  - exact Ht.
  - unfold trim at 1. rewrite (trimStart_fixed _ Ht).
    unfold trim. apply trimEnd_idem.
  - reflexivity.
  - intros Hb. apply trim_blank. unfold t.
    clear -Hb. generalize false.
    induction (cheerio_text env html) as [|a s IH]; intros b; [done|].
    simpl in Hb. apply andb_true_iff in Hb as [Ha Hb]. simpl. rewrite Ha.
    destruct b; [by apply IH|]. simpl. by rewrite (IH Hb).
Qed.

End CleanFacts.

(** ** The handlers of server.js *)

Module HandlerFacts.
Import Redis RedisFacts RedisService RedisServiceFacts SessionFacts.
Import EmbeddingService QdrantService GeminiService Server.
Import ServerFacts ProviderFacts.

Lemma contents_all docs : ∀ cs s,
  hit_content <$> docs = Some <$> cs → contents docs s = (Ok cs, s).
Proof.
  induction docs as [|doc docs IH]; intros [|c cs] s; try done.
  rewrite !fmap_cons. intros [= Hc Hrest]. simpl. rewrite Hc.
  unfold bind. by rewrite (IH cs s Hrest).
Qed.

Lemma contents_missing docs doc s :
  doc ∈ docs → hit_content doc = None →
  ∃ e, contents docs s = (Throw e, s).
Proof.
  intros Hin Hnone. induction docs as [|d docs IH].
  - by apply elem_of_nil in Hin.
  - simpl. destruct (hit_content d) as [c|] eqn:Hd; [|by eexists].
    apply elem_of_cons in Hin as [->|Hin]; [congruence|].
    destruct (IH Hin) as [e E]. exists e. unfold bind. by rewrite E.
Qed.

Lemma search_run env v s :
  search env v 5 default_threshold s
  = (match qdrant_search env (calls s) collectionName v 5 default_threshold
     with
     | Replied docs => Ok docs
     | Rejected msg => Throw (Error msg)
     end,
     log (CallQdrant (SearchPoints collectionName v 5 default_threshold)) s).
Proof.
  unfold search, try_catch, provider_call.
  by destruct (qdrant_search _ _ _ _ _ _).
Qed.

Lemma emitted_app {A} (m : M A) s evs :
  calls (m s).2 = calls s ++ evs → emitted m s = evs.
Proof. unfold emitted. intros ->. apply drop_app_length. Qed.

(** X20: a chat request with a session id and a message with text,
    whose retrieval and generation succeed, is answered 200 with the
    generated text, trimmed.  The steps are, in this order: the
    embedding of the trimmed message, the search for 5 points, the
    generation call whose prompt holds the message as it was sent and
    the contents found joined by blank lines, and the three Redis
    commands of the append.  GET /api/history for the id then shows
    the old exchanges followed by the new one. *)
Theorem chat_answers_with_the_generated_text
    svc env sid t s first rest docs cs g old :
  let body := {| sessionId := sid; message := JStr t |} in
  let ask := CallJina model [trim t] in
  let look :=
    CallQdrant (SearchPoints collectionName first 5 default_threshold) in
  let prompt := buildRAGPrompt t (join LF2 (join_item <$> cs)) in
  let s3 := log (CallGemini prompt) (log look (log ask s)) in
  let m := {| user := t; bot := trim g;
              timestamp := date_now env (calls s3) |} in
  let hk := getHistoryKey sid in
  0 < sessionTTL svc → 0 < historyTTL svc →
  holds (redis s) hk (Json.stringify <$> reverse old) →
  truthy sid = true → blank t = false →
  jina_post env (calls s) model [trim t] = Replied (Some (first :: rest)) →
  qdrant_search env (calls (log ask s)) collectionName first 5
    default_threshold = Replied docs →
  hit_content <$> docs = Some <$> cs →
  usable_text (gemini_post env (calls (log look (log ask s))) prompt)
  = Some g →
  returns (chat svc env body) s
    (λ res s',
       res = {| status := 200; json := ChatJson (trim g) sid |}
       ∧ (∃ stamp,
            emitted (chat svc env body) s
            = [ ask; look; CallGemini prompt;
                CallRedis (LPUSH hk (Json.stringify m));
                CallRedis (EXPIRE hk (historyTTL svc));
                CallRedis (SET_EX (getSessionKey sid) stamp
                             (sessionTTL svc)) ])
       ∧ returns (history svc (js_to_string sid)) s'
           (λ shown _,
              shown = {| status := 200;
                         json := HistoryJson (old ++ [m]) |})).
Proof.
  intros body ask look prompt s3 m hk Hs Hh Hold Hsid Hb Hjina Hsearch
    Hcs Hg.
  pose proof (embedText_run env t s Hb) as E1. rewrite Hjina in E1.
  pose proof (search_run env first (log ask s)) as E2.
  rewrite Hsearch in E2.
  pose proof (contents_all docs cs (log look (log ask s)) Hcs) as E3.
  pose proof (generateResponse_run env t (join LF2 (join_item <$> cs))
                (log look (log ask s))) as E4.
  fold prompt in E4. rewrite Hg in E4. fold s3 in E4.
  assert (holds (redis s3) hk (Json.stringify <$> reverse old)) as Hold3
    by exact Hold.
  destruct (addMessage_run svc env sid m s3 _ Hs Hh Hold3) as [d0 E5].
  assert (chat svc env body s
          = (Ok {| status := 200; json := ChatJson (trim g) sid |},
             after_append svc env sid m (Json.stringify <$> reverse old)
               d0 s3)) as E.
  { unfold chat, try_catch, bind. cbn [sessionId message body].
    rewrite Hsid, (text_is_truthy t Hb).
    change (negb true || negb true) with false. cbv beta iota.
    unfold ask, look in E2, E3, E4.
    rewrite E1. cbv beta iota. rewrite E2. cbv beta iota.
    rewrite E3. cbv beta iota. cbn [js_to_string].
    rewrite E4. cbv beta iota. unfold toISOString.
    change {| user := t; bot := trim g;
              timestamp := date_now env (calls s3) |} with m.
    by rewrite E5. }
  eapply returns_intro; [exact E|]. split_and!.
  - reflexivity.
  - eexists. apply emitted_app. rewrite E. unfold after_append.
    cbn [snd]. unfold s3. simpl calls. rewrite <- !app_assoc. reflexivity.
  - destruct (getHistory_ok svc (JStr (js_to_string sid))
                (after_append svc env sid m (Json.stringify <$> reverse old)
                   d0 s3) (old ++ [m])) as (s6 & Eh & _).
    { right. eexists.
      change (getHistoryKey (JStr (js_to_string sid)))
        with (getHistoryKey sid).
      rewrite (after_append_history _ _ _ _ _ _ _ Hh).
      by rewrite reverse_snoc, fmap_cons. }
    unfold returns, history, try_catch, bind. by rewrite Eh.
Qed.

(** X21: a chat request whose message is truthy but has no text -- a
    string of white space only, or a value that is not a string -- is
    answered 500, not 400; no outbound call is made and nothing
    changes. *)
Theorem chat_answers_500_for_a_message_without_text svc env body s :
  truthy (sessionId body) = true →
  truthy (message body) = true →
  match message body with JStr t => blank t = true | _ => True end →
  returns (chat svc env body) s
    (λ res s',
       res = failed_chat ∧ s' = s ∧ emitted (chat svc env body) s = []).
Proof.
  intros Hsid Hmsg Hbad.
  destruct (embedText_refuses env (message body) s Hbad) as [why E1].
  assert (chat svc env body s = (Ok failed_chat, s)) as E.
  { unfold chat, try_catch, bind. rewrite Hsid, Hmsg.
    change (negb true || negb true) with false. cbv beta iota.
    by rewrite E1. }
  eapply returns_intro; [exact E|]. split_and!; [done|done|].
  unfold emitted. rewrite E. apply drop_all.
Qed.

(** X22: when the retrieval for a chat request fails -- the embedding
    or the search is refused, the embedding reply has no item, or a
    point found has no payload -- the answer is 500, the generation
    call is not made and no Redis command is sent, so the history is
    as it was. *)
Theorem chat_answers_500_when_retrieval_fails svc env sid t s :
  truthy sid = true → blank t = false →
  retrieval_fails env t s →
  returns (chat svc env {| sessionId := sid; message := JStr t |}) s
    (λ res s',
       res = failed_chat
       ∧ redis s' = redis s ∧ qdrant s' = qdrant s
       ∧ Forall (λ e, is_retrieval e = true)
           (emitted (chat svc env {| sessionId := sid; message := JStr t |})
              s)).
Proof.
  intros Hsid Hb Hfail. unfold retrieval_fails in Hfail.
  set (ask := CallJina model [trim t]) in *.
  pose proof (embedText_run env t s Hb) as E1. fold ask in E1.
  assert (∃ evs,
    chat svc env {| sessionId := sid; message := JStr t |} s
    = (Ok failed_chat, advanced s evs 0)
    ∧ Forall (λ e, is_retrieval e = true) evs) as (evs & E & Hevs).
  { unfold chat, try_catch, bind. cbn [sessionId message].
    rewrite Hsid, (text_is_truthy t Hb).
    change (negb true || negb true) with false. cbv beta iota.
    rewrite E1.
    destruct (jina_post env (calls s) model [trim t])
      as [msg|[[|first rest]|]];
      try (exists [ask]; split;
           [by rewrite FetchFacts.log_advanced|by repeat constructor]).
    rewrite search_run.
    destruct (qdrant_search _ _ _ _ _ _) as [msg|docs].
    - exists [ask; CallQdrant (SearchPoints collectionName first 5
                                 default_threshold)].
      split; [|by repeat constructor].
      by rewrite !FetchFacts.log_advanced, FetchFacts.advanced_advanced.
    - destruct Hfail as (doc & Hin & Hnone).
      destruct (contents_missing docs doc
                  (log (CallQdrant
                          (SearchPoints collectionName first 5
                             default_threshold)) (log ask s)) Hin Hnone)
        as [e ->].
      exists [ask; CallQdrant (SearchPoints collectionName first 5
                                 default_threshold)].
      split; [|by repeat constructor].
      by rewrite !FetchFacts.log_advanced, FetchFacts.advanced_advanced. }
  eapply returns_intro; [exact E|]. split_and!; try done.
  erewrite emitted_app; [exact Hevs|]. by rewrite E.
Qed.

(** GET /api/history: one LRANGE, an answer in every case. *)
Lemma history_run svc sessionId s :
  ∃ res,
    history svc sessionId s
    = (Ok res,
       log (CallRedis (LRANGE (getHistoryKey (JStr sessionId)) 0 (-1))) s).
Proof.
  unfold history, try_catch, bind, getHistory, try_catch, bind, redis_call,
    lRange, rethrow.
  destruct (find (redis s) (getHistoryKey (JStr sessionId)))
    as [[[v|l] d]|]; simpl redis; try (destruct s; by eexists).
  destruct (parse_each_pure (reverse (range l 0 (-1)))) as [o Ho].
  rewrite Ho. destruct s, o; by eexists.
Qed.

Lemma history_stored svc sessionId s ms :
  holds (redis s) (getHistoryKey (JStr sessionId))
    (Json.stringify <$> reverse ms) →
  (history svc sessionId s).1
  = Ok {| status := 200; json := HistoryJson ms |}.
Proof.
  intros Hl.
  destruct (getHistory_ok svc (JStr sessionId) s ms Hl) as (s' & E & _).
  unfold history, try_catch, bind. by rewrite E.
Qed.

Lemma history_wrong_type svc sessionId s :
  holds_a_string (redis s) (getHistoryKey (JStr sessionId)) →
  (history svc sessionId s).1
  = Ok {| status := 500; json := ErrorJson "Failed to retrieve history" |}.
Proof.
  intros (v & d & Hf).
  unfold history, try_catch, bind, getHistory, try_catch, bind, redis_call,
    lRange.
  by rewrite Hf.
Qed.

(** X23: GET /api/history throws nothing, sends one LRANGE and leaves
    Redis as it was.  It answers 200 with the exchanges the service
    stored, oldest first -- none when the key is missing or has
    expired -- and 500 when the key holds a string.  DELETE /api/history
    always answers 200 with success, and a GET that follows answers 200
    with an empty history. *)
Theorem history_handlers_answer svc sessionId s :
  returns (history svc sessionId) s
    (λ res s',
       s' = log (CallRedis (LRANGE (getHistoryKey (JStr sessionId)) 0 (-1)))
              s
       ∧ (∀ ms,
            holds (redis s) (getHistoryKey (JStr sessionId))
              (Json.stringify <$> reverse ms) →
            res = {| status := 200; json := HistoryJson ms |})
       ∧ (holds_a_string (redis s) (getHistoryKey (JStr sessionId)) →
          res = {| status := 500;
                   json := ErrorJson "Failed to retrieve history" |}))
  ∧ returns (clearHistory svc sessionId) s
      (λ res s1,
         res = {| cleared_status := 200; cleared_json := inr true |}
         ∧ returns (history svc sessionId) s1
             (λ shown _,
                shown = {| status := 200; json := HistoryJson [] |})).
Proof.
  split.
  - destruct (history_run svc sessionId s) as [res E].
    eapply returns_intro; [exact E|]. split_and!.
    + reflexivity.
    + intros ms Hl. pose proof (history_stored svc sessionId s ms Hl) as H.
      rewrite E in H. by injection H.
    + intros Hv. pose proof (history_wrong_type svc sessionId s Hv) as H.
      rewrite E in H. by injection H.
  - unfold returns at 1, clearHistory, try_catch, bind.
    rewrite clearSession_run. unfold ret. split; [done|].
    match goal with
    | |- returns _ ?s1 _ =>
        destruct (history_run svc sessionId s1) as [res E];
        pose proof (history_stored svc sessionId s1 []) as H
    end.
    eapply returns_intro; [exact E|].
    rewrite E in H. simpl fst in H. symmetry.
    assert (Ok {| status := 200; json := HistoryJson [] |} = Ok res) as [= <-];
      [|done].
    symmetry. apply H. left. split; [|done].
    simpl redis. rewrite !find_remove.
    destruct (decide (getSessionKey (JStr sessionId)
                      = getHistoryKey (JStr sessionId))); [done|].
    by rewrite decide_True.
Qed.

End HandlerFacts.

(** ** The model at sample inputs *)

Module Examples.
Import Redis RedisService Server NewsIngestion.

Example trim_both_ends : trim "  a b  " = "a b".
Proof. reflexivity. Qed.

Example blank_has_no_text : has_text "   " = false ∧ has_text " x " = true.
Proof. split; reflexivity. Qed.

Example cleanHtmlContent_collapses_white_space :
  cleanHtmlContent Sample.offline
    ("Rates   fall" +:+ LF2 +:+ " again ") = "Rates fall again".
Proof. reflexivity. Qed.

Example combine_skips_a_repeated_body :
  combine "Title" "same" "same" = "Title" +:+ LF2 +:+ "same".
Proof. reflexivity. Qed.

Example parse_reads_back_hello :
  Json.parse (Json.stringify Sample.hello) = Some Sample.hello.
Proof. reflexivity. Qed.

Example parse_refuses_other_text : Json.parse "hello" = None.
Proof. reflexivity. Qed.

Example range_whole_list : range [1; 2; 3; 4] 0 (-1) = [1; 2; 3; 4].
Proof. reflexivity. Qed.

Example range_inner : range [1; 2; 3; 4] 1 2 = [2; 3].
Proof. reflexivity. Qed.

Example settings_fall_back_to_defaults :
  RedisService.new None (Some 0)
  = {| sessionTTL := 3600; historyTTL := 7200 |}.
Proof. reflexivity. Qed.

(** A feed that is down: two attempts, one wait in between, no items. *)
Example fetchFeed_down :
  fetchFeed Sample.offline "https://down.example/rss" 2 Sample.start
  = (Ok [],
     advanced Sample.start
       [ CallParseURL "https://down.example/rss"; Sleep 2000;
         CallParseURL "https://down.example/rss" ] 0).
Proof. reflexivity. Qed.

Example fetchFeed_down_three_attempts :
  emitted (fetchFeed Sample.offline "u" 3) Sample.start
  = [ CallParseURL "u"; Sleep 2000; CallParseURL "u"; Sleep 4000;
      CallParseURL "u" ].
Proof. reflexivity. Qed.

(** Three feeds, the second one down: two articles, numbered 1 and 2. *)
Example fetchAllArticles_skips_the_feed_that_is_down :
  returns (fetchAllArticles Sample.three_feeds Sample.one_feed_down)
    Sample.start
    (λ articles s',
       (λ a, (Article.id a, Article.title a, Article.source a)) <$> articles
       = [ (1%nat, "News from https://a.example/rss", "https://a.example/rss");
           (2%nat, "News from https://c.example/rss", "https://c.example/rss") ]
       ∧ articleCounter s' = 3%nat).
Proof. eapply returns_intro; [vm_compute; reflexivity|]. by split. Qed.

(** The whole ingestion over these feeds stores two points, when the
    embeddings have the size of the collection. *)
Example ingestArticles_stores_two_points :
  returns (ingestArticles Sample.three_feeds Scenario.feeding ;;
           QdrantService.getDocumentCount)
    Sample.prepared
    (λ count _, count = 2).
Proof. eapply returns_intro; [vm_compute; reflexivity|]. reflexivity. Qed.

(** With embeddings of one number the insert is refused:
    ingestArticles throws, nothing is stored, and main ends with 1. *)
Example ingestArticles_is_refused_short_vectors :
  raises (ingestArticles Sample.three_feeds Sample.one_feed_down)
    Sample.prepared
    (λ _ s', qdrant s' = qdrant Sample.prepared).
Proof. eapply raises_intro; [vm_compute; reflexivity|]. reflexivity. Qed.

Example main_ends_with_1_when_the_insert_is_refused :
  returns (main Sample.one_feed_down []) Sample.start (λ code _, code = 1).
Proof. eapply returns_intro; [vm_compute; reflexivity|]. reflexivity. Qed.

Example main_ends_with_0_and_five_points :
  returns (main Scenario.feeding [] ;; QdrantService.getDocumentCount)
    Sample.start
    (λ count _, count = 5).
Proof. eapply returns_intro; [vm_compute; reflexivity|]. reflexivity. Qed.

(** The retrieved content reaches the prompt word for word. *)
Example chat_puts_the_context_in_the_prompt :
  emitted (chat Sample.service Sample.gemini_down Sample.question)
    Sample.start !! 2%nat
  = Some (CallGemini
            (GeminiService.buildRAGPrompt "What's happening with rates?"
               "Market rally continues amid rate cut hopes")).
Proof. reflexivity. Qed.

(** ensureCollection twice from an empty store: the calls. *)
Example ensureCollection_twice :
  emitted (QdrantService.ensureCollection ;; QdrantService.ensureCollection)
    Sample.start
  = [ CallQdrant GetCollections;
      CallQdrant (CreateCollection "news_articles" 768 "Cosine");
      CallQdrant GetCollections ].
Proof. reflexivity. Qed.

End Examples.

(** * The theorems at sample inputs *)

Module Witnesses.
Import Redis RedisService Server NewsIngestion.

(** The generation provider is down: the answer is still 200 with the
    apology, and the history ends with it. *)
Lemma chat_survives_failed_generation_at_sample :
  returns (GeminiService.generateResponse Sample.gemini_down
             "What's happening with rates?"
             "Market rally continues amid rate cut hopes")
    (log (CallQdrant
            (SearchPoints QdrantService.collectionName
               (Sample.marker "What's happening with rates?") 5
               QdrantService.default_threshold))
       (log (CallJina EmbeddingService.model ["What's happening with rates?"])
          Sample.start))
    (λ response _, response = GeminiService.fallback)
  ∧ returns (chat Sample.service Sample.gemini_down Sample.question)
      Sample.start
      (λ res s',
         res = {| status := 200;
                  json := ChatJson GeminiService.fallback (JStr "s1") |}
         ∧ returns (getHistory Sample.service (JStr "s1")) s'
             (λ history _,
                ∃ now, history
                       = [] ++ [ {| user := "What's happening with rates?";
                                    bot := GeminiService.fallback;
                                    timestamp := now |} ])).
Proof.
  eapply (ServerFacts.chat_survives_failed_generation
            Sample.service Sample.gemini_down Sample.question Sample.start
            _ _ _ _ _ _ []).
  - reflexivity.
  - reflexivity.
  - left. split; reflexivity.
  - reflexivity.
  - reflexivity.
  - reflexivity.
  - reflexivity.
  - reflexivity.
Defined.

(** Two appends a minute apart, read five seconds later. *)
Lemma getHistory_is_chronological_at_sample :
  returns (converse Sample.service Sample.offline (JStr "s1")
             [(0, Sample.hello); (60, Sample.thanks)])
    Sample.start
    (λ _ s1,
       stored (redis s1) (getHistoryKey (JStr "s1"))
       = (Json.stringify <$> reverse [(0, Sample.hello); (60, Sample.thanks)].*2)
       ∧ returns (pass 5 ;; getHistory Sample.service (JStr "s1")) s1
           (λ history _,
              history = [(0, Sample.hello); (60, Sample.thanks)].*2)).
Proof.
  apply (RedisServiceFacts.getHistory_is_chronological
           Sample.service Sample.offline (JStr "s1")
           [(0, Sample.hello); (60, Sample.thanks)] 5 Sample.start).
  - reflexivity.
  - reflexivity.
  - reflexivity.
  - repeat constructor; simpl; discriminate.
  - split; [discriminate|reflexivity].
Defined.

(** A batch of two articles with text, sent to a provider that answers
    every text with a vector of its own. *)
Lemma embedDocuments_aligned_at_sample :
  returns (EmbeddingService.embedBatch Sample.echoing
             (Some (Article.content <$> Sample.full_batch)))
    Sample.start
    (λ embeddings _,
       returns (embedDocuments Sample.echoing Sample.full_batch) Sample.start
         (λ docs _,
            length docs = length Sample.full_batch
            ∧ ∀ j a, Sample.full_batch !! j = Some a →
                ∃ d, docs !! j = Some d
                     ∧ Document.id d = Article.id a
                     ∧ Document.vector d = mjoin (embeddings !! j)
                     ∧ Document.vector d
                       = Sample.marker (Article.content a))).
Proof.
  apply (proj1 (BatchFacts.embedDocuments_aligned
                  Sample.echoing Sample.full_batch Sample.start Sample.marker)).
  - discriminate.
  - repeat constructor.
  - reflexivity.
Defined.

(** [embedBatch(["", "  "])] *)
Lemma embedBatch_rejects_blank_input :
  raises (EmbeddingService.embedBatch Sample.echoing (Some [""; "  "]))
    Sample.start
    (λ e s',
       s' = Sample.start ∧
       (error_message e
        = "Failed to generate batch embeddings: Texts array cannot be empty"
        ∨ error_message e
          = "Failed to generate batch embeddings: No valid texts to embed")).
Proof.
  apply (proj1 (EmbeddingFacts.embedBatch_rejects_before_any_call
                  Sample.echoing (Some [""; "  "]) Sample.start)).
  repeat constructor.
Defined.

Lemma one_feed_down_is_stable :
  stable Sample.one_feed_down (feeds Sample.three_feeds) Sample.served.
Proof.
  intros url Hin. simpl in Hin.
  repeat (apply elem_of_cons in Hin as [->|Hin]);
    [| | |by apply elem_of_nil in Hin].
  - intros cs. reflexivity.
  - intros cs. by eexists.
  - intros cs. reflexivity.
Defined.

(** Three feeds, the second one down: the articles of the two others
    are collected. *)
Lemma fetchAllArticles_with_one_feed_down :
  returns (fetchAllArticles Sample.three_feeds Sample.one_feed_down)
    Sample.start
    (λ articles _,
       digest <$> articles
       = take 50 (contributions Sample.three_feeds Sample.one_feed_down
                    Sample.served 0 (feeds Sample.three_feeds))).
Proof.
  apply (proj2 (FetchFacts.fetchFeed_retries_then_gives_up
                  Sample.one_feed_down "https://down.example/rss" 2
                  Sample.start)
           Sample.three_feeds Sample.served one_feed_down_is_stable).
Defined.

(** A history that was written two hours ago. *)
Lemma getHistory_of_lapsed_session :
  returns (getHistory Sample.service (JStr "s1")) Sample.lapsed
    (λ history s', history = [] ∧ redis s' = redis Sample.lapsed).
Proof.
  apply (HistoryFacts.getHistory_unknown_session_is_empty
           Sample.service (JStr "s1") Sample.lapsed).
  right. eexists _, 7200. split_and!.
  - reflexivity.
  - reflexivity.
  - discriminate.
Defined.

(** A request with an empty message. *)
Lemma chat_rejects_empty_message :
  returns (chat Sample.service Sample.gemini_down Sample.no_message)
    Sample.start
    (λ res s',
       status res = 400 ∧ s' = Sample.start
       ∧ emitted (chat Sample.service Sample.gemini_down Sample.no_message)
           Sample.start
         = []).
Proof.
  apply (ServerFacts.chat_rejects_empty_string
           Sample.service Sample.gemini_down Sample.no_message Sample.start).
  right. reflexivity.
Defined.

End Witnesses.

(** * The further theorems at sample inputs *)

Module MoreWitnesses.
Import Redis RedisService Server NewsIngestion.
Import Qdrant QdrantService EmbeddingService GeminiService.

(** Ten seconds after an append the session is still there. *)
Lemma sessionExists_ten_seconds_later :
  returns (addMessage Sample.service Sample.offline (JStr "s1") Sample.hello ;;
           pass 10 ;; sessionExists Sample.service (JStr "s1"))
    Sample.start
    (λ found _, found = bool_decide (10 < sessionTTL Sample.service)).
Proof.
  apply (proj2 (SessionFacts.sessionExists_until_the_session_timeout
                  Sample.service Sample.offline (JStr "s1") Sample.hello
                  Sample.start [] 10)).
  - reflexivity.
  - reflexivity.
  - left. split; reflexivity.
Defined.

(** Half an hour after an append: the date of the append, one message. *)
Lemma getSessionInfo_half_an_hour_later :
  returns (addMessage Sample.service Sample.offline (JStr "s1") Sample.hello ;;
           pass 1800 ;; getSessionInfo Sample.service (JStr "s1"))
    Sample.start
    (λ info _,
       info = Some {| info_sessionId := JStr "s1";
                      lastActivity :=
                        if bool_decide (1800 < sessionTTL Sample.service)
                        then Some
                               (date_now Sample.offline
                                  (calls Sample.start
                                   ++ [ CallRedis
                                          (LPUSH (getHistoryKey (JStr "s1"))
                                             (Json.stringify Sample.hello));
                                        CallRedis
                                          (EXPIRE (getHistoryKey (JStr "s1"))
                                             (historyTTL Sample.service)) ]))
                        else None;
                      messageCount :=
                        if bool_decide (1800 < historyTTL Sample.service)
                        then Z.of_nat (S (length (@nil string))) else 0 |}).
Proof.
  apply (SessionFacts.getSessionInfo_after_an_append
           Sample.service Sample.offline (JStr "s1") Sample.hello
           Sample.start [] 1800).
  - reflexivity.
  - reflexivity.
  - left. split; reflexivity.
Defined.

(** The session "s2" holds one exchange; appending to "s1" or clearing
    it leaves that exchange and the session in place. *)
Lemma sessions_s1_and_s2_do_not_interfere :
  verdict (getHistory Sample.service (JStr "s2")) Scenario.two_sessions
  = Ok [Sample.thanks]
  ∧ verdict (sessionExists Sample.service (JStr "s2")) Scenario.two_sessions
    = Ok true
  ∧ verdict (getHistory Sample.service (JStr "s2"))
      (addMessage Sample.service Sample.offline (JStr "s1") Sample.hello
         Scenario.two_sessions).2
    = verdict (getHistory Sample.service (JStr "s2")) Scenario.two_sessions
  ∧ verdict (sessionExists Sample.service (JStr "s2"))
      (addMessage Sample.service Sample.offline (JStr "s1") Sample.hello
         Scenario.two_sessions).2
    = verdict (sessionExists Sample.service (JStr "s2")) Scenario.two_sessions
  ∧ verdict (getHistory Sample.service (JStr "s2"))
      (clearSession Sample.service (JStr "s1") Scenario.two_sessions).2
    = verdict (getHistory Sample.service (JStr "s2")) Scenario.two_sessions
  ∧ verdict (sessionExists Sample.service (JStr "s2"))
      (clearSession Sample.service (JStr "s1") Scenario.two_sessions).2
    = verdict (sessionExists Sample.service (JStr "s2")) Scenario.two_sessions.
Proof.
  split; [reflexivity|]. split; [reflexivity|].
  apply (SessionFacts.sessions_do_not_interfere
           Sample.service Sample.offline (JStr "s1") (JStr "s2")
           Sample.hello Scenario.two_sessions).
  - exact I.
  - exact I.
  - simpl. discriminate.
Defined.

(** A negative session timeout: the append throws, the message stays. *)
Lemma addMessage_with_a_negative_session_timeout :
  raises (addMessage Scenario.hasty Sample.offline (JStr "s1") Sample.hello)
    Sample.start
    (λ _ s', stored (redis s') (getHistoryKey (JStr "s1"))
             = Json.stringify Sample.hello :: []).
Proof.
  apply (SessionFacts.addMessage_fails_after_the_push
           Scenario.hasty Sample.offline (JStr "s1") Sample.hello
           Sample.start []).
  - simpl. lia.
  - reflexivity.
  - left. split; reflexivity.
Defined.

(** The text " What's new? " is embedded without its blanks. *)
Lemma embedText_of_a_padded_text :
  emitted (embedText Sample.echoing (JStr Scenario.padded)) Sample.start
  = [CallJina model [trim Scenario.padded]]
  ∧ ∀ first rest,
      jina_post Sample.echoing (calls Sample.start) model
        [trim Scenario.padded]
      = Replied (Some (first :: rest)) →
      returns (embedText Sample.echoing (JStr Scenario.padded)) Sample.start
        (λ v _, v = first).
Proof.
  apply (proj2 (ProviderFacts.embedText_trims_and_guards
                  Sample.echoing (JStr Scenario.padded) Sample.start)
           Scenario.padded).
  - reflexivity.
  - reflexivity.
Defined.

(** Two documents with vectors of 768 numbers, one of them with the id
    of a stored point. *)
Lemma insertDocuments_into_the_stocked_collection :
  emitted (insertDocuments Scenario.delivery) Scenario.stocked
  = [CallQdrant (Upsert collectionName Scenario.delivery)]
  ∧ returns (insertDocuments Scenario.delivery) Scenario.stocked
      (λ ok s1,
         ok = true
         ∧ ∃ c1,
             qdrant s1 !! collectionName = Some c1
             ∧ dom (points c1)
               = dom (points Scenario.shelf)
                 ∪ list_to_set (Document.id <$> Scenario.delivery)
             ∧ (∀ i, i ∉ Document.id <$> Scenario.delivery →
                  points c1 !! i = points Scenario.shelf !! i)
             ∧ (NoDup (Document.id <$> Scenario.delivery) →
                ∀ d, d ∈ Scenario.delivery →
                  points c1 !! Document.id d
                  = Some (Document.vector d, Document.payload d))
             ∧ returns getDocumentCount s1
                 (λ count _,
                    count
                    = Z.of_nat
                        (base.size
                           (dom (points Scenario.shelf)
                            ∪ list_to_set (Document.id <$> Scenario.delivery)
                            : gset nat)))).
Proof.
  assert (qdrant Scenario.stocked !! collectionName = Some Scenario.shelf)
    as Hc by reflexivity.
  assert (Scenario.delivery ≠ []) as Hne by discriminate.
  destruct (CollectionFacts.insertDocuments_replaces_by_id
              Scenario.delivery Scenario.stocked Scenario.shelf Hc Hne)
    as (Hcall & Hok & _).
  split; [exact Hcall|]. apply Hok.
  repeat constructor.
Defined.

Lemma clearCollection_of_the_stocked_collection :
  returns clearCollection Scenario.stocked
    (λ ok s1,
       ok = true
       ∧ qdrant s1 !! collectionName
         = Some {| size := size Scenario.shelf;
                   distance := distance Scenario.shelf; points := ∅ |}
       ∧ (∀ name, name ≠ collectionName →
            qdrant s1 !! name = qdrant Scenario.stocked !! name)
       ∧ returns getDocumentCount s1 (λ count _, count = 0)
       ∧ creations (emitted ensureCollection s1) = 0%nat).
Proof.
  apply (CollectionFacts.clearCollection_keeps_the_collection
           Scenario.stocked Scenario.shelf).
  reflexivity.
Defined.

(** Before the collection is created. *)
Lemma the_missing_collection_at_the_start :
  raises (insertDocuments Scenario.delivery) Sample.start
    (λ _ s1, qdrant s1 = qdrant Sample.start)
  ∧ raises clearCollection Sample.start
      (λ _ s1, qdrant s1 = qdrant Sample.start)
  ∧ raises getCollectionInfo Sample.start
      (λ _ s1, qdrant s1 = qdrant Sample.start)
  ∧ returns getDocumentCount Sample.start
      (λ count s1, count = 0 ∧ qdrant s1 = qdrant Sample.start).
Proof.
  apply (CollectionFacts.missing_collection_is_reported_except_by_the_count
           Scenario.delivery Sample.start).
  reflexivity.
Defined.

(** A feed that is back on the second attempt. *)
Lemma fetchFeed_of_the_flaky_feed :
  returns (fetchFeed Scenario.flaky "https://a.example/rss" 2) Sample.start
    (λ its s',
       its = default [] (items {| items := Some [Sample.titled "Recovered"] |})
       ∧ s' = advanced Sample.start
                [ CallParseURL "https://a.example/rss"; Sleep 2000;
                  CallParseURL "https://a.example/rss" ] 0).
Proof.
  apply (IngestFacts.fetchFeed_recovers_on_the_second_attempt
           Scenario.flaky "https://a.example/rss" 2 Sample.start
           "ETIMEDOUT" {| items := Some [Sample.titled "Recovered"] |}).
  - lia.
  - reflexivity.
  - reflexivity.
Defined.

(** Two feeds serve an article each, and the embedding provider is down
    for the whole run: the batch is skipped after its request failed. *)
Lemma ingestArticles_without_embeddings :
  CallJina model
    ["News from https://a.example/rss"; "News from https://c.example/rss"]
  ∈ emitted (ingestArticles Sample.three_feeds Scenario.mute) Sample.start
  ∧ returns (ingestArticles Sample.three_feeds Scenario.mute) Sample.start
      (λ _ s', qdrant s' = qdrant Sample.start
               ∧ redis s' = redis Sample.start
               ∧ Forall (λ e, ∀ c, e ≠ CallQdrant c)
                   (emitted (ingestArticles Sample.three_feeds Scenario.mute)
                      Sample.start)).
Proof.
  split.
  - vm_compute.
    repeat first [apply list_elem_of_here | apply list_elem_of_further].
  - apply (IngestFacts.ingestArticles_stores_nothing_without_embeddings
             Sample.three_feeds Scenario.mute Sample.start).
    intros cs input. exists "ECONNREFUSED". reflexivity.
Defined.

(** A first message in the session "s1", answered. *)
Lemma chat_answers_the_padded_question :
  returns (chat Sample.service Scenario.answering
             {| sessionId := JStr "s1"; message := JStr Scenario.padded |})
    Sample.start
    (λ res s',
       res = {| status := 200;
                json := ChatJson (trim " Rates fell. ") (JStr "s1") |}
       ∧ (∃ stamp,
            emitted (chat Sample.service Scenario.answering
                       {| sessionId := JStr "s1";
                          message := JStr Scenario.padded |})
              Sample.start
            = [ CallJina model [trim Scenario.padded];
                CallQdrant
                  (SearchPoints collectionName
                     (Sample.marker "What's new?") 5 default_threshold);
                CallGemini
                  (buildRAGPrompt Scenario.padded
                     (join LF2
                        (join_item
                           <$> [JStr "Market rally continues amid rate cut hopes"])));
                CallRedis
                  (LPUSH (getHistoryKey (JStr "s1"))
                     (Json.stringify
                        {| user := Scenario.padded;
                           bot := trim " Rates fell. ";
                           timestamp :=
                             date_now Scenario.answering
                               (calls
                                  (log
                                     (CallGemini
                                        (buildRAGPrompt Scenario.padded
                                           (join LF2
                                              (join_item
                                                 <$> [JStr "Market rally continues amid rate cut hopes"]))))
                                     (log
                                        (CallQdrant
                                           (SearchPoints collectionName
                                              (Sample.marker "What's new?") 5
                                              default_threshold))
                                        (log
                                           (CallJina model
                                              [trim Scenario.padded])
                                           Sample.start)))) |}));
                CallRedis
                  (EXPIRE (getHistoryKey (JStr "s1"))
                     (historyTTL Sample.service));
                CallRedis
                  (SET_EX (getSessionKey (JStr "s1")) stamp
                     (sessionTTL Sample.service)) ])
       ∧ returns (history Sample.service (js_to_string (JStr "s1"))) s'
           (λ shown _,
              shown
              = {| status := 200;
                   json :=
                     HistoryJson
                       ([] ++
                        [ {| user := Scenario.padded;
                             bot := trim " Rates fell. ";
                             timestamp :=
                               date_now Scenario.answering
                                 (calls
                                    (log
                                       (CallGemini
                                          (buildRAGPrompt Scenario.padded
                                             (join LF2
                                                (join_item
                                                   <$> [JStr "Market rally continues amid rate cut hopes"]))))
                                       (log
                                          (CallQdrant
                                             (SearchPoints collectionName
                                                (Sample.marker "What's new?")
                                                5 default_threshold))
                                          (log
                                             (CallJina model
                                                [trim Scenario.padded])
                                             Sample.start)))) |} ]) |})).
Proof.
  apply (HandlerFacts.chat_answers_with_the_generated_text
           Sample.service Scenario.answering (JStr "s1") Scenario.padded
           Sample.start (Sample.marker "What's new?") []
           [Sample.market_hit]
           [JStr "Market rally continues amid rate cut hopes"]
           " Rates fell. " []).
  - reflexivity.
  - reflexivity.
  - left. split; reflexivity.
  - reflexivity.
  - reflexivity.
  - reflexivity.
  - reflexivity.
  - reflexivity.
  - reflexivity.
Defined.

(** A message of three spaces. *)
Lemma chat_answers_500_for_spaces :
  returns (chat Sample.service Scenario.answering Scenario.spaces)
    Sample.start
    (λ res s',
       res = failed_chat ∧ s' = Sample.start
       ∧ emitted (chat Sample.service Scenario.answering Scenario.spaces)
           Sample.start = []).
Proof.
  apply (HandlerFacts.chat_answers_500_for_a_message_without_text
           Sample.service Scenario.answering Scenario.spaces Sample.start).
  - reflexivity.
  - reflexivity.
  - reflexivity.
Defined.

(** The search finds a point without payload. *)
Lemma chat_answers_500_for_a_bare_point :
  returns (chat Sample.service Scenario.bare
             {| sessionId := JStr "s1"; message := JStr "hello" |})
    Sample.start
    (λ res s',
       res = failed_chat
       ∧ redis s' = redis Sample.start ∧ qdrant s' = qdrant Sample.start
       ∧ Forall (λ e, is_retrieval e = true)
           (emitted (chat Sample.service Scenario.bare
                       {| sessionId := JStr "s1"; message := JStr "hello" |})
              Sample.start)).
Proof.
  apply (HandlerFacts.chat_answers_500_when_retrieval_fails
           Sample.service Scenario.bare (JStr "s1") "hello" Sample.start).
  - reflexivity.
  - reflexivity.
  - exists Scenario.bare_hit. split; [|reflexivity].
    apply list_elem_of_further, list_elem_of_here.
Defined.

End MoreWitnesses.
